(** * uenv: the oras pull orchestrator ([lib/oras.py])

    A shallow embedding of [lib/oras.py]: the lookup of the oras client,
    the launch of a child process, the classification of its error output
    and [pull_uenv], the routine that discovers the meta data digest, pulls
    the meta data and the squashfs image and draws the progress bar.

    Text is held as Rocq strings, i.e. as the UTF-8 bytes of the Python
    [str]; the separators and patterns the module searches for are ASCII,
    for which byte-wise and character-wise search agree. *)

From Stdlib Require Import Ascii QArith Qround Qpower.
From stdpp Require Import gmap strings list pretty.

Local Open Scope Z_scope.

(** ** Python strings *)

Module PyStr.

(** [str.rpartition]-style search for the last occurrence of a one-character
    separator: the text before it and the text after it. *)
Fixpoint rfind_split (sep : ascii) (s : string) : option (string * string) :=
  match s with
  | EmptyString => None
  | String a s' =>
      match rfind_split sep s' with
      | Some (b, t) => Some (String a b, t)
      | None => if Ascii.eqb a sep then Some (EmptyString, s') else None
      end
  end.

(** [s.rsplit(sep, 1)] for a one-character [sep]. *)
Definition rsplit1 (sep : ascii) (s : string) : list string :=
  match rfind_split sep s with
  | Some (b, t) => [b; t]
  | None => [s]
  end.

(** [c in s] for a character. *)
Fixpoint has_char (c : ascii) (s : string) : bool :=
  match s with
  | EmptyString => false
  | String a s' => Ascii.eqb a c || has_char c s'
  end.

(** [pat in s]: [pat] occurs in [s] as a contiguous run. *)
Fixpoint contains (pat s : string) : bool :=
  String.prefix pat s ||
  match s with
  | EmptyString => false
  | String _ s' => contains pat s'
  end.

(** [sep.join(l)]. *)
Fixpoint join (sep : string) (l : list string) : string :=
  match l with
  | [] => ""
  | [x] => x
  | x :: l' => x +:+ sep +:+ join sep l'
  end.

(** Number of code points of a UTF-8 text: the bytes that are not
    continuation bytes [10xxxxxx]. *)
Fixpoint py_len (s : string) : nat :=
  match s with
  | EmptyString => O
  | String a s' =>
      let n := N_of_ascii a in
      ((if (128 <=? n)%N && (n <? 192)%N then 0 else 1) + py_len s')%nat
  end.

(** The continuation bytes at the head of [s], and what follows them. *)
Fixpoint span_cont (s : string) : string * string :=
  match s with
  | EmptyString => (EmptyString, EmptyString)
  | String a s' =>
      let n := N_of_ascii a in
      if (128 <=? n)%N && (n <? 192)%N
      then let '(c, r) := span_cont s' in (String a c, r)
      else (EmptyString, s)
  end.

(** [s[0]]: the first code point, as a string. *)
Definition first_char (s : string) : option string :=
  match s with
  | EmptyString => None
  | String a s' => Some (String a (fst (span_cont s')))
  end.

End PyStr.

(** ** Decoded JSON documents *)

Set Warnings "-register-all".

(** What [json.loads] returns: [None], [bool], [int], [float], [str], [list]
    and [dict].  A float is kept as the literal it was read from; the module
    never computes with one.  A dict is kept as its items in insertion
    order, with distinct keys. *)
Inductive json : Type :=
  | JNull
  | JBool (b : bool)
  | JInt (z : Z)
  | JFloat (literal : string)
  | JStr (s : string)
  | JArr (items : list json)
  | JObj (items : list (string * json)).

Module PyDict.

(** [d[k] = v]: overwrite in place, or append a new key. *)
Fixpoint set (k : string) (v : json) (d : list (string * json))
  : list (string * json) :=
  match d with
  | [] => [(k, v)]
  | (k', v') :: d' =>
      if String.eqb k' k then (k, v) :: d' else (k', v') :: set k v d'
  end.

(** [d.get(k)]. *)
Fixpoint get (k : string) (d : list (string * json)) : option json :=
  match d with
  | [] => None
  | (k', v') :: d' => if String.eqb k' k then Some v' else get k d'
  end.

End PyDict.

(** ** [json.loads]

    The decoder of Python's [json] module in its default (strict) mode: the
    JSON grammar, plus the constants [NaN], [Infinity] and [-Infinity];
    white space is blank, tab, line feed and carriage return; a repeated key
    keeps its first position and takes the last value.  [None] stands for
    [json.JSONDecodeError]. *)
Module JsonDecoder.

Definition is_ws (a : ascii) : bool :=
  let n := N_of_ascii a in
  (n =? 32)%N || (n =? 9)%N || (n =? 10)%N || (n =? 13)%N.

Fixpoint skip_ws (s : string) : string :=
  match s with
  | String a s' => if is_ws a then skip_ws s' else s
  | EmptyString => s
  end.

Definition digit_val (a : ascii) : option Z :=
  let n := N_of_ascii a in
  if (48 <=? n)%N && (n <=? 57)%N then Some (Z.of_N n - 48) else None.

Definition hex_val (a : ascii) : option Z :=
  let n := N_of_ascii a in
  if (48 <=? n)%N && (n <=? 57)%N then Some (Z.of_N n - 48)
  else if (65 <=? n)%N && (n <=? 70)%N then Some (Z.of_N n - 55)
  else if (97 <=? n)%N && (n <=? 102)%N then Some (Z.of_N n - 87)
  else None.

(** The longest run of decimal digits at the head of [s]. *)
Fixpoint span_digits (s : string) : string * string :=
  match s with
  | String a s' =>
      match digit_val a with
      | Some _ => let '(d, r) := span_digits s' in (String a d, r)
      | None => (EmptyString, s)
      end
  | EmptyString => (EmptyString, EmptyString)
  end.

Fixpoint digits_value (acc : Z) (s : string) : Z :=
  match s with
  | String a s' =>
      match digit_val a with
      | Some d => digits_value (10 * acc + d) s'
      | None => acc
      end
  | EmptyString => acc
  end.

(** The integer part: an optional minus sign, then either a single zero or
    a run of digits that does not start with zero; its text and the rest. *)
Definition scan_int (s : string) : option (string * string) :=
  let '(sign, body) :=
    match s with
    | String "-" s' => ("-", s')
    | _ => ("", s)
    end in
  match body with
  | String "0" r => Some (sign +:+ "0", r)
  | _ =>
      match span_digits body with
      | (EmptyString, _) => None
      | (d, r) => Some (sign +:+ d, r)
      end
  end.

(** The optional fraction: a dot and at least one digit. *)
Definition scan_frac (s : string) : string * string :=
  match s with
  | String "." s' =>
      match span_digits s' with
      | (EmptyString, _) => ("", s)
      | (d, r) => ("." +:+ d, r)
      end
  | _ => ("", s)
  end.

(** The optional exponent: e or E, an optional sign, at least one digit. *)
Definition scan_exp (s : string) : string * string :=
  match s with
  | String e s' =>
      if Ascii.eqb e "e" || Ascii.eqb e "E" then
        let '(sign, body) :=
          match s' with
          | String c s'' =>
              if Ascii.eqb c "+" || Ascii.eqb c "-"
              then (String c "", s'') else ("", s')
          | EmptyString => ("", s')
          end in
        match span_digits body with
        | (EmptyString, _) => ("", s)
        | (d, r) => (String e sign +:+ d, r)
        end
      else ("", s)
  | EmptyString => ("", s)
  end.

Definition int_value (text : string) : Z :=
  match text with
  | String "-" d => - digits_value 0 d
  | _ => digits_value 0 text
  end.

Definition scan_number (s : string) : option (json * string) :=
  match scan_int s with
  | None => None
  | Some (i, r) =>
      let '(f, r1) := scan_frac r in
      let '(e, r2) := scan_exp r1 in
      match f, e with
      | EmptyString, EmptyString => Some (JInt (int_value i), r2)
      | _, _ => Some (JFloat (i +:+ f +:+ e), r2)
      end
  end.

(** UTF-8 encoding of a code point (a lone surrogate takes the three-byte
    form as well). *)
Definition byte (z : Z) : ascii := ascii_of_N (Z.to_N z).

Definition utf8 (cp : Z) : string :=
  if cp <? 128 then String (byte cp) ""
  else if cp <? 2048 then
    String (byte (192 + cp / 64)) (String (byte (128 + cp mod 64)) "")
  else if cp <? 65536 then
    String (byte (224 + cp / 4096))
      (String (byte (128 + (cp / 64) mod 64))
         (String (byte (128 + cp mod 64)) ""))
  else
    String (byte (240 + cp / 262144))
      (String (byte (128 + (cp / 4096) mod 64))
         (String (byte (128 + (cp / 64) mod 64))
            (String (byte (128 + cp mod 64)) ""))).

(** Four hexadecimal digits after [\u]. *)
Definition scan_hex4 (s : string) : option (Z * string) :=
  match s with
  | String a (String b (String c (String d r))) =>
      match hex_val a, hex_val b, hex_val c, hex_val d with
      | Some x, Some y, Some z, Some w =>
          Some (4096 * x + 256 * y + 16 * z + w, r)
      | _, _, _, _ => None
      end
  | _ => None
  end.

(** The escape after a backslash: its text and the rest. *)
Definition scan_escape (s : string) : option (string * string) :=
  match s with
  | String c r =>
      match N_of_ascii c with
      | 34%N => Some (String c "", r)
      | 92%N => Some (String c "", r)
      | 47%N => Some ("/", r)
      | 98%N => Some (String (ascii_of_N 8) "", r)
      | 102%N => Some (String (ascii_of_N 12) "", r)
      | 110%N => Some (String (ascii_of_N 10) "", r)
      | 114%N => Some (String (ascii_of_N 13) "", r)
      | 116%N => Some (String (ascii_of_N 9) "", r)
      | 117%N =>
          match scan_hex4 r with
          | None => None
          | Some (hi, r1) =>
              let single := Some (utf8 hi, r1) in
              if (55296 <=? hi) && (hi <=? 56319) then
                match r1 with
                | String b (String u r2) =>
                    if (N_of_ascii b =? 92)%N && (N_of_ascii u =? 117)%N then
                      match scan_hex4 r2 with
                      | None => None
                      | Some (lo, r3) =>
                          if (56320 <=? lo) && (lo <=? 57343)
                          then Some (utf8 (65536 + (hi - 55296) * 1024
                                                 + (lo - 56320)), r3)
                          else single
                      end
                    else single
                | _ => single
                end
              else single
          end
      | _ => None
      end
  | EmptyString => None
  end.

(** The body of a string literal, after its opening quote. *)
Fixpoint scan_string (fuel : nat) (s : string) : option (string * string) :=
  match fuel with
  | O => None
  | S fuel' =>
      match s with
      | EmptyString => None
      | String c r =>
          let n := N_of_ascii c in
          if (n =? 34)%N then Some ("", r)
          else if (n =? 92)%N then
            match scan_escape r with
            | None => None
            | Some (t, r1) =>
                match scan_string fuel' r1 with
                | None => None
                | Some (t', r2) => Some (t +:+ t', r2)
                end
            end
          else if (n <? 32)%N then None
          else
            match scan_string fuel' r with
            | None => None
            | Some (t', r2) => Some (String c t', r2)
            end
      end
  end.

Definition parse_string (s : string) : option (string * string) :=
  scan_string (S (String.length s)) s.

Definition strip_prefix (p s : string) : option string :=
  if String.prefix p s
  then Some (String.substring (String.length p)
               (String.length s - String.length p) s)
  else None.

(** A constant of the grammar, or a number. *)
Definition scan_atom (s : string) : option (json * string) :=
  match strip_prefix "null" s with
  | Some r => Some (JNull, r)
  | None =>
  match strip_prefix "true" s with
  | Some r => Some (JBool true, r)
  | None =>
  match strip_prefix "false" s with
  | Some r => Some (JBool false, r)
  | None =>
  match scan_number s with
  | Some res => Some res
  | None =>
  match strip_prefix "NaN" s with
  | Some r => Some (JFloat "NaN", r)
  | None =>
  match strip_prefix "Infinity" s with
  | Some r => Some (JFloat "Infinity", r)
  | None =>
  match strip_prefix "-Infinity" s with
  | Some r => Some (JFloat "-Infinity", r)
  | None => None
  end end end end end end end.

(** [scan_once]: one value at the head of [s]; [scan_items] and
    [scan_members] read the rest of an array and of an object, from the
    first element and the first key on. *)
Fixpoint scan_once (fuel : nat) (s : string) : option (json * string) :=
  match fuel with
  | O => None
  | S fuel' =>
      match s with
      | String c r =>
          let n := N_of_ascii c in
          if (n =? 34)%N then
            match parse_string r with
            | Some (t, r1) => Some (JStr t, r1)
            | None => None
            end
          else if (n =? 123)%N then
            match skip_ws r with
            | String c1 r1 =>
                if (N_of_ascii c1 =? 125)%N then Some (JObj [], r1)
                else
                  match scan_members fuel' [] (skip_ws r) with
                  | Some (d, r2) => Some (JObj d, r2)
                  | None => None
                  end
            | EmptyString => None
            end
          else if (n =? 91)%N then
            match skip_ws r with
            | String c1 r1 =>
                if (N_of_ascii c1 =? 93)%N then Some (JArr [], r1)
                else
                  match scan_items fuel' (skip_ws r) with
                  | Some (l, r2) => Some (JArr l, r2)
                  | None => None
                  end
            | EmptyString => None
            end
          else scan_atom s
      | EmptyString => None
      end
  end
with scan_items (fuel : nat) (s : string) : option (list json * string) :=
  match fuel with
  | O => None
  | S fuel' =>
      match scan_once fuel' s with
      | None => None
      | Some (v, r) =>
          match skip_ws r with
          | String c r1 =>
              if (N_of_ascii c =? 93)%N then Some ([v], r1)
              else if (N_of_ascii c =? 44)%N then
                match scan_items fuel' (skip_ws r1) with
                | Some (l, r2) => Some (v :: l, r2)
                | None => None
                end
              else None
          | EmptyString => None
          end
      end
  end
with scan_members (fuel : nat) (acc : list (string * json)) (s : string)
  : option (list (string * json) * string) :=
  match fuel with
  | O => None
  | S fuel' =>
      match s with
      | String q r =>
          if (N_of_ascii q =? 34)%N then
            match parse_string r with
            | None => None
            | Some (k, r1) =>
                match skip_ws r1 with
                | String c r2 =>
                    if (N_of_ascii c =? 58)%N then
                      match scan_once fuel' (skip_ws r2) with
                      | None => None
                      | Some (v, r3) =>
                          let acc' := PyDict.set k v acc in
                          match skip_ws r3 with
                          | String c' r4 =>
                              if (N_of_ascii c' =? 125)%N then Some (acc', r4)
                              else if (N_of_ascii c' =? 44)%N then
                                scan_members fuel' acc' (skip_ws r4)
                              else None
                          | EmptyString => None
                          end
                      end
                    else None
                | EmptyString => None
                end
            end
          else None
      | EmptyString => None
      end
  end.

(** [json.loads(s)]: one value, white space around it, nothing else. *)
Definition loads (s : string) : option json :=
  match scan_once (2 * String.length s + 2) (skip_ws s) with
  | Some (v, r) =>
      match skip_ws r with
      | EmptyString => Some v
      | _ => None
      end
  | None => None
  end.

End JsonDecoder.

(** ** Python values at run time *)

(** What was attempted on a value when a [TypeError] was raised. *)
Inductive pyop : Type :=
  | OpLen
  | OpSubscript (key : json).

(** The exceptions the module can meet.  [SystemExit] and
    [KeyboardInterrupt] derive from [BaseException] only; all the others
    derive from [Exception]. *)
Inductive exn : Type :=
  | SystemExit (code : Z)
  | KeyboardInterrupt
  | OSError (text : string)
  | NotADirectoryError (path : string)
  | IsADirectoryError (path : string)
  | FileNotFoundError (path : string)
  | JSONDecodeError (doc : string)
  | KeyError (key : json)
  | IndexError
  | TypeError (op : pyop) (operand : json)
  | ZeroDivisionError
  | UnboundLocalError (name : string).

(** [isinstance(e, Exception)]. *)
Definition is_Exception (e : exn) : bool :=
  match e with
  | SystemExit _ | KeyboardInterrupt => false
  | _ => true
  end.

Module PyVal.

(** [l[i]] on a Python list. *)
Definition list_item {A} (l : list A) (i : nat) : exn + A :=
  match l !! i with
  | Some x => inr x
  | None => inl IndexError
  end.

(** [json.loads(s)]. *)
Definition json_loads (s : string) : exn + json :=
  match JsonDecoder.loads s with
  | Some v => inr v
  | None => inl (JSONDecodeError s)
  end.

(** [v[k]] for a string key [k]. *)
Definition getitem_str (v : json) (k : string) : exn + json :=
  match v with
  | JObj d =>
      match PyDict.get k d with
      | Some x => inr x
      | None => inl (KeyError (JStr k))
      end
  | _ => inl (TypeError (OpSubscript (JStr k)) v)
  end.

(** [v[0]]. *)
Definition getitem_0 (v : json) : exn + json :=
  match v with
  | JArr l => list_item l 0
  | JStr s =>
      match PyStr.first_char s with
      | Some c => inr (JStr c)
      | None => inl IndexError
      end
  | JObj _ => inl (KeyError (JInt 0))
  | _ => inl (TypeError (OpSubscript (JInt 0)) v)
  end.

(** [len(v)]. *)
Definition len (v : json) : exn + nat :=
  match v with
  | JArr l => inr (length l)
  | JObj d => inr (length d)
  | JStr s => inr (PyStr.py_len s)
  | _ => inl (TypeError OpLen v)
  end.

(** Floats are idealised as exact rationals: rounding, overflow and the
    special values of binary64 are left out.  [int(q)] truncates towards
    zero. *)
Definition int_of_float (q : Q) : Z := Z.quot (Qnum q) (Z.pos (Qden q)).

(** What the idealisation leaves out of a division: the rounding of the
    quotient to binary64. *)

(** [floor (log2 (n / d))], for positive [n] and [d]. *)
Definition floor_log2 (n d : Z) : Z :=
  let k := Z.log2 n - Z.log2 d in
  if (if 0 <=? k then 2 ^ k * d <=? n else d <=? n * 2 ^ (- k))
  then k else k - 1.

(** [n / d] rounded to the nearest integer, ties to even, for positive
    [d]. *)
Definition round_half_even (n d : Z) : Z :=
  let f := n / d in
  let r := n mod d in
  if 2 * r <? d then f
  else if d <? 2 * r then f + 1
  else if Z.even f then f else f + 1.

(** The binary64 number nearest to [q], ties to even: a significand of 53
    bits.  Subnormal numbers and overflow are left out. *)
Definition round64 (q : Q) : Q :=
  let n := Z.abs (Qnum q) in
  let d := Z.pos (Qden q) in
  if n =? 0 then 0%Q
  else
    let e := floor_log2 n d - 52 in
    let m := if 0 <=? e then round_half_even n (d * 2 ^ e)
             else round_half_even (n * 2 ^ (- e)) d in
    (inject_Z (Z.sgn (Qnum q) * m) * 2 ^ e)%Q.

(** [a / b] on ints, as Python computes it: the quotient, correctly
    rounded. *)
Definition int_true_div (a b : Z) : Q := round64 (inject_Z a / inject_Z b).

End PyVal.

(** ** The world around the module *)

(** A file system entry and its [st_size]. *)
Inductive node : Type :=
  | File (size : Z)
  | Dir (size : Z).

Definition node_size (n : node) : Z :=
  match n with File z | Dir z => z end.

(** What a running child does to the file system during one sleep of its
    supervisor: entries written ([Some]) or removed ([None]). *)
Definition fs_step : Type := list (string * option node).

(** The behaviour of one run of the oras client: its file system activity,
    one step per supervisor sleep while it runs, then its output and its
    exit code. *)
Record child : Type := {
  steps : list fs_step;
  child_stdout : string;
  child_stderr : string;
  child_exit : Z;
}.

(** What [subprocess.Popen] meets: the operating system refuses with the
    text of an [OSError], or the child starts. *)
Inductive spawn : Type :=
  | SpawnError (text : string)
  | Spawned (c : child).

(** The [target] argument of [pull_uenv]: only its [size] is read. *)
Record target : Type := { size : Z }.

(** Everything the module reads but does not decide. *)
Record env : Type := {
  (** [pathlib.Path(__file__).parent.parent.resolve()] *)
  oras_dir : string;
  (** [shutil.which("oras")] *)
  which_oras : option string;
  (** the external client, by command line *)
  oras : list string -> spawn;
  (** [terminal.is_tty()] *)
  is_tty : bool;
  (** [terminal.colorize(text, color)] *)
  colorize : string -> string -> string;
  (** the library call, counted from the start of the run, during which the
      user presses Ctrl-C, if ever *)
  interrupt_at : option nat;
  (** [str(e)] for an exception *)
  exc_text : exn -> string;
  (** [str(v)] for a decoded value that is not a string *)
  value_text : json -> string;
}.

(** What the run does that can be observed from outside, in order. *)
Inductive event : Type :=
  | EInfo (msg : string)
  | EError (msg : string)
  | EStdout (msg : string)
  | EProgressBar (p : Q) (width : Z) (msg : string)
  | EPopen (handle : nat) (command : list string)
  | ETerminate (handle : nat)
  | ERmtree (path : string)
  | ERemove (path : string)
  | ESleep (seconds : Q).

(** A [subprocess.Popen] object. *)
Record process : Type := {
  command : list string;
  pending : list fs_step;
  out_text : string;
  err_text : string;
  exit_code : Z;
  returncode : option Z;
}.

Record state : Type := {
  fs : gmap string node;
  procs : list process;
  trace : list event;
  clock : nat;
  (** the local variable [proc] of the function that is running *)
  proc : option nat;
}.

Definition init_state (fs0 : gmap string node) : state :=
  {| fs := fs0; procs := []; trace := []; clock := 0; proc := None |}.

Definition set_fs (f : gmap string node) (s : state) : state :=
  {| fs := f; procs := procs s; trace := trace s; clock := clock s;
     proc := proc s |}.
Definition set_procs (p : list process) (s : state) : state :=
  {| fs := fs s; procs := p; trace := trace s; clock := clock s;
     proc := proc s |}.
Definition log (e : event) (s : state) : state :=
  {| fs := fs s; procs := procs s; trace := trace s ++ [e]; clock := clock s;
     proc := proc s |}.
Definition tick (s : state) : state :=
  {| fs := fs s; procs := procs s; trace := trace s; clock := S (clock s);
     proc := proc s |}.
Definition bind_proc (h : option nat) (s : state) : state :=
  {| fs := fs s; procs := procs s; trace := trace s; clock := clock s;
     proc := h |}.

(** ** File system and process table *)

Definition apply_write (f : gmap string node) (w : string * option node)
  : gmap string node :=
  match w with
  | (p, Some n) => <[p := n]> f
  | (p, None) => delete p f
  end.

Definition apply_step (f : gmap string node) (st : fs_step)
  : gmap string node :=
  foldl apply_write f st.

(** One step of every child that still runs. *)
Fixpoint advance (ps : list process) (f : gmap string node)
  : list process * gmap string node :=
  match ps with
  | [] => ([], f)
  | p :: ps' =>
      match pending p with
      | [] => let '(ps'', f') := advance ps' f in (p :: ps'', f')
      | st :: rest =>
          let p' := {| command := command p; pending := rest;
                       out_text := out_text p; err_text := err_text p;
                       exit_code := exit_code p;
                       returncode := returncode p |} in
          let '(ps'', f') := advance ps' (apply_step f st) in
          (p' :: ps'', f')
      end
  end.

(** The child has run to its end and has been reaped. *)
Definition reaped (p : process) : process :=
  {| command := command p; pending := [];
     out_text := out_text p; err_text := err_text p;
     exit_code := exit_code p; returncode := Some (exit_code p) |}.

(** The child has been stopped by SIGTERM (signal 15).  The signal is taken
    to act at once; a real child may run on for a while, or handle the
    signal.  Nobody has waited for the child: its return code stays
    unset. *)
Definition killed (p : process) : process :=
  {| command := command p; pending := [];
     out_text := out_text p; err_text := err_text p;
     exit_code := -15; returncode := returncode p |}.

(** [path] itself and everything below it. *)
Definition under (path name : string) : bool :=
  String.eqb path name || String.prefix (path +:+ "/") name.

Definition remove_tree (path : string) (f : gmap string node)
  : gmap string node :=
  filter (fun kv => under path (fst kv) = false) f.

(** ** Computations: state, exceptions, interrupts *)

(** A computation returns, raises, or is [Stuck]: a handle that was never
    issued, or a loop out of fuel.  [pull_uenv] is shown below not to get
    stuck. *)
Inductive outcome (A : Type) : Type :=
  | Ret (a : A)
  | Raise (e : exn)
  | Stuck.
Arguments Ret {A} a.
Arguments Raise {A} e.
Arguments Stuck {A}.

Definition M (A : Type) : Type := state -> outcome A * state.

Definition ret {A} (a : A) : M A := fun s => (Ret a, s).
Definition raise {A} (e : exn) : M A := fun s => (Raise e, s).
Definition stuck {A} : M A := fun s => (Stuck, s).

Definition bind {A B} (m : M A) (k : A -> M B) : M B :=
  fun s =>
    match m s with
    | (Ret a, s') => k a s'
    | (Raise e, s') => (Raise e, s')
    | (Stuck, s') => (Stuck, s')
    end.

Declare Scope py_scope.
Delimit Scope py_scope with py.
Notation "x <- m ;; k" := (bind m (fun x => k))
  (at level 100, m at next level, right associativity) : py_scope.
Notation "m ;; k" := (bind m (fun _ => k))
  (at level 100, right associativity) : py_scope.
Local Open Scope py_scope.

(** A value or the exception its computation raised. *)
Definition lift {A} (r : exn + A) : M A :=
  match r with
  | inr a => ret a
  | inl e => raise e
  end.

(** [try: body / except KeyboardInterrupt: ... / except Exception as e: ...].
    An exception raised by a handler is not offered to the other one. *)
Definition try_except {A} (body : M A) (on_interrupt : M A)
    (on_exception : exn -> M A) : M A :=
  fun s =>
    match body s with
    | (Raise KeyboardInterrupt, s') => on_interrupt s'
    | (Raise e, s') =>
        if is_Exception e then on_exception e s' else (Raise e, s')
    | r => r
    end.

(** [try: body / except Exception as e: ...]. *)
Definition try_Exception {A} (body : M A) (on_exception : exn -> M A) : M A :=
  fun s =>
    match body s with
    | (Raise e, s') =>
        if is_Exception e then on_exception e s' else (Raise e, s')
    | r => r
    end.

(** The local variable [proc]: a fresh frame, an assignment, a read. *)
Definition frame {A} (m : M A) : M A := fun s => m (bind_proc None s).
Definition assign_proc (h : nat) : M unit :=
  fun s => (Ret tt, bind_proc (Some h) s).
Definition read_proc : M nat :=
  fun s =>
    match proc s with
    | Some h => (Ret h, s)
    | None => (Raise (UnboundLocalError "proc"), s)
    end.

Definition interrupted (at_call : option nat) (now : nat) : bool :=
  match at_call with
  | Some n => Nat.eqb n now
  | None => false
  end.

Section Oras.

Context (E : env).

(** A library call: the points at which Ctrl-C can reach the module.  The
    interrupted call has no effect.  Python can also raise
    [KeyboardInterrupt] between the effect of a call and the use of its
    result, as after [Popen] has started the child and before [proc] is
    assigned; such an interrupt is not among the runs of this model, and
    what is proved of interrupted runs is proved of interrupts that arrive
    at a call. *)
Definition call {A} (body : M A) : M A :=
  fun s =>
    if interrupted (interrupt_at E) (clock s)
    then (Raise KeyboardInterrupt, tick s)
    else body (tick s).

(** ** The modules [terminal] and [progress] *)

Definition terminal_info (msg : string) : M unit :=
  call (fun s => (Ret tt, log (EInfo msg) s)).

(** Modelled from the spec: [terminal.error], whose module is not among the
    sources.  Section 7 of the specification makes every reported error
    fatal to the pull call, with immediate abort: the message is written and
    the interpreter is asked to exit, which raises [SystemExit]. *)
Definition terminal_error {A} (msg : string) : M A :=
  call (fun s => (Raise (SystemExit 1), log (EError msg) s)).

Definition terminal_stdout (msg : string) : M unit :=
  call (fun s => (Ret tt, log (EStdout msg) s)).

Definition terminal_is_tty : M bool :=
  call (ret (is_tty E)).

(** Modelled from the spec: [progress.progress_bar], whose module is not
    among the sources, consumes a fraction and a label and produces one line
    of output. *)
Definition progress_bar (p : Q) (width : Z) (msg : string) : M unit :=
  call (fun s => (Ret tt, log (EProgressBar p width msg) s)).

(** ** The standard library *)

Definition path_join (dir name : string) : string :=
  if String.eqb dir "/" then "/" +:+ name else dir +:+ "/" +:+ name.

Definition path_is_file (path : string) : M bool :=
  call (fun s =>
    (Ret (match fs s !! path with Some (File _) => true | _ => false end), s)).

Definition os_path_exists (path : string) : M bool :=
  call (fun s =>
    (Ret (match fs s !! path with Some _ => true | None => false end), s)).

Definition os_path_getsize (path : string) : M Z :=
  call (fun s =>
    match fs s !! path with
    | Some n => (Ret (node_size n), s)
    | None => (Raise (FileNotFoundError path), s)
    end).

Definition shutil_which (name : string) : M (option string) :=
  call (ret (which_oras E)).

Definition shutil_rmtree (path : string) : M unit :=
  call (fun s =>
    match fs s !! path with
    | Some (Dir _) =>
        (Ret tt, log (ERmtree path) (set_fs (remove_tree path (fs s)) s))
    | Some (File _) => (Raise (NotADirectoryError path), s)
    | None => (Raise (FileNotFoundError path), s)
    end).

Definition os_remove (path : string) : M unit :=
  call (fun s =>
    match fs s !! path with
    | Some (File _) =>
        (Ret tt, log (ERemove path) (set_fs (delete path (fs s)) s))
    | Some (Dir _) => (Raise (IsADirectoryError path), s)
    | None => (Raise (FileNotFoundError path), s)
    end).

(** While the supervisor sleeps, the children run. *)
Definition time_sleep (seconds : Q) : M unit :=
  call (fun s =>
    let '(ps, f) := advance (procs s) (fs s) in
    (Ret tt, log (ESleep seconds) (set_fs f (set_procs ps s)))).

(** [subprocess.Popen(command, ...)]. *)
Definition popen (cmd : list string) : M nat :=
  call (fun s =>
    match oras E cmd with
    | SpawnError text => (Raise (OSError text), s)
    | Spawned c =>
        let h := length (procs s) in
        let p := {| command := cmd; pending := steps c;
                    out_text := child_stdout c; err_text := child_stderr c;
                    exit_code := child_exit c; returncode := None |} in
        (Ret h, log (EPopen h cmd) (set_procs (procs s ++ [p]) s))
    end).

(** [proc.communicate()]: wait for the child, collect its output. *)
Definition communicate (h : nat) : M (string * string) :=
  call (fun s =>
    match procs s !! h with
    | Some p =>
        (Ret (out_text p, err_text p),
         set_fs (foldl apply_step (fs s) (pending p))
           (set_procs (<[h := reaped p]> (procs s)) s))
    | None => (Stuck, s)
    end).

(** [proc.poll()]. *)
Definition poll (h : nat) : M (option Z) :=
  call (fun s =>
    match procs s !! h with
    | Some p =>
        match returncode p, pending p with
        | Some rc, _ => (Ret (Some rc), s)
        | None, [] =>
            (Ret (Some (exit_code p)),
             set_procs (<[h := reaped p]> (procs s)) s)
        | None, _ :: _ => (Ret None, s)
        end
    | None => (Stuck, s)
    end).

(** [proc.returncode]. *)
Definition get_returncode (h : nat) : M (option Z) :=
  fun s =>
    match procs s !! h with
    | Some p => (Ret (returncode p), s)
    | None => (Stuck, s)
    end.

(** [proc.terminate()]: polls first, and signals only a child that still
    runs.  It does not wait for the child, and neither do the handlers
    that call it. *)
Definition terminate (h : nat) : M unit :=
  call (fun s =>
    match procs s !! h with
    | Some p =>
        let p' :=
          match returncode p, pending p with
          | Some _, _ => p
          | None, [] => reaped p
          | None, _ :: _ => killed p
          end in
        (Ret tt, log (ETerminate h) (set_procs (<[h := p']> (procs s)) s))
    | None => (Stuck, s)
    end).

(** ** [lib/oras.py] *)

Definition nl : string := String (ascii_of_N 10) "".

(** [find_oras]: the client next to the library, else the one on the search
    path.  [terminal.error] does not return, so the lines after it are
    reached with a path only. *)
Definition find_oras : M string :=
  let oras_file := path_join (oras_dir E) "uenv-oras" in
  terminal_info ("searching for oras executable: " +:+ oras_file);;
  found <- path_is_file oras_file;;
  if found then
    terminal_info ("using " +:+ oras_file);;
    ret oras_file
  else
    terminal_info (oras_file +:+ " does not exist - searching for oras");;
    oras_file <- shutil_which "oras";;
    match oras_file with
    | None | Some EmptyString => terminal_error "no oras executable found"
    | Some path =>
        terminal_info ("using " +:+ path);;
        ret path
    end.

Definition run_command_internal (args : list string) : M nat :=
  try_Exception
    (oras_file <- find_oras;;
     let command := [oras_file] ++ args in
     terminal_info ("calling oras: " +:+ PyStr.join " " command);;
     popen command)
    (fun e =>
       terminal_error ("an unknown error occured with the oras client: "
                       +:+ exc_text E e)).

Definition permission_signature : string :=
  "client does not have permission for manifest".

Definition permission_hint : string :=
  colorize E "Hint" "yellow" +:+
  " check that you have permissions to pull from the target JFrog registry, or contact CSCS Service Desk with the full command and output (preferrably also with the --verbose flag).".

Definition error_message_from_stderr (stderr : string) : string :=
  if PyStr.contains permission_signature stderr then permission_hint else "".

(** [proc.returncode == 0]. *)
Definition is_zero (rc : option Z) : bool :=
  match rc with
  | Some 0 => true
  | _ => false
  end.

Definition run_command (args : list string) : M unit :=
  frame (try_except
    (h <- run_command_internal args;;
     assign_proc h;;
     r <- communicate h;;
     let '(stdout, stderr) := r in
     rc <- get_returncode h;;
     if is_zero rc then
       terminal_info ("oras command successful: " +:+ stdout)
     else
       let msg := error_message_from_stderr stderr in
       terminal_error ("oras command failed: " +:+ stderr +:+ nl +:+ msg))
    (h <- read_proc;;
     terminate h;;
     terminal_error "oras command cancelled by user.")
    (fun e =>
       h <- read_proc;;
       terminate h;;
       terminal_error ("oras command failed with unknown exception: "
                       +:+ exc_text E e))).

(** [f"{v}"] for a decoded value. *)
Definition format_value (v : json) : string :=
  match v with
  | JStr s => s
  | _ => value_text E v
  end.

(** [a / b] on floats. *)
Definition float_div (a b : Q) : exn + Q :=
  if Qeq_bool b 0 then inl ZeroDivisionError else inr (a / b)%Q.

Definition mb (bytes : Z) : Q := (inject_Z bytes / inject_Z (1024 * 1024))%Q.

Definition mb_label (current_mb total_mb : Q) : string :=
  pretty (PyVal.int_of_float current_mb) +:+ "/" +:+
  pretty (PyVal.int_of_float total_mb) +:+ " MB".

(** Lines 78 to 102 of [pull_uenv]: the meta data. *)
Definition pull_meta_step (source_address tag image_path : string) : M unit :=
  stale <- os_path_exists (image_path +:+ "/meta");;
  (if stale then
     shutil_rmtree (image_path +:+ "/meta");;
     time_sleep (1 # 20)
   else ret tt);;
  terminal_info "discovering meta data";;
  h <- run_command_internal
         ["discover"; "-o"; "json"; "--artifact-type"; "uenv/meta";
          source_address +:+ ":" +:+ tag];;
  assign_proc h;;
  r <- communicate h;;
  let '(stdout, stderr) := r in
  rc <- get_returncode h;;
  (if is_zero rc then
     terminal_info ("successfully downloaded meta data info: " +:+ stdout)
   else
     let msg := error_message_from_stderr stderr in
     terminal_error ("failed to find meta data: " +:+ stderr +:+ nl +:+ msg));;
  doc <- lift (PyVal.json_loads stdout);;
  manifests <- lift (PyVal.getitem_str doc "manifests");;
  n <- lift (PyVal.len manifests);;
  (if Nat.eqb n 0 then terminal_error "no meta data is available"
   else ret tt);;
  first <- lift (PyVal.getitem_0 manifests);;
  digest <- lift (PyVal.getitem_str first "digest");;
  terminal_info ("meta data digest: " +:+ format_value digest);;
  h <- run_command_internal
         ["pull"; "-o"; image_path;
          source_address +:+ "@" +:+ format_value digest];;
  assign_proc h;;
  _ <- communicate h;;
  ret tt.

(** An upper bound on the polls the loop below can need: the child leaves
    one step behind at every sleep. *)
Definition loop_bound (h : nat) : M nat :=
  fun s =>
    match procs s !! h with
    | Some p => (Ret (S (length (pending p))), s)
    | None => (Stuck, s)
    end.

(** Lines 118 to 123: the body of the loop after its sleep. *)
Definition draw_progress (sqfs_path : string) (total_mb : Q) : M unit :=
  there <- os_path_exists sqfs_path;;
  draw <- (if there then terminal_is_tty else ret false);;
  if draw then
    current_size <- os_path_getsize sqfs_path;;
    let current_mb := mb current_size in
    p <- lift (float_div current_mb total_mb);;
    let msg := mb_label current_mb total_mb in
    progress_bar p 50 msg
  else ret tt.

(** Lines 116 to 123: [while proc.poll() is None: ...]. *)
Fixpoint monitor (fuel : nat) (h : nat) (sqfs_path : string) (total_mb : Q)
  : M unit :=
  match fuel with
  | O => stuck
  | S fuel' =>
      rc <- poll h;;
      match rc with
      | Some _ => ret tt
      | None =>
          time_sleep (1 # 4);;
          draw_progress sqfs_path total_mb;;
          monitor fuel' h sqfs_path total_mb
      end
  end.

(** Lines 104 to 132 of [pull_uenv]: the squashfs image. *)
Definition pull_sqfs_step (source_address tag image_path : string)
    (tgt : target) : M unit :=
  let sqfs_path := image_path +:+ "/store.squashfs" in
  stale <- os_path_exists sqfs_path;;
  (if stale then
     os_remove sqfs_path;;
     time_sleep (1 # 20)
   else ret tt);;
  h <- run_command_internal
         ["pull"; "-o"; image_path; source_address +:+ ":" +:+ tag];;
  assign_proc h;;
  let total_mb := mb (size tgt) in
  fuel <- loop_bound h;;
  monitor fuel h sqfs_path total_mb;;
  r <- communicate h;;
  let '(stdout, stderr) := r in
  rc <- get_returncode h;;
  if is_zero rc then
    progress_bar 1 50 (mb_label total_mb total_mb);;
    terminal_stdout "";;
    terminal_info ("oras command successful: " +:+ stdout)
  else
    let msg := error_message_from_stderr stderr in
    terminal_error ("image pull failed: " +:+ stderr +:+ nl +:+ msg).

Definition pull_uenv (source_address image_path : string) (tgt : target)
    (pull_meta pull_sqfs : bool) : M unit :=
  frame (try_except
    (let terms := PyStr.rsplit1 ":" source_address in
     source_address <- lift (PyVal.list_item terms 0);;
     tag <- lift (PyVal.list_item terms 1);;
     (if pull_meta then pull_meta_step source_address tag image_path
      else ret tt);;
     (if pull_sqfs then pull_sqfs_step source_address tag image_path tgt
      else ret tt))
    (h <- read_proc;;
     terminate h;;
     terminal_stdout "";;
     terminal_error "image pull cancelled by user.")
    (fun e =>
       h <- read_proc;;
       terminate h;;
       terminal_stdout "";;
       terminal_error ("image pull failed with unknown exception: "
                       +:+ exc_text E e))).

End Oras.

(** How a run unfolds when it is applied to a state. *)
Arguments bind {A B} m k s /.
Arguments ret {A} a s /.
Arguments raise {A} e s /.
Arguments stuck {A} s /.
Arguments lift {A} r s /.
Arguments try_except {A} body on_interrupt on_exception s /.
Arguments try_Exception {A} body on_exception s /.
Arguments frame {A} m s /.
Arguments assign_proc h s /.
Arguments read_proc s /.
Arguments call E {A} body s /.
Arguments terminal_info E msg s /.
Arguments terminal_error E {A} msg s /.
Arguments terminal_stdout E msg s /.
Arguments terminal_is_tty E s /.
Arguments progress_bar E p width msg s /.
Arguments path_is_file E path s /.
Arguments os_path_exists E path s /.
Arguments os_path_getsize E path s /.
Arguments shutil_which E name s /.
Arguments shutil_rmtree E path s /.
Arguments os_remove E path s /.
Arguments time_sleep E seconds s /.
Arguments popen E cmd s /.
Arguments communicate E h s /.
Arguments poll E h s /.
Arguments get_returncode h s /.
Arguments terminate E h s /.
Arguments loop_bound h s /.
Arguments log e s /.
Arguments tick s /.
Arguments set_fs f s /.
Arguments set_procs p s /.
Arguments bind_proc h s /.
Arguments find_oras : simpl never.
Arguments run_command_internal : simpl never.
Arguments error_message_from_stderr : simpl never.
Arguments draw_progress : simpl never.
Arguments monitor : simpl never.
Arguments pull_meta_step : simpl never.
Arguments pull_sqfs_step : simpl never.
Arguments mb : simpl never.
Arguments mb_label : simpl never.

(** ** What a trace shows *)

Definition is_info (e : event) : bool :=
  match e with
  | EInfo _ => true
  | _ => false
  end.

(** The command lines of the children that were started. *)
Definition launched (t : list event) : list (list string) :=
  omap (fun e => match e with EPopen _ c => Some c | _ => None end) t.

(** The messages given to [terminal.error]. *)
Definition reported (t : list event) : list string :=
  omap (fun e => match e with EError m => Some m | _ => None end) t.

(** The lines drawn by [progress.progress_bar]. *)
Definition progress_lines (t : list event) : list (Q * Z * string) :=
  omap (fun e =>
          match e with
          | EProgressBar p w m => Some (p, w, m)
          | _ => None
          end) t.

Arguments launched : simpl never.
Arguments reported : simpl never.
Arguments progress_lines : simpl never.

(** The arguments of the two kinds of call to the client. *)
Definition discover_args (source_address tag : string) : list string :=
  ["discover"; "-o"; "json"; "--artifact-type"; "uenv/meta";
   source_address +:+ ":" +:+ tag].

Definition pull_args (image_path ref : string) : list string :=
  ["pull"; "-o"; image_path; ref].

(** The client [find_oras] settles on: the one next to the library if it is
    a file, else the one on the search path, if any. *)
Definition located (E : env) (f : gmap string node) : option string :=
  match f !! path_join (oras_dir E) "uenv-oras" with
  | Some (File _) => Some (path_join (oras_dir E) "uenv-oras")
  | _ =>
      match which_oras E with
      | Some (String a p) => Some (String a p)
      | _ => None
      end
  end.

(** The two ways a launch fails, with the message that reports each: no
    client can be located, or the operating system refuses to start the
    one that was. *)
Inductive launch_fails (E : env) (f : gmap string node) (args : list string)
  : string -> Prop :=
  | client_missing :
      located E f = None ->
      launch_fails E f args "no oras executable found"
  | spawn_refused q text :
      located E f = Some q ->
      oras E (q :: args) = SpawnError text ->
      launch_fails E f args
        ("an unknown error occured with the oras client: "
         +:+ exc_text E (OSError text)).

(** The file system after the cleanup of lines 79 to 81, and after that of
    lines 106 to 108. *)
Definition cleaned_meta (image_path : string) (f : gmap string node)
  : gmap string node :=
  match f !! (image_path +:+ "/meta") with
  | Some (Dir _) => remove_tree (image_path +:+ "/meta") f
  | _ => f
  end.

Definition cleaned_sqfs (image_path : string) (f : gmap string node)
  : gmap string node :=
  match f !! (image_path +:+ "/store.squashfs") with
  | Some (File _) => delete (image_path +:+ "/store.squashfs") f
  | _ => f
  end.

(** The [Popen] object of a child that has just been started. *)
Definition started (cmd : list string) (c : child) : process :=
  {| command := cmd; pending := steps c;
     out_text := child_stdout c; err_text := child_stderr c;
     exit_code := child_exit c; returncode := None |}.

(** ** Relations between the start and the end of a run *)

(** [grows R m]: whatever [m] does, whether it returns, raises or is
    interrupted, its final state is related to its initial one by [R]. *)
Definition grows (R : state -> state -> Prop) {A} (m : M A) : Prop :=
  forall s, R s (snd (m s)).

Definition draws (e : event) : bool :=
  match e with
  | EProgressBar _ _ _ => true
  | _ => false
  end.

(** A run only adds to the trace. *)
Definition extends (s s' : state) : Prop :=
  exists evs, trace s' = trace s ++ evs.

(** A run draws nothing. *)
Definition draws_nothing (s s' : state) : Prop :=
  progress_lines (trace s') = progress_lines (trace s).

(** A run draws nothing but, possibly, the final bar for [total]. *)
Definition draws_at_most_final (total : Q) (s s' : state) : Prop :=
  progress_lines (trace s') = progress_lines (trace s) \/
  progress_lines (trace s') =
    progress_lines (trace s) ++ [(1%Q, 50, mb_label total total)].

(** ** What the loop of lines 116 to 123 writes *)

(** A process that has no step left to run. *)
Definition idle (p : process) : Prop := pending p = [].

(** The process after one more of its steps. *)
Definition popped (p : process) : process :=
  {| command := command p; pending := tail (pending p);
     out_text := out_text p; err_text := err_text p;
     exit_code := exit_code p; returncode := returncode p |}.

(** One tick on the file system [f] the sleep has left: the sleep, and a
    bar if the watched file is there and the output is a terminal. *)
Definition tick_events (E : env) (path : string) (total : Q)
    (f : gmap string node) : list event :=
  ESleep (1 # 4) ::
  match f !! path with
  | Some n =>
      if is_tty E
      then [EProgressBar (mb (node_size n) / total) 50
              (mb_label (mb (node_size n)) total)]
      else []
  | None => []
  end.

(** The ticks of a whole run of the child, step after step. *)
Fixpoint loop_events (E : env) (path : string) (total : Q)
    (f : gmap string node) (steps : list fs_step) : list event :=
  match steps with
  | [] => []
  | st :: rest =>
      tick_events E path total (apply_step f st) ++
      loop_events E path total (apply_step f st) rest
  end.

(** ** What keeps a run from getting stuck *)

(** The process table only grows, and no child gets more steps to run. *)
Definition shrinks (ps ps' : list process) : Prop :=
  (length ps <= length ps')%nat /\
  forall h p, ps !! h = Some p ->
    exists p', ps' !! h = Some p' /\
               (length (pending p') <= length (pending p))%nat.

(** The local variable [proc], when bound, holds a handle of the table. *)
Definition valid (s : state) : Prop :=
  forall h, proc s = Some h -> (h < length (procs s))%nat.

(** A property of the process table that no later step can undo. *)
Definition stable (P : list process -> Prop) : Prop :=
  forall ps ps', P ps -> shrinks ps ps' -> P ps'.

(** [h] is a handle of the table. *)
Definition alive (h : nat) (ps : list process) : Prop :=
  (h < length ps)%nat.

(** The child of handle [h] has fewer than [n] steps left. *)
Definition bounded (h n : nat) (ps : list process) : Prop :=
  exists p, ps !! h = Some p /\ (length (pending p) < n)%nat.

(** [sound P m Q]: from a table that satisfies [P], [m] does not get
    stuck; it leaves [proc] valid and the table grown, with [Q] when it
    returns. *)
Definition sound {A} (P : list process -> Prop) (m : M A)
    (Q : A -> list process -> Prop) : Prop :=
  forall s, valid s -> P (procs s) ->
    match m s with
    | (Ret a, s') => valid s' /\ shrinks (procs s) (procs s') /\ Q a (procs s')
    | (Raise _, s') => valid s' /\ shrinks (procs s) (procs s')
    | (Stuck, _) => False
    end.

(** ** How a call ends *)

(** The way a computation has ended, its result left out. *)
Inductive ending : Type :=
  | Returned
  | Raised (e : exn)
  | GotStuck.

Definition ending_of {A} (o : outcome A) : ending :=
  match o with
  | Ret _ => Returned
  | Raise e => Raised e
  | Stuck => GotStuck
  end.

(** [ensures Q m]: whatever [m] does, [Q] relates the state in which it
    starts, the way it ends and the state it leaves. *)
Definition ensures {A} (Q : state -> ending -> state -> Prop) (m : M A)
  : Prop :=
  forall s, Q s (ending_of (fst (m s))) (snd (m s)).


(** Errors and exits go together: a run that ends in [SystemExit] has code
    1 and has reported one error, as the last thing it did; any other run
    has reported none. *)
Definition errors_match (o : ending) (evs : list event) : Prop :=
  match o with
  | Raised (SystemExit c) =>
      c = 1 /\
      exists evs' msg, evs = evs' ++ [EError msg] /\ reported evs' = []
  | _ => reported evs = []
  end.

(** Ctrl-C and the clock: a run from call [k] to call [k'] ends in
    [KeyboardInterrupt] only if the interrupt fell in between, and
    otherwise has not reached the call of the interrupt. *)
Definition interrupt_match (E : env) (o : ending) (k k' : nat) : Prop :=
  match o with
  | Raised KeyboardInterrupt =>
      exists n, interrupt_at E = Some n /\ (k <= n < k')%nat
  | _ => forall n, interrupt_at E = Some n -> (k <= n)%nat -> (k' <= n)%nat
  end.

(** What every part of a [try] body keeps: the trace grows by events that
    [okev] admits, errors and exits go together, [proc] stays bound once it
    is, no child is launched while it is not, and the clock and the
    interrupt agree. *)
Definition tidy (E : env) (okev : event -> Prop) (s : state) (o : ending)
    (s' : state) : Prop :=
  (exists evs,
     trace s' = trace s ++ evs /\ Forall okev evs /\ errors_match o evs /\
     (proc s' = None -> launched evs = []))
  /\ (proc s <> None -> proc s' <> None)
  /\ (clock s <= clock s')%nat
  /\ interrupt_match E o (clock s) (clock s').

(** The effects a pull of [base:tag] into [image_path] can have: the three
    command lines, the two removals, the two pauses, a bar of width 50, an
    empty line, messages and the termination of a child. *)
Definition expected (base tag image_path : string)
    (pull_meta pull_sqfs : bool) (e : event) : Prop :=
  match e with
  | EPopen _ cmd =>
      exists q,
        (pull_meta = true /\ cmd = q :: discover_args base tag) \/
        (pull_meta = true /\
         exists digest,
           cmd = q :: pull_args image_path (base +:+ "@" +:+ digest)) \/
        (pull_sqfs = true /\
         cmd = q :: pull_args image_path (base +:+ ":" +:+ tag))
  | ERmtree path => pull_meta = true /\ path = image_path +:+ "/meta"
  | ERemove path =>
      pull_sqfs = true /\ path = image_path +:+ "/store.squashfs"
  | ESleep d => d = (1 # 20)%Q \/ (pull_sqfs = true /\ d = (1 # 4)%Q)
  | EProgressBar _ width _ => pull_sqfs = true /\ width = 50
  | EStdout msg => msg = ""
  | ETerminate _ | EInfo _ | EError _ => True
  end.

(** The same for an address, whatever its two parts are. *)
Definition expected_of (addr image_path : string)
    (pull_meta pull_sqfs : bool) (e : event) : Prop :=
  forall base tag,
    PyStr.rsplit1 ":" addr = [base; tag] ->
    expected base tag image_path pull_meta pull_sqfs e.


(** An event that is no launch. *)
Definition quiet_event (e : event) : Prop :=
  match e with
  | EPopen _ _ => False
  | _ => True
  end.

(** [launches_at_most n m]: whatever [m] does, it starts at most [n]
    children. *)
Definition launches_at_most {A} (n : nat) (m : M A) : Prop :=
  forall s,
    exists evs,
      trace (snd (m s)) = trace s ++ evs /\ (length (launched evs) <= n)%nat.

(** ** The parts of [pull_uenv] and of [run_command] *)

(** Lines 74 to 132: the body of the [try] of [pull_uenv]. *)
Definition attempt (E : env) (source_address image_path : string)
    (tgt : target) (pull_meta pull_sqfs : bool) : M unit :=
  let terms := PyStr.rsplit1 ":" source_address in
  source_address <- lift (PyVal.list_item terms 0);;
  tag <- lift (PyVal.list_item terms 1);;
  (if pull_meta then pull_meta_step E source_address tag image_path
   else ret tt);;
  (if pull_sqfs then pull_sqfs_step E source_address tag image_path tgt
   else ret tt).

(** Lines 56 to 62: the body of the [try] of [run_command]. *)
Definition command_attempt (E : env) (args : list string) : M unit :=
  h <- run_command_internal E args;;
  assign_proc h;;
  r <- communicate E h;;
  let '(stdout, stderr) := r in
  rc <- get_returncode h;;
  if is_zero rc then
    terminal_info E ("oras command successful: " +:+ stdout)
  else
    let msg := error_message_from_stderr E stderr in
    terminal_error E ("oras command failed: " +:+ stderr +:+ nl +:+ msg).

(** The four handlers, lines 63 to 68 and 134 to 141: [proc.terminate()],
    in [pull_uenv] an empty line, then the report. *)
Definition bail_out (E : env) (line_feed : bool) (msg : string) : M unit :=
  h <- read_proc;;
  terminate E h;;
  (if line_feed then terminal_stdout E "" else ret tt);;
  terminal_error E msg.

(** What a handler writes after it has terminated the child. *)
Definition farewell (line_feed : bool) (msg : string) : list event :=
  (if line_feed then [EStdout ""] else []) ++ [EError msg].

(** How a call of [pull_uenv] or of [run_command] ends and what it has
    done by then: it returns, exits with code 1, fails on the unbound
    [proc] or lets the interrupt through; errors and exits go together; on
    the unbound [proc] no child was launched; and an interrupt that was
    delivered during the call ends it in a cancellation, [goodbye] after
    the termination of the child, unless it ends in one of the two
    exceptions. *)
Definition settled (E : env) (okev : event -> Prop) (goodbye : list event)
    (s : state) (o : ending) (s' : state) : Prop :=
  (o = Returned \/ o = Raised (SystemExit 1) \/
   o = Raised (UnboundLocalError "proc") \/ o = Raised KeyboardInterrupt)
  /\ exists evs,
       trace s' = trace s ++ evs /\ Forall okev evs /\ errors_match o evs /\
       (o = Raised (UnboundLocalError "proc") -> launched evs = [])
       /\ (o = Raised KeyboardInterrupt ->
           exists n, interrupt_at E = Some n /\ (clock s <= n < clock s')%nat)
       /\ forall n,
            interrupt_at E = Some n -> (clock s <= n < clock s')%nat ->
            o = Raised (UnboundLocalError "proc") \/
            o = Raised KeyboardInterrupt \/
            (o = Raised (SystemExit 1) /\
             exists evs' h,
               evs = evs' ++ ETerminate h :: goodbye /\ reported evs' = []).

(** ** The answer of the discovery, the cleanup and the verdict *)

(** Lines 94 to 98 as a function of the standard output of the discovery:
    the digest of the first manifest, [None] for an empty list, or the
    exception that the decoding raises. *)
Definition first_digest (stdout : string) : exn + option json :=
  match PyVal.json_loads stdout with
  | inl e => inl e
  | inr doc =>
      match PyVal.getitem_str doc "manifests" with
      | inl e => inl e
      | inr manifests =>
          match PyVal.len manifests with
          | inl e => inl e
          | inr O => inr None
          | inr (S _) =>
              match PyVal.getitem_0 manifests with
              | inl e => inl e
              | inr first =>
                  match PyVal.getitem_str first "digest" with
                  | inl e => inl e
                  | inr digest => inr (Some digest)
                  end
              end
          end
      end
  end.

(** What lines 106 to 108 do on the file system [f]. *)
Definition sqfs_cleanup (image_path : string) (f : gmap string node)
  : list event :=
  match f !! (image_path +:+ "/store.squashfs") with
  | Some (File _) =>
      [ERemove (image_path +:+ "/store.squashfs"); ESleep (1 # 20)]
  | _ => []
  end.

(** What lines 125 to 132 write once the child [c] has exited. *)
Definition verdict (E : env) (tgt : target) (c : child) : list event :=
  if child_exit c =? 0
  then [EProgressBar 1 50 (mb_label (mb (size tgt)) (mb (size tgt)));
        EStdout "";
        EInfo ("oras command successful: " +:+ child_stdout c)]
  else [EError ("image pull failed: " +:+ child_stderr c +:+ nl +:+
                error_message_from_stderr E (child_stderr c))].

(** ** A sample installation *)

Module Sample.

Definition MiB : Z := 1024 * 1024.

Definition image_path : string := "/scratch/images/cp2k".
Definition sqfs_path : string := "/scratch/images/cp2k/store.squashfs".

(** A text in which every apostrophe stands for a double quote. *)
Fixpoint quoted (s : string) : string :=
  match s with
  | EmptyString => EmptyString
  | String a s' =>
      String (if (N_of_ascii a =? 39)%N then ascii_of_N 34 else a) (quoted s')
  end.

Definition two_manifests : string :=
  quoted "{'manifests':[{'digest':'sha256:abc'},{'digest':'sha256:def'}]}".

Definition two_manifests_swapped : string :=
  quoted "{'manifests':[{'digest':'sha256:def'},{'digest':'sha256:abc'}]}".

Definition no_manifests : string := quoted "{'manifests':[]}".

Definition quiet (out err : string) (code : Z) : child :=
  {| steps := []; child_stdout := out; child_stderr := err;
     child_exit := code |}.

(** An image of 100 MiB that arrives in four steps of 25 MiB. *)
Definition download (code : Z) (err : string) : child :=
  {| steps := [ [(sqfs_path, Some (File (25 * MiB)))];
                [(sqfs_path, Some (File (50 * MiB)))];
                [(sqfs_path, Some (File (75 * MiB)))];
                [(sqfs_path, Some (File (100 * MiB)))] ];
     child_stdout := "Pulled"; child_stderr := err; child_exit := code |}.

(** A client that answers [discover] with [discovery], a pull by digest
    with [meta] and a pull by tag with [image]. *)
Definition client (discovery meta image : child) (cmd : list string)
  : spawn :=
  match cmd with
  | [_; "discover"; _; _; _; _; _] => Spawned discovery
  | [_; "pull"; _; _; ref] =>
      if PyStr.has_char "@" ref then Spawned meta else Spawned image
  | _ => SpawnError "[Errno 8] Exec format error"
  end.

Definition installation (run : list string -> spawn) (tty : bool)
    (ctrl_c : option nat) : env :=
  {| oras_dir := "/opt/uenv/libexec";
     which_oras := Some "/usr/bin/oras";
     oras := run;
     is_tty := tty;
     colorize := fun text _ => text;
     interrupt_at := ctrl_c;
     exc_text := fun _ => "<exception>";
     value_text := fun _ => "<value>" |}.

Definition image : target := {| size := 100 * MiB |}.

Definition base : string :=
  "jfrog.svc.cscs.ch/uenv/deploy/eiger/zen2/cp2k/2023".
Definition tag : string := "v1".
Definition address : string := base +:+ ":" +:+ tag.

Definition denied : string :=
  "Error: client does not have permission for manifest: denied".

(** The registry answers with two manifests; both pulls succeed. *)
Definition healthy : list string -> spawn :=
  client (quiet two_manifests "" 0) (quiet "Pulled" "" 0) (download 0 "").

(** The registry has no meta data for the image. *)
Definition bare : list string -> spawn :=
  client (quiet no_manifests "" 0) (quiet "Pulled" "" 0) (download 0 "").

(** The pull of the meta data is refused by the registry. *)
Definition meta_denied : list string -> spawn :=
  client (quiet two_manifests "" 0) (quiet "" denied 1) (download 0 "").

(** The pull of the image is refused by the registry, half way. *)
Definition image_denied : list string -> spawn :=
  client (quiet two_manifests "" 0) (quiet "Pulled" "" 0) (download 1 denied).

(** The operating system has no process left for a new child. *)
Definition out_of_processes : string :=
  "[Errno 11] Resource temporarily unavailable".

(** The discovery answers with two manifests; the pull by digest cannot be
    started if [meta] is set, the pull by tag if [image] is set. *)
Definition refusing (meta image : bool) (cmd : list string) : spawn :=
  match cmd with
  | [_; "discover"; _; _; _; _; _] => Spawned (quiet two_manifests "" 0)
  | [_; "pull"; _; _; ref] =>
      if PyStr.has_char "@" ref
      then (if meta then SpawnError out_of_processes
            else Spawned (quiet "Pulled" "" 0))
      else (if image then SpawnError out_of_processes
            else Spawned (download 0 ""))
  | _ => SpawnError "[Errno 8] Exec format error"
  end.

(** No client is installed. *)
Definition nothing_installed : env :=
  {| oras_dir := "/opt/uenv/libexec";
     which_oras := None;
     oras := healthy;
     is_tty := true;
     colorize := fun text _ => text;
     interrupt_at := None;
     exc_text := fun _ => "<exception>";
     value_text := fun _ => "<value>" |}.

End Sample.

(** * Properties *)

(** ** Splitting and searching text *)

Section Text.

Lemma app_cons a s t : String a s +:+ t = String a (s +:+ t).
Proof. reflexivity. Qed.

Lemma app_empty t : "" +:+ t = t.
Proof. reflexivity. Qed.

Lemma rfind_split_none sep s :
  PyStr.has_char sep s = false -> PyStr.rfind_split sep s = None.
Proof.
  induction s as [|a s IH]; simpl; [reflexivity|].
  intros H. apply orb_false_iff in H as [Ha Hs].
  rewrite (IH Hs), Ha. reflexivity.
Qed.

Lemma rfind_split_some sep s :
  PyStr.has_char sep s = true ->
  exists b t, PyStr.rfind_split sep s = Some (b, t).
Proof.
  induction s as [|a s IH]; simpl; [discriminate|].
  intros H. destruct (PyStr.has_char sep s) eqn:Hs.
  - destruct (IH eq_refl) as (b & t & ->). eauto.
  - rewrite (rfind_split_none _ _ Hs).
    rewrite orb_false_r in H. rewrite H. eauto.
Qed.

Lemma rfind_split_last sep base tag :
  PyStr.has_char sep tag = false ->
  PyStr.rfind_split sep (base +:+ String sep tag) = Some (base, tag).
Proof.
  intros Htag. induction base as [|a base IH].
  - rewrite app_empty. simpl.
    rewrite (rfind_split_none _ _ Htag), Ascii.eqb_refl. reflexivity.
  - rewrite app_cons. simpl. rewrite IH. reflexivity.
Qed.

Lemma prefix_app pat s :
  String.prefix pat s = true <-> exists t, s = pat +:+ t.
Proof.
  revert s. induction pat as [|a pat IH]; intros s.
  - split; [intros _; exists s; reflexivity | destruct s; reflexivity].
  - destruct s as [|b s].
    + split; [discriminate | intros (t & Ht); discriminate].
    + simpl. destruct (ascii_dec a b) as [->|Hne].
      * rewrite IH. split; intros (t & Ht); exists t;
          rewrite app_cons in *; congruence.
      * split; [discriminate |].
        intros (t & Ht). rewrite app_cons in Ht. congruence.
Qed.

(** [PyStr.contains] is the substring test. *)
Lemma contains_app pat s :
  PyStr.contains pat s = true <-> exists u t, s = u +:+ pat +:+ t.
Proof.
  induction s as [|a s IH].
  - cbn [PyStr.contains]. rewrite orb_false_r, prefix_app. split.
    + intros (t & Ht). exists "", t. exact Ht.
    + intros (u & t & Ht). destruct u; [eauto | discriminate].
  - cbn [PyStr.contains]. rewrite orb_true_iff, IH, prefix_app. split.
    + intros [(t & Ht) | (u & t & Ht)].
      * exists "", t. exact Ht.
      * exists (String a u), t. rewrite app_cons. congruence.
    + intros (u & t & Ht). destruct u as [|b u].
      * left. exists t. exact Ht.
      * right. exists u, t. rewrite app_cons in Ht. congruence.
Qed.

End Text.

(** ** Running the model *)

(** The fields of a state and of an environment, spelled out, so that a run
    computes. *)
Ltac open_env E :=
  let odir := fresh "odir" in
  let which := fresh "which" in
  let client := fresh "client" in
  let tty := fresh "tty" in
  let col := fresh "col" in
  let intr := fresh "intr" in
  let etext := fresh "etext" in
  let vtext := fresh "vtext" in
  destruct E as [odir which client tty col intr etext vtext];
  simpl in *; subst.

Ltac run := cbn; rewrite <- ?app_assoc.

Ltac open_state s :=
  let f := fresh "f" in
  let ps := fresh "ps" in
  let t := fresh "t" in
  let c := fresh "c" in
  let pr := fresh "pr" in
  destruct s as [f ps t c pr].

Section Frame.

Context (E : env).

(** With a tag in the address, the body of [pull_uenv] runs on the two
    parts of the split. *)
Lemma pull_uenv_split addr base tag image_path tgt pull_meta pull_sqfs s :
  PyStr.rfind_split ":" addr = Some (base, tag) ->
  pull_uenv E addr image_path tgt pull_meta pull_sqfs s =
  frame (try_except
    ((if pull_meta then pull_meta_step E base tag image_path else ret tt);;
     (if pull_sqfs then pull_sqfs_step E base tag image_path tgt
      else ret tt))
    (h <- read_proc;;
     terminate E h;;
     terminal_stdout E "";;
     terminal_error E "image pull cancelled by user.")
    (fun e =>
       h <- read_proc;;
       terminate E h;;
       terminal_stdout E "";;
       terminal_error E ("image pull failed with unknown exception: "
                         +:+ exc_text E e))) s.
Proof.
  intros Hsplit. unfold pull_uenv, PyStr.rsplit1. rewrite Hsplit.
  reflexivity.
Qed.

(** A [try] whose body starts with a step that returns goes on with the
    rest of the body. *)
Lemma try_except_bind_ret {A B} (m : M A) (k : A -> M B) h1 h2 s a s1 :
  m s = (Ret a, s1) ->
  try_except (bind m k) h1 h2 s = try_except (k a) h1 h2 s1.
Proof. intros H. unfold try_except, bind. rewrite H. reflexivity. Qed.

(** [SystemExit] is caught by neither handler of [pull_uenv]. *)
Lemma pull_uenv_meta_exits addr base tag image_path tgt pull_sqfs s c s1 :
  PyStr.rfind_split ":" addr = Some (base, tag) ->
  pull_meta_step E base tag image_path (bind_proc None s)
    = (Raise (SystemExit c), s1) ->
  pull_uenv E addr image_path tgt true pull_sqfs s
    = (Raise (SystemExit c), s1).
Proof.
  intros Hsplit Hmeta. rewrite (pull_uenv_split _ _ _ _ _ _ _ _ Hsplit).
  unfold frame, try_except, bind. rewrite Hmeta. reflexivity.
Qed.

Lemma rfind_split_tagged base tag :
  PyStr.has_char ":" tag = false ->
  PyStr.rfind_split ":" (base +:+ ":" +:+ tag) = Some (base, tag).
Proof.
  intros Htag. change (":" +:+ tag) with (String ":" tag).
  apply rfind_split_last, Htag.
Qed.

(** C8. An address [base:tag] splits at its last colon into exactly [base]
    and [tag], also when [base] has colons of its own, and on such an
    address [pull_uenv] is the guarded run of its two steps on that [base]
    and that [tag]; an address without a colon makes [pull_uenv] raise
    before it has launched, removed or printed anything. *)
Theorem address_split_or_rejected base tag addr image_path tgt
    pull_meta pull_sqfs s :
  PyStr.has_char ":" tag = false ->
  PyStr.has_char ":" addr = false ->
  PyStr.rsplit1 ":" (base +:+ ":" +:+ tag) = [base; tag] /\
  pull_uenv E (base +:+ ":" +:+ tag) image_path tgt pull_meta pull_sqfs s =
    frame (try_except
      ((if pull_meta then pull_meta_step E base tag image_path else ret tt);;
       (if pull_sqfs then pull_sqfs_step E base tag image_path tgt
        else ret tt))
      (h <- read_proc;;
       terminate E h;;
       terminal_stdout E "";;
       terminal_error E "image pull cancelled by user.")
      (fun e =>
         h <- read_proc;;
         terminate E h;;
         terminal_stdout E "";;
         terminal_error E ("image pull failed with unknown exception: "
                           +:+ exc_text E e))) s /\
  pull_uenv E addr image_path tgt pull_meta pull_sqfs s
    = (Raise (UnboundLocalError "proc"), bind_proc None s).
Proof.
  intros Htag Haddr. split; [|split].
  - unfold PyStr.rsplit1.
    change (":" +:+ tag) with (String ":" tag).
    rewrite (rfind_split_last _ _ _ Htag). reflexivity.
  - apply pull_uenv_split, rfind_split_tagged, Htag.
  - unfold pull_uenv, PyStr.rsplit1.
    rewrite (rfind_split_none _ _ Haddr). reflexivity.
Qed.

(** C10. With both components switched off and a tag in the address,
    [pull_uenv] returns at once: the file system, the process table and the
    trace of observable effects are those of the start. *)
Theorem pull_nothing_is_noop addr image_path tgt s :
  PyStr.has_char ":" addr = true ->
  pull_uenv E addr image_path tgt false false s = (Ret tt, bind_proc None s)
  /\ fs (snd (pull_uenv E addr image_path tgt false false s)) = fs s
  /\ procs (snd (pull_uenv E addr image_path tgt false false s)) = procs s
  /\ trace (snd (pull_uenv E addr image_path tgt false false s)) = trace s.
Proof.
  intros Haddr.
  destruct (rfind_split_some _ _ Haddr) as (base & tag & Hsplit).
  rewrite (pull_uenv_split _ _ _ _ _ _ _ _ Hsplit).
  repeat split; reflexivity.
Qed.

End Frame.

(** ** What the events of a run add to a trace *)

Section Traces.

Lemma launched_app t u : launched (t ++ u) = launched t ++ launched u.
Proof. apply omap_app. Qed.

Lemma reported_app t u : reported (t ++ u) = reported t ++ reported u.
Proof. apply omap_app. Qed.

Lemma progress_lines_app t u :
  progress_lines (t ++ u) = progress_lines t ++ progress_lines u.
Proof. apply omap_app. Qed.

(** Informational messages are no launch, no error and no progress line. *)
Lemma info_silent evs :
  forallb is_info evs = true ->
  launched evs = [] /\ reported evs = [] /\ progress_lines evs = [].
Proof.
  induction evs as [|e evs IH]; [auto|].
  cbn [forallb]. intros H. apply andb_true_iff in H as [He Hevs].
  destruct e; try discriminate. exact (IH Hevs).
Qed.

End Traces.

(** Splits the observations of a trace along its parts and drops those of
    the informational parts. *)
Ltac observe :=
  repeat match goal with
  | H : forallb is_info _ = true |- _ =>
      apply info_silent in H; destruct H as (? & ? & ?)
  end;
  unfold launched, reported, progress_lines in *;
  cbn [trace omap list_omap];
  repeat (rewrite omap_app; cbn [omap list_omap]);
  repeat match goal with
  | H : omap _ _ = [] |- _ => rewrite ?H; clear H
  end;
  cbn [omap list_omap app].

(** ** Launching the client *)

Section Launch.

Context (E : env) (Hquiet : interrupt_at E = None).

(** [find_oras] returns the client it locates and writes informational
    messages only. *)
Lemma find_oras_found q s :
  located E (fs s) = Some q ->
  exists evs k,
    find_oras E s =
      (Ret q, {| fs := fs s; procs := procs s; trace := trace s ++ evs;
                 clock := k; proc := proc s |})
    /\ forallb is_info evs = true.
Proof.
  unfold located. intros Hloc. open_env E. open_state s.
  unfold find_oras. run. cbn in Hloc.
  destruct (f !! _) as [[z|z]|]; run;
    try (destruct which as [[|a w]|]; try discriminate; run);
    injection Hloc as <-;
    eexists _, _; (split; reflexivity).
Qed.

(** No client next to the library and none on the search path: [find_oras]
    reports it and exits. *)
Lemma find_oras_missing s :
  located E (fs s) = None ->
  exists evs k,
    find_oras E s =
      (Raise (SystemExit 1),
       {| fs := fs s; procs := procs s;
          trace := trace s ++ evs ++ [EError "no oras executable found"];
          clock := k; proc := proc s |})
    /\ forallb is_info evs = true.
Proof.
  unfold located. intros Hloc. open_env E. open_state s.
  unfold find_oras. run. cbn in Hloc.
  destruct (f !! _) as [[z|z]|]; try discriminate;
    destruct which as [[|a w]|]; try discriminate; run;
    eexists [_; _], _; (split; reflexivity).
Qed.

(** The launch succeeds: a new handle, one more process, one [Popen]. *)
Lemma run_command_internal_started args c q s :
  located E (fs s) = Some q ->
  oras E (q :: args) = Spawned c ->
  exists evs k,
    run_command_internal E args s =
      (Ret (length (procs s)),
       {| fs := fs s; procs := procs s ++ [started (q :: args) c];
          trace := trace s ++ evs ++ [EPopen (length (procs s)) (q :: args)];
          clock := k; proc := proc s |})
    /\ forallb is_info evs = true.
Proof.
  intros Hloc Hc.
  destruct (find_oras_found q s Hloc) as (evs & k & Hf & Hq).
  unfold run_command_internal, try_Exception, bind. rewrite Hf.
  open_env E. open_state s. run. rewrite Hc. run.
  eexists (evs ++ [_]), _. split; [rewrite <- ?app_assoc; reflexivity|].
  rewrite forallb_app, Hq. reflexivity.
Qed.

(** A client on the search path is enough for [find_oras] to locate one. *)
Lemma located_on_path p f :
  which_oras E = Some p -> p <> "" -> exists q, located E f = Some q.
Proof.
  intros Hw Hp. unfold located. rewrite Hw.
  destruct (f !! _) as [[z|z]|]; destruct p; try congruence; eauto.
Qed.

Lemma run_command_internal_spawned args c p s :
  which_oras E = Some p -> p <> "" ->
  (forall q, oras E (q :: args) = Spawned c) ->
  exists q evs k,
    run_command_internal E args s =
      (Ret (length (procs s)),
       {| fs := fs s; procs := procs s ++ [started (q :: args) c];
          trace := trace s ++ evs ++ [EPopen (length (procs s)) (q :: args)];
          clock := k; proc := proc s |})
    /\ forallb is_info evs = true.
Proof.
  intros Hw Hp Hc.
  destruct (located_on_path p (fs s) Hw Hp) as (q & Hloc).
  destruct (run_command_internal_started args c q s Hloc (Hc q))
    as (evs & k & H).
  eauto.
Qed.

(** The launch fails: no handle, no new process, one reported error. *)
Lemma run_command_internal_fails args msg s :
  launch_fails E (fs s) args msg ->
  exists evs k,
    run_command_internal E args s =
      (Raise (SystemExit 1),
       {| fs := fs s; procs := procs s;
          trace := trace s ++ evs ++ [EError msg];
          clock := k; proc := proc s |})
    /\ forallb is_info evs = true.
Proof.
  intros [Hloc | q text Hloc Hc].
  - destruct (find_oras_missing s Hloc) as (evs & k & Hf & Hq).
    unfold run_command_internal, try_Exception, bind. rewrite Hf.
    cbn. eauto.
  - destruct (find_oras_found q s Hloc) as (evs & k & Hf & Hq).
    unfold run_command_internal, try_Exception, bind. rewrite Hf.
    open_env E. open_state s. run. rewrite Hc. run.
    eexists (evs ++ [_]), _. split; [rewrite <- ?app_assoc; reflexivity|].
    rewrite forallb_app, Hq. reflexivity.
Qed.

End Launch.

(** ** What every run preserves *)

Section Grows.

Context (E : env) (R : state -> state -> Prop) (ok : event -> Prop).

Hypothesis R_same : forall s s', trace s' = trace s -> R s s'.
Hypothesis R_log :
  forall s s' e, ok e -> trace s' = trace s ++ [e] -> R s s'.
Hypothesis R_trans : forall s1 s2 s3, R s1 s2 -> R s2 s3 -> R s1 s3.
Hypothesis ok_plain : forall e, draws e = false -> ok e.

Lemma grows_ret {A} (a : A) : grows R (ret a).
Proof. intros s. apply R_same. reflexivity. Qed.

Lemma grows_raise {A} e : grows R (@raise A e).
Proof. intros s. apply R_same. reflexivity. Qed.

Lemma grows_stuck {A} : grows R (@stuck A).
Proof. intros s. apply R_same. reflexivity. Qed.

Lemma grows_lift {A} (r : exn + A) : grows R (lift r).
Proof. intros s. destruct r; apply R_same; reflexivity. Qed.

Lemma grows_bind {A B} (m : M A) (k : A -> M B) :
  grows R m -> (forall a, grows R (k a)) -> grows R (bind m k).
Proof.
  intros Hm Hk s. unfold bind. specialize (Hm s).
  destruct (m s) as [[a|e|] s1]; cbn in *; [|assumption..].
  eapply R_trans; [exact Hm | apply Hk].
Qed.

Lemma grows_try_except {A} (body h1 : M A) (h2 : exn -> M A) :
  grows R body -> grows R h1 -> (forall e, grows R (h2 e)) ->
  grows R (try_except body h1 h2).
Proof.
  intros Hb H1 H2 s. unfold try_except. specialize (Hb s).
  destruct (body s) as [[a|e|] s1]; cbn in *; [assumption| |assumption].
  destruct e; cbn; try assumption;
    (eapply R_trans; [exact Hb | first [apply H1 | apply H2]]).
Qed.

Lemma grows_try_Exception {A} (body : M A) (h : exn -> M A) :
  grows R body -> (forall e, grows R (h e)) ->
  grows R (try_Exception body h).
Proof.
  intros Hb Hh s. unfold try_Exception. specialize (Hb s).
  destruct (body s) as [[a|e|] s1]; cbn in *; [assumption| |assumption].
  destruct (is_Exception e); [|assumption].
  eapply R_trans; [exact Hb | apply Hh].
Qed.

Lemma grows_frame {A} (m : M A) : grows R m -> grows R (frame m).
Proof.
  intros Hm s. unfold frame.
  eapply R_trans; [|apply Hm]. apply R_same. reflexivity.
Qed.

Lemma grows_assign_proc h : grows R (assign_proc h).
Proof. intros s. apply R_same. reflexivity. Qed.

Lemma grows_read_proc : grows R read_proc.
Proof. intros s. unfold read_proc. destruct (proc s); apply R_same; reflexivity. Qed.

Lemma grows_get_returncode h : grows R (get_returncode h).
Proof.
  intros s. unfold get_returncode.
  destruct (procs s !! h); apply R_same; reflexivity.
Qed.

Lemma grows_loop_bound h : grows R (loop_bound h).
Proof.
  intros s. unfold loop_bound.
  destruct (procs s !! h); apply R_same; reflexivity.
Qed.

Lemma grows_call {A} (body : M A) : grows R body -> grows R (call E body).
Proof.
  intros Hb s. unfold call.
  destruct (interrupted (interrupt_at E) (clock s)).
  - apply R_same. reflexivity.
  - eapply R_trans; [|apply Hb]. apply R_same. reflexivity.
Qed.

(** A library call that logs at most one event, an allowed one. *)
Ltac plain_call :=
  apply grows_call; intros s; cbn;
  repeat match goal with
  | |- context [match ?x with _ => _ end] => destruct x; cbn
  end;
  first [ apply R_same; reflexivity
        | eapply R_log; cycle 1; [reflexivity | apply ok_plain; reflexivity] ].

Lemma grows_terminal_info msg : grows R (terminal_info E msg).
Proof. plain_call. Qed.

Lemma grows_terminal_error {A} msg : grows R (@terminal_error E A msg).
Proof. plain_call. Qed.

Lemma grows_terminal_stdout msg : grows R (terminal_stdout E msg).
Proof. plain_call. Qed.

Lemma grows_terminal_is_tty : grows R (terminal_is_tty E).
Proof. plain_call. Qed.

Lemma grows_progress_bar p w msg :
  ok (EProgressBar p w msg) -> grows R (progress_bar E p w msg).
Proof.
  intros Hok. apply grows_call. intros s. cbn.
  eapply R_log; [exact Hok | reflexivity].
Qed.

Lemma grows_path_is_file path : grows R (path_is_file E path).
Proof. plain_call. Qed.

Lemma grows_os_path_exists path : grows R (os_path_exists E path).
Proof. plain_call. Qed.

Lemma grows_os_path_getsize path : grows R (os_path_getsize E path).
Proof. plain_call. Qed.

Lemma grows_shutil_which name : grows R (shutil_which E name).
Proof. plain_call. Qed.

Lemma grows_shutil_rmtree path : grows R (shutil_rmtree E path).
Proof. plain_call. Qed.

Lemma grows_os_remove path : grows R (os_remove E path).
Proof. plain_call. Qed.

Lemma grows_time_sleep d : grows R (time_sleep E d).
Proof. plain_call. Qed.

Lemma grows_popen cmd : grows R (popen E cmd).
Proof. plain_call. Qed.

Lemma grows_communicate h : grows R (communicate E h).
Proof. plain_call. Qed.

Lemma grows_poll h : grows R (poll E h).
Proof. plain_call. Qed.

Lemma grows_terminate h : grows R (terminate E h).
Proof. plain_call. Qed.

(** The structure of a computation, taken apart down to its library
    calls. *)
Ltac grows_step :=
  first
    [ apply grows_ret | apply grows_raise | apply grows_stuck
    | apply grows_lift | apply grows_assign_proc | apply grows_read_proc
    | apply grows_get_returncode | apply grows_loop_bound
    | apply grows_terminal_info | apply grows_terminal_error
    | apply grows_terminal_stdout | apply grows_terminal_is_tty
    | apply grows_path_is_file | apply grows_os_path_exists
    | apply grows_os_path_getsize | apply grows_shutil_which
    | apply grows_shutil_rmtree | apply grows_os_remove
    | apply grows_time_sleep | apply grows_popen | apply grows_communicate
    | apply grows_poll | apply grows_terminate
    | apply grows_bind; [|intros ?]
    | apply grows_try_Exception; [|intros ?]
    | apply grows_try_except; [| |intros ?]
    | apply grows_frame
    | match goal with
      | |- grows _ (if ?b then _ else _) => destruct b
      | |- grows _ (match ?x with _ => _ end) => destruct x
      end ].

Lemma grows_find_oras : grows R (find_oras E).
Proof. unfold find_oras. repeat grows_step. Qed.

Lemma grows_run_command_internal args :
  grows R (run_command_internal E args).
Proof.
  unfold run_command_internal.
  repeat first [apply grows_find_oras | grows_step].
Qed.

Lemma grows_pull_meta_step base tag image_path :
  grows R (pull_meta_step E base tag image_path).
Proof.
  unfold pull_meta_step.
  repeat first [apply grows_run_command_internal | grows_step].
Qed.

(** The progress bar is not drawn at all, or drawing is allowed by [ok]. *)
Hypothesis drawing : is_tty E = false \/ forall e, ok e.

Lemma grows_draw_progress path total :
  grows R (draw_progress E path total).
Proof.
  destruct drawing as [Htty | Hok].
  - intros s. unfold draw_progress. cbn.
    destruct (interrupted (interrupt_at E) (clock s)); cbn;
      [apply R_same; reflexivity|].
    destruct (fs s !! path); cbn; [|apply R_same; reflexivity].
    destruct (interrupted (interrupt_at E) (S (clock s))); cbn;
      [apply R_same; reflexivity|].
    rewrite Htty. apply R_same. reflexivity.
  - unfold draw_progress.
    repeat first [apply grows_progress_bar, Hok | grows_step].
Qed.

Lemma grows_monitor fuel h path total :
  grows R (monitor E fuel h path total).
Proof.
  induction fuel as [|fuel IH]; cbn [monitor];
    repeat first [exact IH | apply grows_draw_progress | grows_step].
Qed.

(** A second relation [R'], for the runs that may draw the final bar: it
    contains [R], absorbs it on both sides, and admits the final bar. *)
Context (R' : state -> state -> Prop) (tgt : target).

Hypothesis R_R' : forall s s', R s s' -> R' s s'.
Hypothesis R_then_R' : forall s1 s2 s3, R s1 s2 -> R' s2 s3 -> R' s1 s3.
Hypothesis R'_then_R : forall s1 s2 s3, R' s1 s2 -> R s2 s3 -> R' s1 s3.
Hypothesis R'_final :
  forall s s',
    trace s' =
      trace s ++
      [EProgressBar 1 50 (mb_label (mb (size tgt)) (mb (size tgt)))] ->
    R' s s'.

Lemma grows_weaken {A} (m : M A) : grows R m -> grows R' m.
Proof. intros H s. apply R_R', H. Qed.

Lemma grows_bind_left {A B} (m : M A) (k : A -> M B) :
  grows R m -> (forall a, grows R' (k a)) -> grows R' (bind m k).
Proof.
  intros Hm Hk s. unfold bind. specialize (Hm s).
  destruct (m s) as [[a|e|] s1]; cbn in *; [|apply R_R'; assumption..].
  eapply R_then_R'; [exact Hm | apply Hk].
Qed.

Lemma grows_bind_right {A B} (m : M A) (k : A -> M B) :
  grows R' m -> (forall a, grows R (k a)) -> grows R' (bind m k).
Proof.
  intros Hm Hk s. unfold bind. specialize (Hm s).
  destruct (m s) as [[a|e|] s1]; cbn in *; [|assumption..].
  eapply R'_then_R; [exact Hm | apply Hk].
Qed.

Lemma grows_final_bar :
  grows R'
    (progress_bar E 1 50 (mb_label (mb (size tgt)) (mb (size tgt)))).
Proof.
  intros s. cbn.
  destruct (interrupted (interrupt_at E) (clock s)); cbn.
  - apply R_R', R_same. reflexivity.
  - eapply R'_final. reflexivity.
Qed.

Lemma grows_pull_sqfs_step base tag image_path :
  grows R' (pull_sqfs_step E base tag image_path tgt).
Proof.
  unfold pull_sqfs_step.
  apply grows_bind_left; [repeat grows_step | intros stale].
  apply grows_bind_left; [destruct stale; repeat grows_step | intros _].
  apply grows_bind_left; [apply grows_run_command_internal | intros h].
  apply grows_bind_left; [repeat grows_step | intros _].
  apply grows_bind_left; [repeat grows_step | intros fuel].
  apply grows_bind_left; [apply grows_monitor | intros _].
  apply grows_bind_left; [repeat grows_step | intros [stdout stderr]].
  apply grows_bind_left; [repeat grows_step | intros rc].
  destruct (is_zero rc).
  - apply grows_bind_right; [apply grows_final_bar | intros _].
    repeat grows_step.
  - apply grows_weaken. repeat grows_step.
Qed.

Lemma grows_pull_uenv addr image_path pull_meta pull_sqfs :
  grows R' (pull_uenv E addr image_path tgt pull_meta pull_sqfs).
Proof.
  unfold pull_uenv. intros s. unfold frame, try_except.
  set (s0 := bind_proc None s).
  assert (H0 : R s s0) by (apply R_same; reflexivity).
  match goal with
  | |- R' s (snd (match ?body s0 with _ => _ end)) =>
      assert (Hbody : grows R' body)
  end.
  { apply grows_bind_left; [repeat grows_step | intros base].
    apply grows_bind_left; [repeat grows_step | intros tag].
    apply grows_bind_left.
    - destruct pull_meta; [apply grows_pull_meta_step | repeat grows_step].
    - intros _. destruct pull_sqfs;
        [apply grows_pull_sqfs_step | apply grows_weaken; repeat grows_step]. }
  specialize (Hbody s0). cbv beta in Hbody.
  match goal with
  | |- R' s (snd (match ?body with _ => _ end)) =>
      destruct body as [[a|e|] s1]
  end; cbn [snd] in *.
  - eapply R_then_R'; eassumption.
  - assert (Hh : forall m : M unit, grows R m -> R' s (snd (m s1))).
    { intros m Hm. eapply R_then_R'; [exact H0|].
      eapply R'_then_R; [exact Hbody | apply Hm]. }
    destruct e; cbn [is_Exception]; try (eapply R_then_R'; eassumption);
      apply Hh; repeat grows_step.
  - eapply R_then_R'; eassumption.
Qed.

(** What is left of [pull_uenv] once the meta data step has returned. *)
Lemma grows_after_meta base tag image_path (pull_sqfs : bool) :
  grows R'
    (try_except
       (if pull_sqfs then pull_sqfs_step E base tag image_path tgt
        else ret tt)
       (h <- read_proc;;
        terminate E h;;
        terminal_stdout E "";;
        terminal_error E "image pull cancelled by user.")
       (fun e =>
          h <- read_proc;;
          terminate E h;;
          terminal_stdout E "";;
          terminal_error E ("image pull failed with unknown exception: "
                            +:+ exc_text E e))).
Proof.
  intros s. unfold try_except.
  assert (Hbody : grows R'
            (if pull_sqfs then pull_sqfs_step E base tag image_path tgt
             else ret tt)).
  { destruct pull_sqfs;
      [apply grows_pull_sqfs_step | apply grows_weaken; repeat grows_step]. }
  specialize (Hbody s).
  match goal with
  | |- R' s (snd (match ?body with _ => _ end)) =>
      destruct body as [[a|e|] s1]
  end; cbn [snd] in *; try assumption.
  assert (Hh : forall m : M unit, grows R m -> R' s (snd (m s1))).
  { intros m Hm. eapply R'_then_R; [exact Hbody | apply Hm]. }
  destruct e; cbn [is_Exception]; try assumption;
    apply Hh; repeat grows_step.
Qed.

End Grows.


(** ** Progress output without a terminal *)

Section NoTerminal.

Context (E : env) (Htty : is_tty E = false) (tgt : target).

Lemma draws_nothing_same s s' : trace s' = trace s -> draws_nothing s s'.
Proof. unfold draws_nothing. intros ->. reflexivity. Qed.

Lemma draws_nothing_log s s' e :
  draws e = false -> trace s' = trace s ++ [e] -> draws_nothing s s'.
Proof.
  unfold draws_nothing. intros He ->. rewrite progress_lines_app.
  destruct e; try discriminate; cbn; apply app_nil_r.
Qed.

Lemma draws_nothing_trans s1 s2 s3 :
  draws_nothing s1 s2 -> draws_nothing s2 s3 -> draws_nothing s1 s3.
Proof. unfold draws_nothing. congruence. Qed.

(** Without a terminal the loop of [pull_uenv] draws nothing, whatever else
    happens during the run, interrupts included; the one line the run can
    draw is the final bar. *)
Lemma pull_uenv_draws_at_most_final addr image_path pull_meta pull_sqfs s :
  let s' := snd (pull_uenv E addr image_path tgt pull_meta pull_sqfs s) in
  progress_lines (trace s') = progress_lines (trace s) \/
  progress_lines (trace s') =
    progress_lines (trace s) ++
    [(1%Q, 50, mb_label (mb (size tgt)) (mb (size tgt)))].
Proof.
  apply (grows_pull_uenv E draws_nothing (fun e => draws e = false)
           draws_nothing_same draws_nothing_log draws_nothing_trans
           (fun e H => H) (or_introl Htty)
           (draws_at_most_final (mb (size tgt))) tgt).
  - intros s1 s2 H. left. exact H.
  - unfold draws_nothing, draws_at_most_final.
    intros s1 s2 s3 H12 [H|H]; rewrite H, H12; auto.
  - unfold draws_nothing, draws_at_most_final.
    intros s1 s2 s3 [H|H] H23; rewrite H23, H; auto.
  - unfold draws_at_most_final. intros s1 s2 ->. right.
    rewrite progress_lines_app. reflexivity.
Qed.

End NoTerminal.

(** ** The trace only grows *)

Section Extends.

Context (E : env).

Lemma extends_same s s' : trace s' = trace s -> extends s s'.
Proof. intros H. exists []. rewrite H, app_nil_r. reflexivity. Qed.

Lemma extends_log s s' e :
  True -> trace s' = trace s ++ [e] -> extends s s'.
Proof. intros _ H. exists [e]. exact H. Qed.

Lemma extends_trans s1 s2 s3 :
  extends s1 s2 -> extends s2 s3 -> extends s1 s3.
Proof.
  intros [e1 H1] [e2 H2]. exists (e1 ++ e2).
  rewrite H2, H1, app_assoc. reflexivity.
Qed.

Lemma extends_pull_sqfs_step base tag image_path tgt :
  grows extends (pull_sqfs_step E base tag image_path tgt).
Proof.
  apply (grows_pull_sqfs_step E extends (fun _ => True)
           extends_same extends_log extends_trans (fun _ _ => I)
           (or_intror (fun _ => I)) extends tgt); auto.
  - apply extends_trans.
  - apply extends_trans.
  - intros s s' H. eexists. exact H.
Qed.

Lemma extends_after_meta base tag image_path tgt (pull_sqfs : bool) :
  grows extends
    (try_except
       (if pull_sqfs then pull_sqfs_step E base tag image_path tgt
        else ret tt)
       (h <- read_proc;;
        terminate E h;;
        terminal_stdout E "";;
        terminal_error E "image pull cancelled by user.")
       (fun e =>
          h <- read_proc;;
          terminate E h;;
          terminal_stdout E "";;
          terminal_error E ("image pull failed with unknown exception: "
                            +:+ exc_text E e))).
Proof.
  apply (grows_after_meta E extends (fun _ => True)
           extends_same extends_log extends_trans (fun _ _ => I)
           (or_intror (fun _ => I)) extends tgt); auto.
  - apply extends_trans.
  - apply extends_trans.
  - intros s s' H. eexists. exact H.
Qed.

End Extends.

(** ** The meta data: discovery and pull by digest *)

Section Discovery.

Context (E : env) (Hquiet : interrupt_at E = None).
Context (p : string) (Hwhich : which_oras E = Some p) (Hp : p <> "").
Context (base tag image_path : string) (fs0 : gmap string node).
Context (discovery : child).

(** No plain file stands where the meta data directory goes. *)
Hypothesis Hmeta : forall z, fs0 !! (image_path +:+ "/meta") <> Some (File z).

(** The client answers the discovery of [base:tag] with [discovery]. *)
Hypothesis Hdiscover :
  forall q, oras E (q :: discover_args base tag) = Spawned discovery.

(** The state in which the body of [pull_uenv] starts. *)
Let start : state := bind_proc None (init_state fs0).

(** An empty manifest list ends the step with one error and no pull. *)
Lemma meta_step_no_manifests doc :
  PyVal.json_loads (child_stdout discovery) = inr doc ->
  PyVal.getitem_str doc "manifests" = inr (JArr []) ->
  exists q s1,
    pull_meta_step E base tag image_path start = (Raise (SystemExit 1), s1)
    /\ launched (trace s1) = [q :: discover_args base tag]
    /\ reported (trace s1) =
         [if child_exit discovery =? 0 then "no meta data is available"
          else "failed to find meta data: " +:+ child_stderr discovery +:+
               nl +:+ error_message_from_stderr E (child_stderr discovery)].
Proof.
  intros Hdoc Hman. subst start. unfold pull_meta_step, init_state.
  pose proof (fun a s => run_command_internal_spawned E Hquiet a discovery p s
                Hwhich Hp) as Hrun.
  open_env E. run.
  destruct (fs0 !! _) as [[z|z]|] eqn:Hlook; [destruct (Hmeta z eq_refl)| |];
    run; rewrite ?Hlook; run;
    match goal with
    | |- context [run_command_internal ?e ?a ?s] =>
        destruct (Hrun a s Hdiscover) as (q & evs & k & -> & Hq)
    end;
    run; rewrite ?Hdoc;
    (destruct (child_exit discovery) eqn:Hexit; run;
     rewrite ?Hman; run;
     eexists q, _; (split; [reflexivity|]);
     observe; split; reflexivity).
Qed.

(** A manifest list that is not empty: the meta data is pulled by the
    digest of its first entry, and the step returns. *)
Lemma meta_step_pulls_first doc first rest digest meta :
  child_exit discovery = 0 ->
  PyVal.json_loads (child_stdout discovery) = inr doc ->
  PyVal.getitem_str doc "manifests" = inr (JArr (first :: rest)) ->
  PyVal.getitem_str first "digest" = inr digest ->
  (forall q,
     oras E (q :: pull_args image_path
                    (base +:+ "@" +:+ format_value E digest))
       = Spawned meta) ->
  exists q1 q2 s1,
    pull_meta_step E base tag image_path start = (Ret tt, s1)
    /\ launched (trace s1) =
         [q1 :: discover_args base tag;
          q2 :: pull_args image_path
                  (base +:+ "@" +:+ format_value E digest)]
    /\ reported (trace s1) = [].
Proof.
  intros Hexit Hdoc Hman Hdigest Hpull.
  subst start. unfold pull_meta_step, init_state.
  pose proof (fun a c s => run_command_internal_spawned E Hquiet a c p s
                Hwhich Hp) as Hrun.
  open_env E. run.
  destruct (fs0 !! _) as [[z|z]|] eqn:Hlook; [destruct (Hmeta z eq_refl)| |];
    run; rewrite ?Hlook; run;
    match goal with
    | |- context [run_command_internal ?e ?a ?s] =>
        destruct (Hrun a discovery s Hdiscover) as (q1 & evs1 & k1 & -> & Hq1)
    end;
    run; rewrite Hexit, Hdoc; run; rewrite Hman; run; rewrite Hdigest; run;
    match goal with
    | |- context [run_command_internal ?e ?a ?s] =>
        destruct (Hrun a meta s Hpull) as (q2 & evs2 & k2 & -> & Hq2)
    end;
    run; eexists q1, q2, _; (split; [reflexivity|]);
    observe; split; reflexivity.
Qed.

(** C2. When the discovery answers with an empty manifest list, the pull
    fails with a discovery error, [SystemExit] after one reported error,
    and the discovery is the only child the call has launched. *)
Theorem empty_manifest_list_aborts doc tgt pull_sqfs :
  PyStr.has_char ":" tag = false ->
  PyVal.json_loads (child_stdout discovery) = inr doc ->
  PyVal.getitem_str doc "manifests" = inr (JArr []) ->
  exists q s',
    pull_uenv E (base +:+ ":" +:+ tag) image_path tgt true pull_sqfs
      (init_state fs0) = (Raise (SystemExit 1), s')
    /\ launched (trace s') = [q :: discover_args base tag]
    /\ reported (trace s') =
         [if child_exit discovery =? 0 then "no meta data is available"
          else "failed to find meta data: " +:+ child_stderr discovery +:+
               nl +:+ error_message_from_stderr E (child_stderr discovery)].
Proof.
  intros Htag Hdoc Hman.
  destruct (meta_step_no_manifests doc Hdoc Hman) as (q & s1 & Hstep & Hobs).
  exists q, s1. split; [|exact Hobs].
  apply (pull_uenv_meta_exits E _ base tag); [|exact Hstep].
  apply rfind_split_tagged, Htag.
Qed.

(** C1. When the discovery succeeds with a manifest list that is not
    empty, the meta data is pulled by the digest of the first manifest,
    whatever the later entries are: the first two launches of the call are
    the discovery and the pull of [base@digest]. *)
Theorem first_manifest_digest_selected doc first rest digest meta tgt
    pull_sqfs :
  PyStr.has_char ":" tag = false ->
  child_exit discovery = 0 ->
  PyVal.json_loads (child_stdout discovery) = inr doc ->
  PyVal.getitem_str doc "manifests" = inr (JArr (first :: rest)) ->
  PyVal.getitem_str first "digest" = inr digest ->
  (forall q,
     oras E (q :: pull_args image_path
                    (base +:+ "@" +:+ format_value E digest))
       = Spawned meta) ->
  exists q1 q2 more,
    launched
      (trace (snd (pull_uenv E (base +:+ ":" +:+ tag) image_path tgt true
                     pull_sqfs (init_state fs0)))) =
    [q1 :: discover_args base tag;
     q2 :: pull_args image_path (base +:+ "@" +:+ format_value E digest)]
    ++ more.
Proof.
  intros Htag Hexit Hdoc Hman Hdigest Hpull.
  destruct (meta_step_pulls_first doc first rest digest meta
              Hexit Hdoc Hman Hdigest Hpull)
    as (q1 & q2 & s1 & Hstep & Hlaunched & _).
  rewrite (pull_uenv_split E _ base tag) by (apply rfind_split_tagged, Htag).
  unfold frame. fold start.
  rewrite (try_except_bind_ret _ _ _ _ _ _ _ Hstep).
  destruct (extends_after_meta E base tag image_path tgt pull_sqfs s1)
    as (evs & ->).
  exists q1, q2, (launched evs).
  rewrite launched_app, Hlaunched. reflexivity.
Qed.

End Discovery.

(** ** A launch that fails *)

Section LaunchFailure.

Context (E : env) (Hquiet : interrupt_at E = None).
Context (base tag image_path : string) (fs0 : gmap string node).
Context (Htag : PyStr.has_char ":" tag = false).

Lemma meta_step_launch_fails msg :
  (forall z, fs0 !! (image_path +:+ "/meta") <> Some (File z)) ->
  launch_fails E (cleaned_meta image_path fs0) (discover_args base tag) msg ->
  exists s1,
    pull_meta_step E base tag image_path (bind_proc None (init_state fs0))
      = (Raise (SystemExit 1), s1)
    /\ launched (trace s1) = [] /\ reported (trace s1) = [msg].
Proof.
  intros Hmeta Hfail. unfold pull_meta_step, init_state, cleaned_meta in *.
  pose proof (fun a m s => run_command_internal_fails E Hquiet a m s) as Hrun.
  open_env E. run.
  destruct (fs0 !! _) as [[z|z]|] eqn:Hlook; [destruct (Hmeta z eq_refl)| |];
    run; rewrite ?Hlook; run;
    match goal with
    | |- context [run_command_internal ?e ?a ?s] =>
        destruct (Hrun a msg s Hfail) as (evs & k & -> & Hq)
    end;
    run; eexists; (split; [reflexivity|]); observe; split; reflexivity.
Qed.

Lemma sqfs_step_launch_fails tgt msg :
  (forall z, fs0 !! (image_path +:+ "/store.squashfs") <> Some (Dir z)) ->
  launch_fails E (cleaned_sqfs image_path fs0)
    (pull_args image_path (base +:+ ":" +:+ tag)) msg ->
  exists s1,
    pull_sqfs_step E base tag image_path tgt (bind_proc None (init_state fs0))
      = (Raise (SystemExit 1), s1)
    /\ launched (trace s1) = [] /\ reported (trace s1) = [msg].
Proof.
  intros Hsqfs Hfail. unfold pull_sqfs_step, init_state, cleaned_sqfs in *.
  pose proof (fun a m s => run_command_internal_fails E Hquiet a m s) as Hrun.
  open_env E. run.
  destruct (fs0 !! _) as [[z|z]|] eqn:Hlook; [|destruct (Hsqfs z eq_refl)|];
    run; rewrite ?Hlook; run;
    match goal with
    | |- context [run_command_internal ?e ?a ?s] =>
        destruct (Hrun a msg s Hfail) as (evs & k & -> & Hq)
    end;
    run; eexists; (split; [reflexivity|]); observe; split; reflexivity.
Qed.

(** *** The later launches *)

Section LaterLaunches.

Context (q1 : string) (discovery : child) (digest : json).

Hypothesis Hmeta : forall z, fs0 !! (image_path +:+ "/meta") <> Some (File z).
Hypothesis Hloc1 : located E (cleaned_meta image_path fs0) = Some q1.
Hypothesis Hdiscover :
  oras E (q1 :: discover_args base tag) = Spawned discovery.
Hypothesis Hexit : child_exit discovery = 0.
Hypothesis Hdigest :
  first_digest (child_stdout discovery) = inr (Some digest).

(** The file system on which the meta data pull is launched. *)
Let f1 : gmap string node :=
  foldl apply_step (cleaned_meta image_path fs0) (steps discovery).

Lemma meta_pull_launch_fails msg :
  launch_fails E f1
    (pull_args image_path (base +:+ "@" +:+ format_value E digest)) msg ->
  exists s1,
    pull_meta_step E base tag image_path (bind_proc None (init_state fs0))
      = (Raise (SystemExit 1), s1)
    /\ launched (trace s1) = [q1 :: discover_args base tag]
    /\ reported (trace s1) = [msg].
Proof.
  intros Hfail. subst f1.
  unfold pull_meta_step, init_state, cleaned_meta in *.
  pose proof (fun a c q s => run_command_internal_started E Hquiet a c q s)
    as Hrun.
  pose proof (fun a m s => run_command_internal_fails E Hquiet a m s) as Hbad.
  pose proof Hdigest as Hfirst. unfold first_digest in Hfirst.
  open_env E. run.
  destruct (fs0 !! _) as [[z|z]|] eqn:Hlook; [destruct (Hmeta z eq_refl)| |];
    run; rewrite ?Hlook; run;
    match goal with
    | |- context [run_command_internal ?e ?a ?s] =>
        destruct (Hrun a discovery q1 s Hloc1 Hdiscover)
          as (evs1 & k1 & -> & Hq1)
    end;
    run; rewrite Hexit; run;
    (destruct (PyVal.json_loads _) as [e1|doc]; [discriminate|]);
    run;
    (destruct (PyVal.getitem_str doc _) as [e2|ms]; [discriminate|]);
    run;
    (destruct (PyVal.len ms) as [e3|[|n]]; [discriminate..|]);
    run;
    (destruct (PyVal.getitem_0 ms) as [e4|first]; [discriminate|]);
    run;
    (destruct (PyVal.getitem_str first _) as [e5|d]; [discriminate|]);
    injection Hfirst as ->;
    run;
    match goal with
    | |- context [run_command_internal ?e ?a ?s] =>
        destruct (Hbad a msg s Hfail) as (evs2 & k2 & -> & Hq2)
    end;
    run; eexists; (split; [reflexivity|]); observe; split; reflexivity.
Qed.

Context (q2 : string) (meta : child).
Hypothesis Hloc2 : located E f1 = Some q2.
Hypothesis Hpull_meta :
  oras E (q2 :: pull_args image_path
                  (base +:+ "@" +:+ format_value E digest))
    = Spawned meta.

(** The file system the meta data step leaves. *)
Let f2 : gmap string node := foldl apply_step f1 (steps meta).

Hypothesis Hsqfs :
  forall z, f2 !! (image_path +:+ "/store.squashfs") <> Some (Dir z).

Lemma image_launch_fails_after_meta tgt msg :
  launch_fails E (cleaned_sqfs image_path f2)
    (pull_args image_path (base +:+ ":" +:+ tag)) msg ->
  exists s',
    pull_uenv E (base +:+ ":" +:+ tag) image_path tgt true true
      (init_state fs0) = (Raise (SystemExit 1), s')
    /\ launched (trace s') =
         [q1 :: discover_args base tag;
          q2 :: pull_args image_path
                  (base +:+ "@" +:+ format_value E digest)]
    /\ reported (trace s') = [msg].
Proof.
  intros Hfail. subst f2 f1.
  rewrite (pull_uenv_split E _ base tag) by (apply rfind_split_tagged, Htag).
  unfold pull_meta_step, pull_sqfs_step, init_state, cleaned_meta,
    cleaned_sqfs in *.
  pose proof (fun a c q s => run_command_internal_started E Hquiet a c q s)
    as Hrun.
  pose proof (fun a m s => run_command_internal_fails E Hquiet a m s) as Hbad.
  pose proof Hdigest as Hfirst. unfold first_digest in Hfirst.
  open_env E. run.
  destruct (fs0 !! _) as [[z|z]|] eqn:Hlook; [destruct (Hmeta z eq_refl)| |];
    run; rewrite ?Hlook; run;
    match goal with
    | |- context [run_command_internal ?e ?a ?s] =>
        destruct (Hrun a discovery q1 s Hloc1 Hdiscover)
          as (evs1 & k1 & -> & Hq1)
    end;
    run; rewrite Hexit; run;
    (destruct (PyVal.json_loads _) as [e1|doc]; [discriminate|]);
    run;
    (destruct (PyVal.getitem_str doc _) as [e2|ms]; [discriminate|]);
    run;
    (destruct (PyVal.len ms) as [e3|[|n]]; [discriminate..|]);
    run;
    (destruct (PyVal.getitem_0 ms) as [e4|first]; [discriminate|]);
    run;
    (destruct (PyVal.getitem_str first _) as [e5|d]; [discriminate|]);
    injection Hfirst as ->;
    run;
    match goal with
    | |- context [run_command_internal ?e ?a ?s] =>
        destruct (Hrun a meta q2 s Hloc2 Hpull_meta)
          as (evs2 & k2 & -> & Hq2)
    end;
    run;
    match goal with
    | |- context [match ?f !! (image_path +:+ "/store.squashfs") with _ => _ end] =>
        destruct (f !! (image_path +:+ "/store.squashfs"))
          as [[z2|z2]|] eqn:Hlook2
    end;
    try (destruct (Hsqfs z2 eq_refl));
    run; rewrite ?Hlook2; run;
    match goal with
    | |- context [run_command_internal ?e ?a ?s] =>
        destruct (Hbad a msg s Hfail) as (evs3 & k3 & -> & Hq3)
    end;
    run; eexists; (split; [reflexivity|]); observe; split; reflexivity.
Qed.

End LaterLaunches.

(** C9. When the client cannot be located or the operating system refuses
    to start it, the launch returns no handle: it reports one error and
    raises [SystemExit], in whatever state it is tried.  Neither handler of
    [pull_uenv] catches [SystemExit], so the pull call ends there, at each
    of its three launches: the discovery, the pull of the meta data that
    follows a discovery, and the pull of the image, alone or after the
    meta data.  The children launched are those of the launches before,
    and the error reported is that of the failed launch, the only one. *)
Theorem launch_failure_is_fatal args s msg tgt pull_sqfs :
  launch_fails E (fs s) args msg ->
  (exists s',
     run_command_internal E args s = (Raise (SystemExit 1), s')
     /\ procs s' = procs s
     /\ launched (trace s') = launched (trace s)
     /\ reported (trace s') = reported (trace s) ++ [msg])
  /\ ((forall z, fs0 !! (image_path +:+ "/meta") <> Some (File z)) ->
      forall msg',
      launch_fails E (cleaned_meta image_path fs0)
        (discover_args base tag) msg' ->
      exists s',
        pull_uenv E (base +:+ ":" +:+ tag) image_path tgt true pull_sqfs
          (init_state fs0) = (Raise (SystemExit 1), s')
        /\ launched (trace s') = [] /\ reported (trace s') = [msg'])
  /\ ((forall z,
         fs0 !! (image_path +:+ "/store.squashfs") <> Some (Dir z)) ->
      forall msg',
      launch_fails E (cleaned_sqfs image_path fs0)
        (pull_args image_path (base +:+ ":" +:+ tag)) msg' ->
      exists s',
        pull_uenv E (base +:+ ":" +:+ tag) image_path tgt false true
          (init_state fs0) = (Raise (SystemExit 1), s')
        /\ launched (trace s') = [] /\ reported (trace s') = [msg'])
  /\ (forall q1 discovery digest,
      (forall z, fs0 !! (image_path +:+ "/meta") <> Some (File z)) ->
      located E (cleaned_meta image_path fs0) = Some q1 ->
      oras E (q1 :: discover_args base tag) = Spawned discovery ->
      child_exit discovery = 0 ->
      first_digest (child_stdout discovery) = inr (Some digest) ->
      let f1 :=
        foldl apply_step (cleaned_meta image_path fs0) (steps discovery) in
      let by_digest :=
        pull_args image_path (base +:+ "@" +:+ format_value E digest) in
      (forall msg',
         launch_fails E f1 by_digest msg' ->
         exists s',
           pull_uenv E (base +:+ ":" +:+ tag) image_path tgt true pull_sqfs
             (init_state fs0) = (Raise (SystemExit 1), s')
           /\ launched (trace s') = [q1 :: discover_args base tag]
           /\ reported (trace s') = [msg'])
      /\ (forall q2 meta,
          located E f1 = Some q2 ->
          oras E (q2 :: by_digest) = Spawned meta ->
          let f2 := foldl apply_step f1 (steps meta) in
          (forall z,
             f2 !! (image_path +:+ "/store.squashfs") <> Some (Dir z)) ->
          forall msg',
          launch_fails E (cleaned_sqfs image_path f2)
            (pull_args image_path (base +:+ ":" +:+ tag)) msg' ->
          exists s',
            pull_uenv E (base +:+ ":" +:+ tag) image_path tgt true true
              (init_state fs0) = (Raise (SystemExit 1), s')
            /\ launched (trace s') =
                 [q1 :: discover_args base tag; q2 :: by_digest]
            /\ reported (trace s') = [msg'])).
Proof.
  intros Hfail. split; [|split; [|split]].
  - destruct (run_command_internal_fails E Hquiet args msg s Hfail)
      as (evs & k & -> & Hq).
    eexists. split; [reflexivity|]. cbn [procs trace].
    split; [reflexivity|].
    rewrite !launched_app, !reported_app.
    apply info_silent in Hq as (-> & -> & _).
    split; [apply app_nil_r | reflexivity].
  - intros Hmeta msg' Hfail'.
    destruct (meta_step_launch_fails msg' Hmeta Hfail') as (s1 & Hstep & Hobs).
    exists s1. split; [|exact Hobs].
    apply (pull_uenv_meta_exits E _ base tag); [|exact Hstep].
    apply rfind_split_tagged, Htag.
  - intros Hsqfs msg' Hfail'.
    destruct (sqfs_step_launch_fails tgt msg' Hsqfs Hfail')
      as (s1 & Hstep & Hobs).
    exists s1. split; [|exact Hobs].
    rewrite (pull_uenv_split E _ base tag)
      by (apply rfind_split_tagged, Htag).
    unfold frame, try_except, bind, ret. rewrite Hstep. reflexivity.
  - intros q1 discovery digest Hmeta Hloc1 Hdisc Hexit Hdigest f1 by_digest.
    split.
    + intros msg' Hfail'.
      destruct (meta_pull_launch_fails q1 discovery digest Hmeta Hloc1 Hdisc
                  Hexit Hdigest msg' Hfail') as (s1 & Hstep & Hobs).
      exists s1. split; [|exact Hobs].
      apply (pull_uenv_meta_exits E _ base tag); [|exact Hstep].
      apply rfind_split_tagged, Htag.
    + intros q2 meta Hloc2 Hpull f2 Hsqfs msg' Hfail'.
      exact (image_launch_fails_after_meta q1 discovery digest Hmeta Hloc1
               Hdisc Hexit Hdigest q2 meta Hloc2 Hpull Hsqfs tgt msg'
               Hfail').
Qed.


End LaunchFailure.

(** ** Classifying the error output *)

Section Classifier.

Context (E : env).

Lemma permission_hint_not_empty : permission_hint E <> "".
Proof.
  unfold permission_hint.
  destruct (colorize E "Hint" "yellow"); discriminate.
Qed.

Lemma error_message_cases stderr :
  error_message_from_stderr E stderr =
    if PyStr.contains permission_signature stderr then permission_hint E
    else "".
Proof. reflexivity. Qed.

(** [run_command] on a child that exits with a code other than zero: one
    error, made of the raw error output, a line feed and the hint. *)
Lemma run_command_failure args c p fs0 :
  interrupt_at E = None -> which_oras E = Some p -> p <> "" ->
  (forall q, oras E (q :: args) = Spawned c) ->
  child_exit c <> 0 ->
  exists s',
    run_command E args (init_state fs0) = (Raise (SystemExit 1), s')
    /\ reported (trace s') =
         ["oras command failed: " +:+ child_stderr c +:+ nl +:+
          error_message_from_stderr E (child_stderr c)].
Proof.
  intros Hquiet Hw Hp Hc Hexit. unfold run_command, init_state.
  pose proof (fun s => run_command_internal_spawned E Hquiet args c p s
                Hw Hp Hc) as Hrun.
  open_env E. run.
  match goal with
  | |- context [run_command_internal ?e ?a ?s] =>
      destruct (Hrun s) as (q & evs & k & -> & Hq)
  end.
  run. destruct (child_exit c) eqn:Hcode; [congruence| |]; run;
    eexists; (split; [reflexivity|]); observe; reflexivity.
Qed.

(** C4. The hint attached to a failure is the fixed permission hint if and
    only if the error output contains the permission signature, and it is
    empty for every other error output; the message [run_command] reports
    for a child that exits with a code other than zero is the raw error
    output followed by that hint. *)
Theorem hint_iff_permission_signature stderr args c p fs0 :
  interrupt_at E = None -> which_oras E = Some p -> p <> "" ->
  (forall q, oras E (q :: args) = Spawned c) ->
  child_exit c <> 0 ->
  child_stderr c = stderr ->
  (error_message_from_stderr E stderr = permission_hint E <->
   exists before after,
     stderr = before +:+ permission_signature +:+ after)
  /\ ((~ exists before after,
         stderr = before +:+ permission_signature +:+ after) ->
      error_message_from_stderr E stderr = "")
  /\ exists s',
       run_command E args (init_state fs0) = (Raise (SystemExit 1), s')
       /\ reported (trace s') =
            ["oras command failed: " +:+ stderr +:+ nl +:+
             error_message_from_stderr E stderr].
Proof.
  intros Hquiet Hw Hp Hc Hexit Herr.
  rewrite <- contains_app, error_message_cases.
  split; [|split].
  - destruct (PyStr.contains permission_signature stderr).
    + split; reflexivity.
    + split; [|discriminate].
      intros H. destruct (permission_hint_not_empty (eq_sym H)).
  - destruct (PyStr.contains permission_signature stderr);
      [intros H; destruct (H eq_refl) | reflexivity].
  - subst stderr. apply (run_command_failure args c p); assumption.
Qed.

End Classifier.

(** ** The fraction given to the progress bar *)

Section Fraction.

Context (E : env) (Hquiet : interrupt_at E = None).

Lemma inject_Z_nonzero z : z <> 0 -> ~ (inject_Z z == 0)%Q.
Proof.
  intros Hz H. unfold Qeq, inject_Z in H. cbn in H. lia.
Qed.

Lemma mb_nonzero z : z <> 0 -> Qeq_bool (mb z) 0 = false.
Proof.
  intros Hz. destruct (Qeq_bool (mb z) 0) eqn:H; [|reflexivity].
  apply Qeq_bool_eq in H.
  assert (Hz' : (mb z * inject_Z (1024 * 1024) == inject_Z z)%Q).
  { unfold mb. field. apply inject_Z_nonzero. discriminate. }
  rewrite H, Qmult_0_l in Hz'.
  destruct (inject_Z_nonzero z Hz). symmetry. exact Hz'.
Qed.



End Fraction.

(** ** The exit code of the meta data pull *)

Section MetaPull.

Context (E : env) (Hquiet : interrupt_at E = None).
Context (p : string) (Hwhich : which_oras E = Some p) (Hp : p <> "").
Context (base tag image_path : string) (fs0 : gmap string node).
Context (discovery meta : child).

(** C3, where the code departs from it: lines 101 and 102 collect the
    output of the meta data pull and never read its exit code.  Whatever
    that code and the error output are, a call for the meta data alone
    returns normally and reports nothing. *)
Theorem meta_pull_exit_code_ignored doc first rest digest tgt :
  (forall z, fs0 !! (image_path +:+ "/meta") <> Some (File z)) ->
  (forall q, oras E (q :: discover_args base tag) = Spawned discovery) ->
  PyStr.has_char ":" tag = false ->
  child_exit discovery = 0 ->
  PyVal.json_loads (child_stdout discovery) = inr doc ->
  PyVal.getitem_str doc "manifests" = inr (JArr (first :: rest)) ->
  PyVal.getitem_str first "digest" = inr digest ->
  (forall q,
     oras E (q :: pull_args image_path
                    (base +:+ "@" +:+ format_value E digest))
       = Spawned meta) ->
  exists s',
    pull_uenv E (base +:+ ":" +:+ tag) image_path tgt true false
      (init_state fs0) = (Ret tt, s')
    /\ reported (trace s') = [].
Proof.
  intros Hmeta Hdiscover Htag Hexit Hdoc Hman Hdigest Hpull.
  destruct (meta_step_pulls_first E Hquiet p Hwhich Hp base tag image_path
              fs0 discovery Hmeta Hdiscover doc first rest digest meta
              Hexit Hdoc Hman Hdigest Hpull)
    as (q1 & q2 & s1 & Hstep & _ & Hrep).
  exists s1. split; [|exact Hrep].
  rewrite (pull_uenv_split E _ base tag) by (apply rfind_split_tagged, Htag).
  unfold frame, try_except, bind, ret. rewrite Hstep. reflexivity.
Qed.

End MetaPull.

(** ** An interrupt before the first launch *)

Section EarlyInterrupt.

Context (E : env).

(** C7, where the code departs from it: when Ctrl-C arrives during the
    first library call of the meta data step, no child has been started
    and the local variable [proc] is unbound; the handler fails on
    [proc.terminate()], so no line feed is written and no cancellation is
    reported. *)
Theorem interrupt_before_first_launch base tag image_path tgt pull_sqfs s :
  PyStr.has_char ":" tag = false ->
  interrupt_at E = Some (clock s) ->
  pull_uenv E (base +:+ ":" +:+ tag) image_path tgt true pull_sqfs s
    = (Raise (UnboundLocalError "proc"), tick (bind_proc None s))
  /\ trace (tick (bind_proc None s)) = trace s.
Proof.
  intros Htag Hint.
  rewrite (pull_uenv_split E _ base tag) by (apply rfind_split_tagged, Htag).
  unfold pull_meta_step. open_state s. cbn in Hint. cbn.
  rewrite Hint. cbn. rewrite Nat.eqb_refl. split; reflexivity.
Qed.

End EarlyInterrupt.

(** ** The loop that watches the image grow *)

Section Loop.

Context (E : env) (Hquiet : interrupt_at E = None).
Context (path : string) (total : Q).

Lemma lookup_snoc {A} (l : list A) x : (l ++ [x]) !! length l = Some x.
Proof. apply list_lookup_middle. reflexivity. Qed.

Lemma insert_snoc {A} (l : list A) x y :
  <[length l := y]> (l ++ [x]) = l ++ [y].
Proof. induction l as [|a l IH]; cbn; [reflexivity|]. f_equal. exact IH. Qed.

(** The processes that have finished sleep through. *)
Lemma advance_idle done ps f :
  Forall idle done ->
  advance (done ++ ps) f = (done ++ fst (advance ps f), snd (advance ps f)).
Proof.
  induction 1 as [|p done Hp Hdone IH]; cbn.
  - destruct (advance ps f); reflexivity.
  - unfold idle in Hp. rewrite Hp, IH. reflexivity.
Qed.

Lemma monitor_S fuel h :
  monitor E (S fuel) h path total =
  (rc <- poll E h;;
   match rc with
   | Some _ => ret tt
   | None =>
       time_sleep E (1 # 4);;
       draw_progress E path total;;
       monitor E fuel h path total
   end)%py.
Proof. reflexivity. Qed.

Lemma poll_snoc done pr f t k x :
  returncode pr = None ->
  poll E (length done)
    {| fs := f; procs := done ++ [pr]; trace := t; clock := k; proc := x |} =
  match pending pr with
  | [] => (Ret (Some (exit_code pr)),
           {| fs := f; procs := done ++ [reaped pr]; trace := t;
              clock := S k; proc := x |})
  | _ :: _ => (Ret None,
               {| fs := f; procs := done ++ [pr]; trace := t;
                  clock := S k; proc := x |})
  end.
Proof.
  intros Hrc. unfold poll, call. rewrite Hquiet.
  cbn [interrupted tick procs fs trace clock proc].
  rewrite lookup_snoc, Hrc.
  destruct (pending pr); cbn; [rewrite insert_snoc|]; reflexivity.
Qed.

Lemma sleep_snoc done pr st rest f t k x d :
  Forall idle done -> pending pr = st :: rest ->
  time_sleep E d
    {| fs := f; procs := done ++ [pr]; trace := t; clock := k; proc := x |} =
  (Ret tt,
   {| fs := apply_step f st; procs := done ++ [popped pr];
      trace := t ++ [ESleep d]; clock := S k; proc := x |}).
Proof.
  intros Hdone Hpend. unfold time_sleep, call. rewrite Hquiet.
  cbn [interrupted tick procs fs trace clock proc].
  rewrite (advance_idle _ _ _ Hdone). cbn [advance]. rewrite Hpend.
  unfold popped. rewrite Hpend. reflexivity.
Qed.

Lemma sleep_idle done f t k x d :
  Forall idle done ->
  time_sleep E d
    {| fs := f; procs := done; trace := t; clock := k; proc := x |} =
  (Ret tt,
   {| fs := f; procs := done; trace := t ++ [ESleep d]; clock := S k;
      proc := x |}).
Proof.
  intros Hdone. unfold time_sleep, call. rewrite Hquiet.
  cbn [interrupted tick procs fs trace clock proc].
  rewrite <- (app_nil_r done) at 1.
  rewrite (advance_idle _ _ _ Hdone). cbn. rewrite app_nil_r. reflexivity.
Qed.

Lemma communicate_snoc done pr f t k x :
  communicate E (length done)
    {| fs := f; procs := done ++ [pr]; trace := t; clock := k; proc := x |} =
  (Ret (out_text pr, err_text pr),
   {| fs := foldl apply_step f (pending pr); procs := done ++ [reaped pr];
      trace := t; clock := S k; proc := x |}).
Proof.
  unfold communicate, call. rewrite Hquiet.
  cbn [interrupted tick procs fs trace clock proc].
  rewrite lookup_snoc. cbn. rewrite insert_snoc. reflexivity.
Qed.

(** The ticks launch nothing and report nothing. *)
Lemma loop_events_silent f steps :
  launched (loop_events E path total f steps) = [] /\
  reported (loop_events E path total f steps) = [].
Proof.
  revert f. induction steps as [|st rest IH]; intros f; [split; reflexivity|].
  cbn [loop_events]. rewrite launched_app, reported_app.
  destruct (IH (apply_step f st)) as [-> ->].
  unfold tick_events.
  destruct (apply_step f st !! path); [destruct (is_tty E)|];
    split; reflexivity.
Qed.

(** Without a terminal the ticks draw nothing. *)
Lemma loop_events_no_tty f steps :
  is_tty E = false -> progress_lines (loop_events E path total f steps) = [].
Proof.
  intros Htty. revert f.
  induction steps as [|st rest IH]; intros f; [reflexivity|].
  cbn [loop_events]. rewrite progress_lines_app, IH.
  unfold tick_events. rewrite Htty.
  destruct (apply_step f st !! path); reflexivity.
Qed.

(** No division by zero: nothing is drawn, or the total is not zero. *)
Hypothesis Hdiv : is_tty E = false \/ Qeq_bool total 0 = false.

(** The body of the loop after its sleep writes what [tick_events] says. *)
Lemma draw_progress_run f ps t k x :
  exists k',
    draw_progress E path total
      {| fs := f; procs := ps; trace := t; clock := k; proc := x |} =
    (Ret tt, {| fs := f; procs := ps;
                trace := t ++ tail (tick_events E path total f);
                clock := k'; proc := x |}).
Proof.
  unfold draw_progress, tick_events, float_div. open_env E. run.
  destruct (f !! path) as [n|] eqn:Hlook; run.
  - destruct tty; run.
    + rewrite Hlook. run. destruct Hdiv as [H|H]; [discriminate|].
      rewrite H. run. eexists. reflexivity.
    + rewrite app_nil_r. eexists. reflexivity.
  - rewrite app_nil_r. eexists. reflexivity.
Qed.

(** The loop ends when the child does, within the fuel it was given: it
    returns, the child reaped, the file system as the child has left it,
    the trace longer by the ticks of [loop_events]. *)
Lemma monitor_completes steps : forall fuel f t k x pr done,
  Forall idle done ->
  pending pr = steps -> returncode pr = None ->
  (length steps < fuel)%nat ->
  exists k',
    monitor E fuel (length done) path total
      {| fs := f; procs := done ++ [pr]; trace := t; clock := k; proc := x |}
    = (Ret tt,
       {| fs := foldl apply_step f steps; procs := done ++ [reaped pr];
          trace := t ++ loop_events E path total f steps;
          clock := k'; proc := x |}).
Proof.
  induction steps as [|st rest IH];
    intros fuel f t k x pr done Hdone Hpend Hrc Hfuel;
    (destruct fuel as [|fuel]; [cbn in Hfuel; lia|]); rewrite monitor_S.
  - unfold bind. rewrite (poll_snoc _ _ _ _ _ _ Hrc), Hpend. cbn.
    rewrite app_nil_r. eexists. reflexivity.
  - unfold bind at 1. rewrite (poll_snoc _ _ _ _ _ _ Hrc), Hpend.
    unfold bind at 1. rewrite (sleep_snoc _ _ _ _ _ _ _ _ _ Hdone Hpend).
    unfold bind at 1.
    destruct (draw_progress_run (apply_step f st) (done ++ [popped pr])
                (t ++ [ESleep (1 # 4)]) (S (S k)) x) as (k1 & ->).
    destruct (IH fuel (apply_step f st)
                ((t ++ [ESleep (1 # 4)]) ++
                 tail (tick_events E path total (apply_step f st)))
                k1 x (popped pr) done Hdone)
      as (k2 & ->);
      [ unfold popped; cbn; rewrite Hpend; reflexivity
      | exact Hrc | cbn in Hfuel; lia |].
    exists k2. cbn [foldl loop_events]. unfold tick_events at 2. cbn [tail].
    rewrite <- !app_assoc. reflexivity.
Qed.

End Loop.

(** ** No run gets stuck *)

Section Sound.
Context (E : env).

Lemma shrinks_refl ps : shrinks ps ps.
Proof. split; [lia|]. intros h p Hp. exists p. split; [exact Hp | lia]. Qed.

Lemma shrinks_trans a b c : shrinks a b -> shrinks b c -> shrinks a c.
Proof.
  intros [L1 H1] [L2 H2]. split; [lia|].
  intros h p Hp. destruct (H1 h p Hp) as (p1 & Hp1 & Hl1).
  destruct (H2 h p1 Hp1) as (p2 & Hp2 & Hl2). exists p2. split; [exact Hp2 | lia].
Qed.

Lemma shrinks_snoc ps p : shrinks ps (ps ++ [p]).
Proof.
  split; [rewrite length_app; lia|].
  intros h q Hq. exists q. split; [|lia].
  rewrite lookup_app_l; [exact Hq|]. eapply lookup_lt_Some, Hq.
Qed.

Lemma shrinks_insert ps h p p' :
  ps !! h = Some p -> (length (pending p') <= length (pending p))%nat ->
  shrinks ps (<[h := p']> ps).
Proof.
  intros Hp Hl. split; [rewrite length_insert; lia|].
  intros i q Hq. destruct (decide (h = i)) as [->|Hne].
  - exists p'. rewrite list_lookup_insert_eq by (eapply lookup_lt_Some, Hq).
    split; [reflexivity|]. congruence.
  - exists q. rewrite list_lookup_insert_ne by exact Hne. split; [exact Hq | lia].
Qed.

Lemma advance_length ps f : length (fst (advance ps f)) = length ps.
Proof.
  revert f. induction ps as [|p ps IH]; intros f; [reflexivity|].
  cbn. destruct (pending p).
  - specialize (IH f). destruct (advance ps f). cbn in *. lia.
  - specialize (IH (apply_step f f0)). destruct (advance ps _). cbn in *. lia.
Qed.

Lemma advance_lookup ps f h p :
  ps !! h = Some p ->
  exists p', fst (advance ps f) !! h = Some p' /\
             length (pending p') = pred (length (pending p)).
Proof.
  revert f h. induction ps as [|a ps IH]; intros f h Hp; [discriminate|].
  cbn. destruct h as [|h]; cbn in Hp.
  - injection Hp as ->. destruct (pending p) eqn:Hpend.
    + destruct (advance ps f). exists p. rewrite Hpend. split; reflexivity.
    + destruct (advance ps _). eexists. split; [reflexivity|]. reflexivity.
  - destruct (pending a).
    + destruct (IH f h Hp) as (p' & H1 & H2). destruct (advance ps f).
      exists p'. split; assumption.
    + destruct (IH (apply_step f f0) h Hp) as (p' & H1 & H2).
      destruct (advance ps _). exists p'. split; assumption.
Qed.

Lemma shrinks_advance ps f : shrinks ps (fst (advance ps f)).
Proof.
  split; [rewrite advance_length; lia|].
  intros h p Hp. destruct (advance_lookup ps f h p Hp) as (p' & H1 & H2).
  exists p'. split; [exact H1 | lia].
Qed.

Lemma stable_alive h : stable (alive h).
Proof. intros ps ps' H [L _]. unfold alive in *. lia. Qed.

Lemma stable_bounded h n : stable (bounded h n).
Proof.
  intros ps ps' (p & Hp & Hl) [_ H]. destruct (H h p Hp) as (p' & Hp' & Hl').
  exists p'. split; [exact Hp' | lia].
Qed.

Lemma stable_true : stable (fun _ => True).
Proof. intros ps ps' _ _. exact I. Qed.

Lemma stable_and P Q : stable P -> stable Q -> stable (fun ps => P ps /\ Q ps).
Proof. intros HP HQ ps ps' [H1 H2] Hs. split; [eapply HP | eapply HQ]; eassumption. Qed.

Lemma sound_bind {A B} P (m : M A) Q (k : A -> M B) R :
  stable P ->
  sound P m Q ->
  (forall a, sound (fun ps => Q a ps /\ P ps) (k a) R) ->
  sound P (bind m k) R.
Proof.
  intros HP Hm Hk s Hv HPs. unfold bind. specialize (Hm s Hv HPs).
  destruct (m s) as [[a|e|] s1]; [|exact Hm|exact Hm].
  destruct Hm as (Hv1 & Hs1 & HQ).
  specialize (Hk a s1 Hv1 (conj HQ (HP _ _ HPs Hs1))).
  destruct (k a s1) as [[b|e|] s2]; [| |exact Hk].
  - destruct Hk as (Hv2 & Hs2 & HR). repeat split; try assumption.
    + destruct Hs1, Hs2; lia.
    + apply (shrinks_trans _ _ _ Hs1 Hs2).
  - destruct Hk as (Hv2 & Hs2). repeat split; try assumption.
    + destruct Hs1, Hs2; lia.
    + apply (shrinks_trans _ _ _ Hs1 Hs2).
Qed.

Lemma sound_weaken {A} (P P' : list process -> Prop) (m : M A)
    (Q Q' : A -> list process -> Prop) :
  sound P m Q -> (forall ps, P' ps -> P ps) ->
  (forall a ps, Q a ps -> Q' a ps) -> sound P' m Q'.
Proof.
  intros Hm HP HQ s Hv HPs. specialize (Hm s Hv (HP _ HPs)).
  destruct (m s) as [[a|e|] s1]; [|exact Hm..].
  destruct Hm as (H1 & H2 & H3). auto.
Qed.

Lemma sound_from {A} (P P' : list process -> Prop) (m : M A) Q :
  sound P m Q -> (forall ps, P' ps -> P ps) -> sound P' m Q.
Proof. intros Hm HP. apply (sound_weaken P P' m Q Q Hm HP). auto. Qed.

Lemma sound_ret {A} P (a : A) : sound P (ret a) (fun _ _ => True).
Proof. intros s Hv _. cbn. auto using shrinks_refl. Qed.

Lemma sound_lift {A} P (r : exn + A) : sound P (lift r) (fun _ _ => True).
Proof. intros s Hv _. destruct r; cbn; auto using shrinks_refl. Qed.

Lemma sound_frame {A} P (m : M A) Q : sound P m Q -> sound P (frame m) Q.
Proof.
  intros Hm s _ HPs. unfold frame.
  apply (Hm (bind_proc None s)); [intros h; discriminate | exact HPs].
Qed.

Lemma sound_try_except {A} P (body h1 : M A) (h2 : exn -> M A) Q :
  sound P body Q ->
  sound (fun _ => True) h1 Q ->
  (forall e, sound (fun _ => True) (h2 e) Q) ->
  sound P (try_except body h1 h2) Q.
Proof.
  intros Hb H1 H2 s Hv HPs. unfold try_except. specialize (Hb s Hv HPs).
  destruct (body s) as [[a|e|] s1]; [exact Hb| |exact Hb].
  destruct Hb as (Hv1 & Hs1).
  assert (Hh : forall m : M A, sound (fun _ => True) m Q ->
            match m s1 with
            | (Ret a, s') => valid s' /\ shrinks (procs s) (procs s') /\ Q a (procs s')
            | (Raise _, s') => valid s' /\ shrinks (procs s) (procs s')
            | (Stuck, _) => False
            end).
  { intros m Hm. specialize (Hm s1 Hv1 I).
    destruct (m s1) as [[a|e'|] s2]; [| |exact Hm].
    - destruct Hm as (? & ? & ?). eauto using shrinks_trans.
    - destruct Hm as (? & ?). eauto using shrinks_trans. }
  destruct e; cbn [is_Exception];
    first [apply Hh; solve [auto] | split; assumption].
Qed.

Lemma sound_try_Exception {A} P (body : M A) (h : exn -> M A) Q :
  sound P body Q ->
  (forall e, sound (fun _ => True) (h e) Q) ->
  sound P (try_Exception body h) Q.
Proof.
  intros Hb Hh s Hv HPs. unfold try_Exception. specialize (Hb s Hv HPs).
  destruct (body s) as [[a|e|] s1]; [exact Hb| |exact Hb].
  destruct Hb as (Hv1 & Hs1).
  destruct (is_Exception e); [|auto].
  specialize (Hh e s1 Hv1 I).
  destruct (h e s1) as [[a|e'|] s2]; [| |exact Hh].
  - destruct Hh as (? & ? & ?). eauto using shrinks_trans.
  - destruct Hh as (? & ?). eauto using shrinks_trans.
Qed.

(** A library call that leaves the process table and [proc] alone. *)
Lemma sound_call_plain {A} P (body : M A) :
  (forall s, procs (snd (body s)) = procs s /\ proc (snd (body s)) = proc s
             /\ fst (body s) <> Stuck) ->
  sound P (call E body) (fun _ _ => True).
Proof.
  intros Hb s Hv _. unfold call.
  destruct (interrupted (interrupt_at E) (clock s)).
  - split; [exact Hv | apply shrinks_refl].
  - destruct (Hb (tick s)) as (Hps & Hpr & Hst).
    destruct (body (tick s)) as [[a|e|] s1]; cbn in *; [| |congruence].
    + unfold valid. rewrite Hps, Hpr. auto using shrinks_refl.
    + unfold valid. rewrite Hps, Hpr. auto using shrinks_refl.
Qed.

Ltac plain :=
  apply sound_call_plain; intros s; cbn;
  repeat match goal with
  | |- context [match ?x with _ => _ end] => destruct x; cbn
  end; repeat split; discriminate.

Lemma sound_terminal_info P msg : sound P (terminal_info E msg) (fun _ _ => True).
Proof. plain. Qed.
Lemma sound_terminal_error {A} P msg Q : sound P (@terminal_error E A msg) Q.
Proof.
  intros s Hv _. cbn. destruct (interrupted (interrupt_at E) (clock s)); cbn;
    (split; [exact Hv | apply shrinks_refl]).
Qed.
Lemma sound_terminal_stdout P msg : sound P (terminal_stdout E msg) (fun _ _ => True).
Proof. plain. Qed.
Lemma sound_terminal_is_tty P : sound P (terminal_is_tty E) (fun _ _ => True).
Proof. plain. Qed.
Lemma sound_progress_bar P p w msg : sound P (progress_bar E p w msg) (fun _ _ => True).
Proof. plain. Qed.
Lemma sound_path_is_file P path : sound P (path_is_file E path) (fun _ _ => True).
Proof. plain. Qed.
Lemma sound_os_path_exists P path : sound P (os_path_exists E path) (fun _ _ => True).
Proof. plain. Qed.
Lemma sound_os_path_getsize P path : sound P (os_path_getsize E path) (fun _ _ => True).
Proof. plain. Qed.
Lemma sound_shutil_which P name : sound P (shutil_which E name) (fun _ _ => True).
Proof. plain. Qed.
Lemma sound_shutil_rmtree P path : sound P (shutil_rmtree E path) (fun _ _ => True).
Proof. plain. Qed.
Lemma sound_os_remove P path : sound P (os_remove E path) (fun _ _ => True).
Proof. plain. Qed.

Lemma sound_time_sleep P d : sound P (time_sleep E d) (fun _ _ => True).
Proof.
  intros s Hv _. cbn. destruct (interrupted (interrupt_at E) (clock s)); cbn.
  - split; [exact Hv | apply shrinks_refl].
  - pose proof (shrinks_advance (procs s) (fs s)) as Hs.
    pose proof (advance_length (procs s) (fs s)) as Hl.
    destruct (advance (procs s) (fs s)) as [ps f]. cbn [fst snd] in *.
    split; [|split; [exact Hs | exact I]].
    intros h Hh. cbn in *. rewrite Hl. apply Hv, Hh.
Qed.

Lemma sound_popen P cmd : sound P (popen E cmd) (fun h ps => alive h ps).
Proof.
  intros s Hv _. unfold popen, call.
  destruct (interrupted (interrupt_at E) (clock s)).
  - split; [exact Hv | apply shrinks_refl].
  - destruct (oras E cmd).
    + split; [exact Hv | apply shrinks_refl].
    + unfold valid, alive. cbn [log set_procs tick procs proc].
      rewrite length_app. cbn [length]. repeat split.
      * intros h Hh. specialize (Hv h Hh). lia.
      * rewrite length_app. lia.
      * apply shrinks_snoc.
      * lia.
Qed.

Lemma sound_communicate P h :
  (forall ps, P ps -> alive h ps) ->
  sound P (communicate E h) (fun _ _ => True).
Proof.
  intros Halive s Hv HP. unfold communicate, call.
  destruct (interrupted (interrupt_at E) (clock s)).
  - split; [exact Hv | apply shrinks_refl].
  - cbn [tick procs].
    destruct (lookup_lt_is_Some_2 (procs s) h (Halive _ HP)) as [p Hp].
    rewrite Hp. split; [|split; [|exact I]].
    + unfold valid. cbn [set_fs set_procs procs proc].
      intros i Hi. rewrite length_insert. apply Hv, Hi.
    + cbn [set_fs set_procs procs].
      apply (shrinks_insert _ _ p); [exact Hp | cbn; lia].
Qed.

Lemma sound_poll P h :
  (forall ps, P ps -> alive h ps) ->
  sound P (poll E h) (fun _ _ => True).
Proof.
  intros Halive s Hv HP. unfold poll, call.
  destruct (interrupted (interrupt_at E) (clock s)).
  - split; [exact Hv | apply shrinks_refl].
  - cbn [tick procs].
    destruct (lookup_lt_is_Some_2 (procs s) h (Halive _ HP)) as [p Hp].
    rewrite Hp. destruct (returncode p); [|destruct (pending p) eqn:Hpend].
    + repeat split; [exact Hv | apply shrinks_refl..].
    + split; [|split; [|exact I]].
      * unfold valid. cbn [set_procs procs proc].
        intros i Hi. rewrite length_insert. apply Hv, Hi.
      * cbn [set_procs procs].
        apply (shrinks_insert _ _ p); [exact Hp | cbn; lia].
    + repeat split; [exact Hv | apply shrinks_refl..].
Qed.

Lemma sound_terminate P h :
  (forall ps, P ps -> alive h ps) ->
  sound P (terminate E h) (fun _ _ => True).
Proof.
  intros Halive s Hv HP. unfold terminate, call.
  destruct (interrupted (interrupt_at E) (clock s)).
  - split; [exact Hv | apply shrinks_refl].
  - cbn [tick procs].
    destruct (lookup_lt_is_Some_2 (procs s) h (Halive _ HP)) as [p Hp].
    rewrite Hp. split; [|split; [|exact I]].
    + unfold valid. cbn [log set_procs procs proc].
      intros i Hi. rewrite length_insert. apply Hv, Hi.
    + cbn [log set_procs procs].
      apply (shrinks_insert _ _ p); [exact Hp |].
      destruct (returncode p); [lia|]. destruct (pending p); cbn; lia.
Qed.

Lemma sound_get_returncode P h :
  (forall ps, P ps -> alive h ps) ->
  sound P (get_returncode h) (fun _ _ => True).
Proof.
  intros Halive s Hv HP. unfold get_returncode.
  destruct (lookup_lt_is_Some_2 (procs s) h (Halive _ HP)) as [p Hp].
  rewrite Hp. auto using shrinks_refl.
Qed.

Lemma sound_loop_bound P h :
  (forall ps, P ps -> alive h ps) ->
  sound P (loop_bound h) (fun fuel ps => bounded h fuel ps).
Proof.
  intros Halive s Hv HP. unfold loop_bound.
  destruct (lookup_lt_is_Some_2 (procs s) h (Halive _ HP)) as [p Hp].
  rewrite Hp. split; [exact Hv|]. split; [apply shrinks_refl|].
  exists p. split; [exact Hp | lia].
Qed.

Lemma sound_assign_proc P h :
  (forall ps, P ps -> alive h ps) ->
  sound P (assign_proc h) (fun _ _ => True).
Proof.
  intros Halive s Hv HP. unfold assign_proc.
  split; [|split; [apply shrinks_refl | exact I]].
  intros i Hi. cbn in *. injection Hi as <-. apply Halive, HP.
Qed.

Lemma sound_read_proc P : sound P read_proc (fun h ps => alive h ps).
Proof.
  intros s Hv _. unfold read_proc. destruct (proc s) as [h|] eqn:Hh.
  - split; [exact Hv|]. split; [apply shrinks_refl | apply Hv, Hh].
  - split; [exact Hv | apply shrinks_refl].
Qed.

Ltac side :=
  let ps := fresh "ps" in
  let H := fresh "H" in
  intros ps H;
  repeat match goal with
  | H : _ /\ _ |- _ => destruct H
  end; assumption.

Ltac stab :=
  repeat first
    [ lazymatch goal with
      | |- stable (fun ps => _ /\ _) => apply stable_and
      end
    | apply stable_alive | apply stable_bounded
    | apply stable_true | assumption ].

Ltac sound_call :=
  lazymatch goal with
  | |- sound _ (ret _) _ => apply sound_ret
  | |- sound _ (lift _) _ => apply sound_lift
  | |- sound _ (terminal_info _ _) _ => apply sound_terminal_info
  | |- sound _ (terminal_error _ _) _ => apply sound_terminal_error
  | |- sound _ (terminal_stdout _ _) _ => apply sound_terminal_stdout
  | |- sound _ (terminal_is_tty _) _ => apply sound_terminal_is_tty
  | |- sound _ (progress_bar _ _ _ _) _ => apply sound_progress_bar
  | |- sound _ (path_is_file _ _) _ => apply sound_path_is_file
  | |- sound _ (os_path_exists _ _) _ => apply sound_os_path_exists
  | |- sound _ (os_path_getsize _ _) _ => apply sound_os_path_getsize
  | |- sound _ (shutil_which _ _) _ => apply sound_shutil_which
  | |- sound _ (shutil_rmtree _ _) _ => apply sound_shutil_rmtree
  | |- sound _ (os_remove _ _) _ => apply sound_os_remove
  | |- sound _ (time_sleep _ _) _ => apply sound_time_sleep
  | |- sound _ (popen _ _) _ => apply sound_popen
  | |- sound _ read_proc _ => apply sound_read_proc
  | |- sound _ (communicate _ _) _ => apply sound_communicate; side
  | |- sound _ (poll _ _) _ => apply sound_poll; side
  | |- sound _ (terminate _ _) _ => apply sound_terminate; side
  | |- sound _ (get_returncode _) _ => apply sound_get_returncode; side
  | |- sound _ (loop_bound _) _ => apply sound_loop_bound; side
  | |- sound _ (assign_proc _) _ => apply sound_assign_proc; side
  end.

Ltac sound_step :=
  lazymatch goal with
  | |- sound _ (if ?b then _ else _) _ => destruct b
  | |- sound _ (match ?x with _ => _ end) _ => destruct x
  | |- sound _ (bind _ _) _ => eapply sound_bind; [stab | | intros ?]
  | |- _ => sound_call
  end.

(** A computation whose result does not matter to what follows. *)
Lemma sound_forget {A} P (m : M A) Q :
  sound P m Q -> sound P m (fun _ _ => True).
Proof. intros H. eapply sound_weaken; [exact H | auto..]. Qed.

Lemma sound_find_oras P : stable P -> sound P (find_oras E) (fun _ _ => True).
Proof. intros HP. unfold find_oras. repeat sound_step. Qed.

Lemma sound_run_command_internal P args :
  stable P ->
  sound P (run_command_internal E args) (fun h ps => alive h ps).
Proof.
  intros HP. unfold run_command_internal.
  apply sound_try_Exception; [|intros e; apply sound_terminal_error].
  eapply sound_bind; [stab | apply sound_find_oras, HP | intros q].
  eapply sound_bind; [stab | apply sound_terminal_info | intros ?].
  apply sound_popen.
Qed.

Lemma sound_draw_progress P path total :
  stable P -> sound P (draw_progress E path total) (fun _ _ => True).
Proof. intros HP. unfold draw_progress. repeat sound_step. Qed.

(** The loop never runs out of fuel: the child has fewer steps left than
    the loop has polls. *)
Lemma sound_monitor fuel h path total :
  sound (bounded h fuel) (monitor E fuel h path total) (fun _ _ => True).
Proof.
  induction fuel as [|fuel IH].
  - intros s _ (p & _ & Hl). lia.
  - intros s Hv (p & Hp & Hl). rewrite monitor_S. unfold bind at 1.
    unfold poll, call.
    destruct (interrupted (interrupt_at E) (clock s));
      [split; [exact Hv | apply shrinks_refl]|].
    cbn [tick procs]. rewrite Hp.
    destruct (returncode p);
      [cbn; repeat split; [exact Hv | apply shrinks_refl..]|].
    destruct (pending p) as [|st rest] eqn:Hpend.
    + cbn [ret]. split; [|split; [|exact I]].
      * unfold valid. cbn [set_procs procs proc].
        intros i Hi. rewrite length_insert. apply Hv, Hi.
      * cbn [set_procs procs].
        apply (shrinks_insert _ _ p); [exact Hp | cbn; lia].
    + unfold bind at 1. unfold time_sleep, call. cbn [tick clock].
      destruct (interrupted (interrupt_at E) (S (clock s)));
        [split; [exact Hv | apply shrinks_refl]|].
      cbn [tick procs fs].
      pose proof (shrinks_advance (procs s) (fs s)) as Hs.
      pose proof (advance_length (procs s) (fs s)) as Hlen.
      destruct (advance_lookup (procs s) (fs s) h p Hp) as (p' & Hp' & Hl').
      destruct (advance (procs s) (fs s)) as [ps f]. cbn [fst snd] in *.
      match goal with
      | |- match ?k ?s1 with _ => _ end =>
          assert (Hk : sound (bounded h fuel) k (fun _ _ => True));
          [|assert (Hv1 : valid s1);
            [|assert (Hb1 : bounded h fuel (procs s1));
              [|specialize (Hk s1 Hv1 Hb1);
                assert (Hs1 : shrinks (procs s) (procs s1)) by exact Hs;
                destruct (k s1) as [[a|e|] s2]]]]
      end.
      * eapply sound_bind; [stab | apply sound_draw_progress; stab | intros ?].
        eapply sound_from; [exact IH | side].
      * intros i Hi. cbn in *. rewrite Hlen. apply Hv, Hi.
      * exists p'. cbn. split; [exact Hp'|]. rewrite Hl', Hpend in *.
        cbn in *. lia.
      * destruct Hk as (? & ? & ?). eauto using shrinks_trans.
      * destruct Hk as (? & ?). eauto using shrinks_trans.
      * exact Hk.
Qed.

(** The steps of [pull_uenv], taken apart down to their library calls. *)
Ltac sound_block :=
  lazymatch goal with
  | |- sound _ (run_command_internal _ _) _ =>
      apply sound_run_command_internal; stab
  | |- sound _ (monitor _ _ _ _ _) _ =>
      eapply sound_from; [apply sound_monitor | side]
  | |- _ => sound_step
  end.

Lemma sound_pull_meta_step base tag image_path :
  sound (fun _ => True) (pull_meta_step E base tag image_path)
    (fun _ _ => True).
Proof. unfold pull_meta_step. repeat sound_block. Qed.

Lemma sound_pull_sqfs_step base tag image_path tgt :
  sound (fun _ => True) (pull_sqfs_step E base tag image_path tgt)
    (fun _ _ => True).
Proof. unfold pull_sqfs_step. cbv zeta. repeat sound_block. Qed.

Lemma sound_handler (m : M unit) :
  m = (h <- read_proc;; terminate E h;; terminal_stdout E "";;
       terminal_error E "image pull cancelled by user.")%py \/
  (exists e, m =
     (h <- read_proc;; terminate E h;; terminal_stdout E "";;
      terminal_error E ("image pull failed with unknown exception: "
                        +:+ exc_text E e))%py) ->
  sound (fun _ => True) m (fun _ _ => True).
Proof.
  intros [-> | (e & ->)]; repeat sound_step.
Qed.

(** [pull_uenv] never gets stuck: for every environment, address and
    flags it returns or raises, interrupts included. *)
Theorem pull_uenv_never_stuck addr image_path tgt pull_meta pull_sqfs fs0 :
  fst (pull_uenv E addr image_path tgt pull_meta pull_sqfs (init_state fs0))
  <> Stuck.
Proof.
  assert (H : sound (fun _ => True)
                (pull_uenv E addr image_path tgt pull_meta pull_sqfs)
                (fun _ _ => True)).
  { unfold pull_uenv. apply sound_frame. apply sound_try_except.
    - repeat lazymatch goal with
             | |- sound _ (pull_meta_step _ _ _ _) _ =>
                 eapply sound_from;
                 [apply sound_pull_meta_step | intros; exact I]
             | |- sound _ (pull_sqfs_step _ _ _ _ _) _ =>
                 eapply sound_from;
                 [apply sound_pull_sqfs_step | intros; exact I]
             | |- _ => sound_step
             end.
    - apply sound_handler. left. reflexivity.
    - intros e. apply sound_handler. right. exists e. reflexivity. }
  specialize (H (init_state fs0)).
  destruct (pull_uenv E addr image_path tgt pull_meta pull_sqfs
              (init_state fs0)) as [[a|e|] s'];
    cbn; [discriminate..|].
  intros _. apply H; [intros h; discriminate | exact I].
Qed.

(** The bodies of the two [try] statements do not get stuck either. *)
Lemma sound_attempt addr image_path tgt pull_meta pull_sqfs :
  sound (fun _ => True) (attempt E addr image_path tgt pull_meta pull_sqfs)
    (fun _ _ => True).
Proof.
  unfold attempt. cbv zeta.
  repeat lazymatch goal with
         | |- sound _ (pull_meta_step _ _ _ _) _ =>
             eapply sound_from;
             [apply sound_pull_meta_step | intros; exact I]
         | |- sound _ (pull_sqfs_step _ _ _ _ _) _ =>
             eapply sound_from;
             [apply sound_pull_sqfs_step | intros; exact I]
         | |- _ => sound_step
         end.
Qed.


End Sound.

(** ** The image: pull, progress and verdict *)

Section Image.

Context (E : env) (Hquiet : interrupt_at E = None).
Context (p : string) (Hwhich : which_oras E = Some p) (Hp : p <> "").
Context (base tag image_path : string) (tgt : target) (c : child).

(** The client answers the pull of [base:tag] with [c]. *)
Hypothesis Hpull :
  forall q,
    oras E (q :: pull_args image_path (base +:+ ":" +:+ tag)) = Spawned c.

(** No division by zero: nothing is drawn, or the expected size is not
    zero. *)
Hypothesis Hdiv : is_tty E = false \/ size tgt <> 0.

Let sqfs_path : string := image_path +:+ "/store.squashfs".
Let final_bar : Q * Z * string :=
  (1%Q, 50, mb_label (mb (size tgt)) (mb (size tgt))).
Let failure : string :=
  "image pull failed: " +:+ child_stderr c +:+ nl +:+
  error_message_from_stderr E (child_stderr c).

(** Lines 113 to 132, from the launch on. *)
Lemma image_pull_runs done f t k x :
  Forall idle done ->
  exists q s',
    (h <- run_command_internal E
            ["pull"; "-o"; image_path; base +:+ ":" +:+ tag];;
     assign_proc h;;
     fuel <- loop_bound h;;
     monitor E fuel h sqfs_path (mb (size tgt));;
     r <- communicate E h;;
     (let '(stdout, stderr) := r in
      rc <- get_returncode h;;
      (if is_zero rc
       then progress_bar E 1 50 (mb_label (mb (size tgt)) (mb (size tgt)));;
            terminal_stdout E "";;
            terminal_info E ("oras command successful: " +:+ stdout)
       else terminal_error E ("image pull failed: " +:+ stderr +:+ nl +:+
                              error_message_from_stderr E stderr))))%py
      {| fs := f; procs := done; trace := t; clock := k; proc := x |}
    = (if child_exit c =? 0 then Ret tt else Raise (SystemExit 1), s')
    /\ launched (trace s') =
         launched t ++ [q :: pull_args image_path (base +:+ ":" +:+ tag)]
    /\ reported (trace s') =
         reported t ++ (if child_exit c =? 0 then [] else [failure])
    /\ progress_lines (trace s') =
         progress_lines t ++
         progress_lines
           (loop_events E sqfs_path (mb (size tgt)) f (steps c)) ++
         (if child_exit c =? 0 then [final_bar] else []).
Proof.
  intros Hdone. subst sqfs_path final_bar failure.
  assert (Hdiv' : is_tty E = false \/ Qeq_bool (mb (size tgt)) 0 = false).
  { destruct Hdiv as [H|H]; [left; exact H | right; apply mb_nonzero, H]. }
  destruct (run_command_internal_spawned E Hquiet
              (pull_args image_path (base +:+ ":" +:+ tag)) c p
              {| fs := f; procs := done; trace := t; clock := k; proc := x |}
              Hwhich Hp Hpull)
    as (q & evs & k2 & Hr & Hq).
  cbn [fs procs trace clock proc] in Hr.
  unfold bind at 1.
  change ["pull"; "-o"; image_path; base +:+ ":" +:+ tag]
    with (pull_args image_path (base +:+ ":" +:+ tag)).
  rewrite Hr.
  unfold bind at 1, assign_proc, bind_proc. cbn [fs procs trace clock proc].
  unfold bind at 1, loop_bound. cbn [fs procs trace clock proc].
  rewrite lookup_snoc. cbn [started pending].
  unfold bind at 1.
  destruct (monitor_completes E Hquiet (image_path +:+ "/store.squashfs")
              (mb (size tgt)) Hdiv' (steps c) (S (length (steps c))) f
              (t ++ evs ++
               [EPopen (length done)
                  (q :: pull_args image_path (base +:+ ":" +:+ tag))])
              k2 (Some (length done))
              (started (q :: pull_args image_path (base +:+ ":" +:+ tag)) c)
              done Hdone eq_refl eq_refl)
    as (k3 & ->); [lia|].
  unfold bind at 1. rewrite (communicate_snoc E Hquiet).
  cbn [reaped pending foldl out_text err_text started].
  unfold bind at 1, get_returncode. cbn [fs procs trace clock proc].
  rewrite lookup_snoc. cbn [reaped returncode exit_code started].
  exists q.
  destruct (loop_events_silent E (image_path +:+ "/store.squashfs")
              (mb (size tgt)) f (steps c)) as [Hl Hr'].
  apply info_silent in Hq as (Hq1 & Hq2 & Hq3).
  destruct (child_exit c) eqn:Hexit; cbn [is_zero Z.eqb];
    unfold bind, progress_bar, terminal_stdout, terminal_info,
      terminal_error, call;
    rewrite Hquiet; cbn;
    eexists; (split; [reflexivity|]); cbn [trace];
    rewrite <- ?app_assoc;
    rewrite ?launched_app, ?reported_app, ?progress_lines_app;
    rewrite Hq1, Hq2, Hq3, Hl, Hr';
    unfold launched, reported, progress_lines; cbn [omap list_omap app];
    rewrite ?app_nil_r; repeat split; reflexivity.
Qed.

(** A call for the image alone: it returns if the child exits with code
    zero and otherwise aborts with the raw error output in its report;
    the bars are those of the ticks, then the final one on success. *)
Lemma image_pull_verdict fs0 :
  PyStr.has_char ":" tag = false ->
  (forall z, fs0 !! sqfs_path <> Some (Dir z)) ->
  exists q s',
    pull_uenv E (base +:+ ":" +:+ tag) image_path tgt false true
      (init_state fs0)
    = (if child_exit c =? 0 then Ret tt else Raise (SystemExit 1), s')
    /\ launched (trace s') =
         [q :: pull_args image_path (base +:+ ":" +:+ tag)]
    /\ reported (trace s') = (if child_exit c =? 0 then [] else [failure])
    /\ progress_lines (trace s') =
         progress_lines
           (loop_events E sqfs_path (mb (size tgt))
              (cleaned_sqfs image_path fs0) (steps c)) ++
         (if child_exit c =? 0 then [final_bar] else []).
Proof.
  intros Htag Hsqfs.
  rewrite (pull_uenv_split E _ base tag) by (apply rfind_split_tagged, Htag).
  unfold frame, try_except. unfold bind at 1. cbn [ret].
  unfold pull_sqfs_step, cleaned_sqfs. fold sqfs_path.
  unfold bind at 1. unfold os_path_exists at 1, call at 1.
  rewrite Hquiet. cbn [interrupted init_state bind_proc tick fs procs trace
                       clock proc].
  destruct (fs0 !! sqfs_path) as [[z|z]|] eqn:Hlook;
    [|destruct (Hsqfs z eq_refl)|].
  - unfold bind at 1. unfold bind at 1. unfold os_remove at 1, call at 1.
    rewrite Hquiet. cbn [interrupted tick log set_fs fs procs trace clock
                         proc].
    rewrite Hlook. cbn [fst snd].
    rewrite (sleep_idle E Hquiet) by constructor.
    destruct (image_pull_runs [] (delete sqfs_path fs0)
                (([] ++ [ERemove sqfs_path]) ++ [ESleep (1 # 20)]) 3%nat None
                ltac:(constructor))
      as (q & s' & -> & Hobs).
    exists q, s'. split; [destruct (child_exit c =? 0); reflexivity|].
    exact Hobs.
  - unfold bind at 1. cbn [ret].
    destruct (image_pull_runs [] fs0 [] 1%nat None ltac:(constructor))
      as (q & s' & -> & Hobs).
    exists q, s'. split; [destruct (child_exit c =? 0); reflexivity|].
    exact Hobs.
Qed.

End Image.

(** ** Progress output without a terminal: the whole run *)

Section Silent.

Context (E : env) (Htty : is_tty E = false) (tgt : target).

(** C5. Without a terminal the loop of [pull_uenv] draws no progress line,
    whatever the size of the watched file and the expected total, and
    whatever else happens during the run; the one line a run can draw is
    the final bar, which line 127 draws without asking for a terminal.  A
    call for the image that runs to its end draws it exactly when the
    child has exited with code zero. *)
Theorem no_tick_progress_without_tty :
  (forall addr image_path pull_meta pull_sqfs s,
     let s' := snd (pull_uenv E addr image_path tgt pull_meta pull_sqfs s) in
     progress_lines (trace s') = progress_lines (trace s) \/
     progress_lines (trace s') =
       progress_lines (trace s) ++
       [(1%Q, 50, mb_label (mb (size tgt)) (mb (size tgt)))])
  /\ (forall p base tag image_path c fs0,
        interrupt_at E = None ->
        which_oras E = Some p -> p <> "" ->
        PyStr.has_char ":" tag = false ->
        (forall q,
           oras E (q :: pull_args image_path (base +:+ ":" +:+ tag))
             = Spawned c) ->
        (forall z,
           fs0 !! (image_path +:+ "/store.squashfs") <> Some (Dir z)) ->
        progress_lines
          (trace (snd (pull_uenv E (base +:+ ":" +:+ tag) image_path tgt
                         false true (init_state fs0)))) =
        if child_exit c =? 0
        then [(1%Q, 50, mb_label (mb (size tgt)) (mb (size tgt)))]
        else []).
Proof.
  split.
  - intros addr image_path pull_meta pull_sqfs s.
    apply (pull_uenv_draws_at_most_final E Htty).
  - intros p base tag image_path c fs0 Hquiet Hwhich Hp Htag Hpull Hsqfs.
    destruct (image_pull_verdict E Hquiet p Hwhich Hp base tag image_path
                tgt c Hpull (or_introl Htty) fs0 Htag Hsqfs)
      as (q & s' & Hrun & _ & _ & Hprog).
    rewrite Hrun. cbn [snd]. rewrite Hprog.
    rewrite (loop_events_no_tty E _ _ _ _ Htty). reflexivity.
Qed.

End Silent.

(** ** What every call keeps *)

(** The rules of [ensures] for a relation that composes. *)
Section Ensures.

Context (Q : state -> ending -> state -> Prop).
Hypothesis Q_trans :
  forall s s1 o s2, Q s Returned s1 -> Q s1 o s2 -> Q s o s2.
Hypothesis Q_catch :
  forall s e s1 o s2,
    is_Exception e = true -> Q s (Raised e) s1 -> Q s1 o s2 -> Q s o s2.

Lemma ensures_bind {A B} (m : M A) (k : A -> M B) :
  ensures Q m -> (forall a, ensures Q (k a)) -> ensures Q (bind m k).
Proof.
  intros Hm Hk s. specialize (Hm s). unfold bind.
  destruct (m s) as [[a|e|] s1]; cbn [fst snd ending_of] in *.
  - eapply Q_trans; [exact Hm | apply Hk].
  - exact Hm.
  - exact Hm.
Qed.

Lemma ensures_try_Exception {A} (body : M A) (h : exn -> M A) :
  ensures Q body -> (forall e, ensures Q (h e)) ->
  ensures Q (try_Exception body h).
Proof.
  intros Hb Hh s. specialize (Hb s). unfold try_Exception.
  destruct (body s) as [[a|e|] s1]; cbn [fst snd ending_of] in *;
    try exact Hb.
  destruct (is_Exception e) eqn:He; [|exact Hb].
  eapply Q_catch; [exact He | exact Hb | apply Hh].
Qed.

End Ensures.

(** [tidy] composes, and every library call but [Popen] is tidy. *)
Section Tidy.

Context (E : env) (okev : event -> Prop).

Lemma errors_match_app o evs1 evs2 :
  reported evs1 = [] -> errors_match o evs2 -> errors_match o (evs1 ++ evs2).
Proof.
  intros H1 H2. destruct o as [|[]|]; cbn in *;
    try (rewrite reported_app, H1, H2; reflexivity).
  destruct H2 as (-> & evs' & msg & -> & Hr). split; [reflexivity|].
  exists (evs1 ++ evs'), msg. split; [apply app_assoc|].
  rewrite reported_app, H1, Hr. reflexivity.
Qed.

Lemma interrupt_match_trans o k k1 k2 :
  (k <= k1)%nat -> (k1 <= k2)%nat ->
  interrupt_match E Returned k k1 -> interrupt_match E o k1 k2 ->
  interrupt_match E o k k2.
Proof.
  intros Hk Hk1 H1 H2. destruct o as [|[]|]; cbn in *;
    try (intros n Hn Hle; apply (H2 n Hn), (H1 n Hn Hle)).
  destruct H2 as (n & Hn & Hle). exists n. split; [exact Hn | lia].
Qed.

Lemma tidy_trans s s1 o s2 :
  tidy E okev s Returned s1 -> tidy E okev s1 o s2 -> tidy E okev s o s2.
Proof.
  intros ((evs1 & Ht1 & Hok1 & He1 & Hl1) & Hp1 & Hc1 & Hi1)
         ((evs2 & Ht2 & Hok2 & He2 & Hl2) & Hp2 & Hc2 & Hi2).
  split; [|split; [|split]].
  - exists (evs1 ++ evs2). rewrite Ht2, Ht1, app_assoc.
    split; [reflexivity|]. split; [apply Forall_app; auto|].
    split; [apply errors_match_app; assumption|].
    intros Hnone. rewrite launched_app, (Hl2 Hnone).
    destruct (proc s1) eqn:Hs1.
    + destruct Hp2; [discriminate | exact Hnone].
    + rewrite Hl1; reflexivity.
  - auto.
  - lia.
  - eapply interrupt_match_trans; eassumption.
Qed.

Lemma tidy_catch s e s1 o s2 :
  is_Exception e = true ->
  tidy E okev s (Raised e) s1 -> tidy E okev s1 o s2 -> tidy E okev s o s2.
Proof.
  intros He ((evs1 & Ht1 & Hok1 & He1 & Hl1) & Hp1 & Hc1 & Hi1).
  apply tidy_trans.
  split; [|split; [|split]]; try assumption.
  - exists evs1. repeat split; try assumption.
    destruct e; try discriminate; exact He1.
  - destruct e; try discriminate; exact Hi1.
Qed.


Hypothesis ok_info : forall msg, okev (EInfo msg).
Hypothesis ok_error : forall msg, okev (EError msg).

Lemma tidy_pure s o :
  (forall c, o <> Raised (SystemExit c)) -> o <> Raised KeyboardInterrupt ->
  tidy E okev s o s.
Proof.
  intros Hexit Hint. split; [|split; [|split]]; [|auto|lia|].
  - exists []. rewrite app_nil_r. repeat split; [constructor|].
    destruct o as [|[]|]; try reflexivity. destruct (Hexit code eq_refl).
  - destruct o as [|[]|]; cbn; try (intros; assumption).
    destruct Hint; reflexivity.
Qed.

Lemma tidy_ret {A} (a : A) : ensures (tidy E okev) (ret a).
Proof. intros s. apply tidy_pure; discriminate. Qed.

Lemma tidy_stuck {A} : ensures (tidy E okev) (@stuck A).
Proof. intros s. apply tidy_pure; discriminate. Qed.

Lemma tidy_lift {A} (r : exn + A) :
  (forall e, r = inl e -> is_Exception e = true) ->
  ensures (tidy E okev) (lift r).
Proof.
  intros Hr s. destruct r as [e|a]; cbn.
  - specialize (Hr e eq_refl).
    apply tidy_pure; destruct e; discriminate.
  - apply tidy_pure; discriminate.
Qed.

Lemma tidy_assign_proc h : ensures (tidy E okev) (assign_proc h).
Proof.
  intros s. cbn. split; [|split; [|split]]; cbn; [|discriminate|lia|auto].
  exists []. rewrite app_nil_r. repeat split. constructor.
Qed.

Lemma tidy_read_proc : ensures (tidy E okev) read_proc.
Proof.
  intros s. unfold read_proc. destruct (proc s); apply tidy_pure; discriminate.
Qed.

Lemma tidy_get_returncode h : ensures (tidy E okev) (get_returncode h).
Proof.
  intros s. unfold get_returncode.
  destruct (procs s !! h); apply tidy_pure; discriminate.
Qed.

Lemma tidy_loop_bound h : ensures (tidy E okev) (loop_bound h).
Proof.
  intros s. unfold loop_bound.
  destruct (procs s !! h); apply tidy_pure; discriminate.
Qed.

(** A library call that launches nothing. *)
Lemma tidy_call {A} (body : M A) :
  (forall s,
     exists evs,
       trace (snd (body s)) = trace s ++ evs /\ Forall okev evs /\
       errors_match (ending_of (fst (body s))) evs /\ launched evs = [] /\
       proc (snd (body s)) = proc s /\ clock (snd (body s)) = clock s /\
       fst (body s) <> Raise KeyboardInterrupt) ->
  ensures (tidy E okev) (call E body).
Proof.
  intros Hbody s. unfold call.
  destruct (interrupted (interrupt_at E) (clock s)) eqn:Hint.
  - cbn. unfold interrupted in Hint.
    destruct (interrupt_at E) as [n|] eqn:Hat; [|discriminate].
    apply Nat.eqb_eq in Hint. subst n.
    split; [|split; [|split]]; cbn; [|auto|lia|].
    + exists []. rewrite app_nil_r. repeat split. constructor.
    + exists (clock s). split; [exact Hat | lia].
  - destruct (Hbody (tick s)) as (evs & Ht & Hok & Herr & Hl & Hp & Hc & Hki).
    destruct (body (tick s)) as [o s']. cbn [fst snd] in *.
    split; [|split; [|split]].
    + exists evs. repeat split; try assumption. intros _. exact Hl.
    + rewrite Hp. auto.
    + rewrite Hc. cbn. lia.
    + rewrite Hc. cbn [tick clock].
      assert (Hn : forall n, interrupt_at E = Some n -> (clock s <= n)%nat ->
                   (S (clock s) <= n)%nat).
      { intros n Hat Hle. unfold interrupted in Hint. rewrite Hat in Hint.
        apply Nat.eqb_neq in Hint. lia. }
      destruct o as [a|[]|]; cbn; try exact Hn.
      destruct Hki; reflexivity.
Qed.

Ltac quiet_call :=
  apply tidy_call; intros s; cbn;
  repeat match goal with
         | |- context [match ?x with _ => _ end] => destruct x
         end;
  cbn;
  first [ exists []; split; [symmetry; apply app_nil_r|]
        | eexists [_]; split; [reflexivity|] ];
  repeat split; try reflexivity; try discriminate;
  try (repeat constructor; auto; fail).

Lemma tidy_terminal_info msg : ensures (tidy E okev) (terminal_info E msg).
Proof. quiet_call. Qed.

Lemma tidy_terminal_error {A} msg :
  ensures (tidy E okev) (@terminal_error E A msg).
Proof.
  apply tidy_call; intros s; cbn. eexists [_].
  repeat split; try reflexivity; try discriminate.
  - repeat constructor. apply ok_error.
  - exists [], msg. split; reflexivity.
Qed.

Lemma tidy_terminal_stdout msg :
  okev (EStdout msg) -> ensures (tidy E okev) (terminal_stdout E msg).
Proof. intros Hok. quiet_call. Qed.

Lemma tidy_terminal_is_tty : ensures (tidy E okev) (terminal_is_tty E).
Proof. quiet_call. Qed.

Lemma tidy_progress_bar p w msg :
  okev (EProgressBar p w msg) -> ensures (tidy E okev) (progress_bar E p w msg).
Proof. intros Hok. quiet_call. Qed.

Lemma tidy_path_is_file path : ensures (tidy E okev) (path_is_file E path).
Proof. quiet_call. Qed.

Lemma tidy_os_path_exists path : ensures (tidy E okev) (os_path_exists E path).
Proof. quiet_call. Qed.

Lemma tidy_os_path_getsize path :
  ensures (tidy E okev) (os_path_getsize E path).
Proof. quiet_call. Qed.

Lemma tidy_shutil_which name : ensures (tidy E okev) (shutil_which E name).
Proof. quiet_call. Qed.

Lemma tidy_shutil_rmtree path :
  okev (ERmtree path) -> ensures (tidy E okev) (shutil_rmtree E path).
Proof. intros Hok. quiet_call. Qed.

Lemma tidy_os_remove path :
  okev (ERemove path) -> ensures (tidy E okev) (os_remove E path).
Proof. intros Hok. quiet_call. Qed.

Lemma tidy_time_sleep d :
  okev (ESleep d) -> ensures (tidy E okev) (time_sleep E d).
Proof.
  intros Hok. apply tidy_call; intros s; cbn.
  destruct (advance (procs s) (fs s)). cbn. eexists [_].
  repeat split; try reflexivity; try discriminate. repeat constructor; auto.
Qed.

Lemma tidy_communicate h : ensures (tidy E okev) (communicate E h).
Proof. quiet_call. Qed.

Lemma tidy_poll h : ensures (tidy E okev) (poll E h).
Proof. quiet_call. Qed.

Lemma tidy_terminate h :
  okev (ETerminate h) -> ensures (tidy E okev) (terminate E h).
Proof. intros Hok. quiet_call. Qed.

End Tidy.

(** The launch: [Popen] binds no variable, the assignment to [proc] that
    follows it does. *)
Section Launching.

Context (E : env) (okev : event -> Prop).
Hypothesis ok_info : forall msg, okev (EInfo msg).
Hypothesis ok_error : forall msg, okev (EError msg).

Let tidy_bind {A B} (m : M A) (k : A -> M B) :=
  ensures_bind (tidy E okev) (tidy_trans E okev) m k.

Lemma tidy_find_oras : ensures (tidy E okev) (find_oras E).
Proof.
  unfold find_oras.
  apply tidy_bind; [apply tidy_terminal_info, ok_info | intros _].
  apply tidy_bind; [apply tidy_path_is_file | intros found].
  destruct found.
  - apply tidy_bind; [apply tidy_terminal_info, ok_info | intros _].
    apply tidy_ret.
  - apply tidy_bind; [apply tidy_terminal_info, ok_info | intros _].
    apply tidy_bind; [apply tidy_shutil_which | intros [[|a p]|]].
    + apply tidy_terminal_error, ok_error.
    + apply tidy_bind; [apply tidy_terminal_info, ok_info | intros _].
      apply tidy_ret.
    + apply tidy_terminal_error, ok_error.
Qed.

Lemma popen_tidy cmd s :
  (forall h, okev (EPopen h cmd)) ->
  match popen E cmd s with
  | (Ret h, s1) => tidy E okev s Returned (bind_proc (Some h) s1)
  | (o, s1) => tidy E okev s (ending_of o) s1
  end.
Proof.
  intros Hok. unfold popen, call.
  destruct (interrupted (interrupt_at E) (clock s)) eqn:Hint.
  - unfold interrupted in Hint.
    destruct (interrupt_at E) as [n|] eqn:Hat; [|discriminate].
    apply Nat.eqb_eq in Hint. subst n.
    split; [|split; [|split]]; cbn; [|auto|lia|].
    + exists []. rewrite app_nil_r. repeat split. constructor.
    + exists (clock s). split; [exact Hat | lia].
  - assert (Hn : forall n, interrupt_at E = Some n -> (clock s <= n)%nat ->
                 (S (clock s) <= n)%nat).
    { intros n Hat Hle. unfold interrupted in Hint. rewrite Hat in Hint.
      apply Nat.eqb_neq in Hint. lia. }
    cbn. destruct (oras E cmd) as [text|c]; cbn.
    + split; [|split; [|split]]; cbn; [|auto|lia|exact Hn].
      exists []. rewrite app_nil_r. repeat split. constructor.
    + split; [|split; [|split]]; cbn; [|discriminate|lia|exact Hn].
      eexists [_]. repeat split; [|discriminate]. repeat constructor.
      apply Hok.
Qed.

Lemma launch_tidy args s :
  (forall q h, okev (EPopen h (q :: args))) ->
  match run_command_internal E args s with
  | (Ret h, s1) => tidy E okev s Returned (bind_proc (Some h) s1)
  | (o, s1) => tidy E okev s (ending_of o) s1
  end.
Proof.
  intros Hok. unfold run_command_internal, try_Exception.
  assert (Hh : forall e s1 o,
             is_Exception e = true -> tidy E okev s (Raised e) s1 ->
             o = terminal_error (A:=nat) E
                   ("an unknown error occured with the oras client: "
                    +:+ exc_text E e) s1 ->
             match o with
             | (Ret h, s2) => tidy E okev s Returned (bind_proc (Some h) s2)
             | (o', s2) => tidy E okev s (ending_of o') s2
             end).
  { intros e s1 o He Hs ->.
    pose proof (tidy_terminal_error E okev ok_error (A:=nat)
                  ("an unknown error occured with the oras client: "
                   +:+ exc_text E e) s1) as Ht.
    destruct (terminal_error E _ s1) as [[h|e'|] s2] eqn:Hr;
      cbn [fst snd ending_of] in Ht.
    - unfold terminal_error, call in Hr.
      destruct (interrupted _ _); discriminate.
    - eapply tidy_catch; eassumption.
    - eapply tidy_catch; eassumption. }
  unfold bind at 1.
  pose proof (tidy_find_oras s) as Hf.
  destruct (find_oras E s) as [[q|e|] s1]; cbn [fst snd ending_of] in Hf.
  - unfold bind at 1.
    pose proof (tidy_terminal_info E okev ok_info
                  ("calling oras: " +:+ PyStr.join " " ([q] ++ args)) s1)
      as Hi.
    destruct (terminal_info E _ s1) as [[[]|e|] s2];
      cbn [fst snd ending_of] in Hi.
    + pose proof (popen_tidy ([q] ++ args) s2 (Hok q)) as Hp.
      destruct (popen E ([q] ++ args) s2) as [[h|e|] s3].
      * eapply tidy_trans; [|exact Hp].
        eapply tidy_trans; eassumption.
      * assert (Hs : tidy E okev s (Raised e) s3).
        { eapply tidy_trans; [|exact Hp]. eapply tidy_trans; eassumption. }
        destruct (is_Exception e) eqn:He; [|exact Hs].
        eapply Hh; [exact He | exact Hs | reflexivity].
      * eapply tidy_trans; [|exact Hp]. eapply tidy_trans; eassumption.
    + assert (Hs : tidy E okev s (Raised e) s2).
      { eapply tidy_trans; eassumption. }
      destruct (is_Exception e) eqn:He; [|exact Hs].
      eapply Hh; [exact He | exact Hs | reflexivity].
    + eapply tidy_trans; eassumption.
  - destruct (is_Exception e) eqn:He; [|exact Hf].
    eapply Hh; [exact He | exact Hf | reflexivity].
  - exact Hf.
Qed.

Lemma tidy_launch {B} args (rest : nat -> M B) :
  (forall q h, okev (EPopen h (q :: args))) ->
  (forall h, ensures (tidy E okev) (rest h)) ->
  ensures (tidy E okev)
    (h <- run_command_internal E args;; assign_proc h;; rest h).
Proof.
  intros Hok Hrest s. pose proof (launch_tidy args s Hok) as Hl.
  unfold bind, assign_proc.
  destruct (run_command_internal E args s) as [[h|e|] s1];
    cbn [fst snd ending_of]; try exact Hl.
  eapply tidy_trans; [exact Hl | apply Hrest].
Qed.

End Launching.

(** The operations on decoded values raise exceptions of class
    [Exception] only. *)
Section Raises.


Lemma list_item_raises {A} (l : list A) i e :
  PyVal.list_item l i = inl e -> is_Exception e = true.
Proof. unfold PyVal.list_item. destruct (l !! i); intros [= <-]; reflexivity. Qed.

Lemma json_loads_raises text e :
  PyVal.json_loads text = inl e -> is_Exception e = true.
Proof.
  unfold PyVal.json_loads. destruct (JsonDecoder.loads text);
    intros [= <-]; reflexivity.
Qed.

Lemma getitem_str_raises v k e :
  PyVal.getitem_str v k = inl e -> is_Exception e = true.
Proof.
  unfold PyVal.getitem_str. destruct v; try (intros [= <-]; reflexivity).
  destruct (PyDict.get k _); intros [= <-]; reflexivity.
Qed.

Lemma getitem_0_raises v e :
  PyVal.getitem_0 v = inl e -> is_Exception e = true.
Proof.
  unfold PyVal.getitem_0. destruct v; try (intros [= <-]; reflexivity).
  - destruct (PyStr.first_char _); intros [= <-]; reflexivity.
  - apply list_item_raises.
Qed.

Lemma len_raises v e : PyVal.len v = inl e -> is_Exception e = true.
Proof. unfold PyVal.len. destruct v; intros [= <-]; reflexivity. Qed.

Lemma float_div_raises a b e : float_div a b = inl e -> is_Exception e = true.
Proof.
  unfold float_div. destruct (Qeq_bool b 0); intros [= <-]; reflexivity.
Qed.

End Raises.

(** One step of a proof that a computation is tidy, by the shape of the
    computation. *)
Ltac tidy_side :=
  try solve [ exact (fun _ => I) | exact I | assumption
            | cbn; auto
            | intros; cbn; eauto 8 ].

Ltac tidy_popen :=
  intros ? ?; eexists;
  first [ left; split; reflexivity
        | right; left; split; [reflexivity | eexists; reflexivity]
        | right; right; split; reflexivity ].

Ltac tidy_prim :=
  lazymatch goal with
  | |- ensures _ (ret _) => apply tidy_ret
  | |- ensures _ stuck => apply tidy_stuck
  | |- ensures _ (lift (PyVal.list_item _ _)) =>
      apply tidy_lift, list_item_raises
  | |- ensures _ (lift (PyVal.json_loads _)) =>
      apply tidy_lift, json_loads_raises
  | |- ensures _ (lift (PyVal.getitem_str _ _)) =>
      apply tidy_lift, getitem_str_raises
  | |- ensures _ (lift (PyVal.getitem_0 _)) =>
      apply tidy_lift, getitem_0_raises
  | |- ensures _ (lift (PyVal.len _)) => apply tidy_lift, len_raises
  | |- ensures _ (lift (float_div _ _)) => apply tidy_lift, float_div_raises
  | |- ensures _ (assign_proc _) => apply tidy_assign_proc
  | |- ensures _ read_proc => apply tidy_read_proc
  | |- ensures _ (get_returncode _) => apply tidy_get_returncode
  | |- ensures _ (loop_bound _) => apply tidy_loop_bound
  | |- ensures _ (terminal_info _ _) => apply tidy_terminal_info; tidy_side
  | |- ensures _ (terminal_error _ _) => apply tidy_terminal_error; tidy_side
  | |- ensures _ (terminal_stdout _ _) =>
      apply tidy_terminal_stdout; tidy_side
  | |- ensures _ (terminal_is_tty _) => apply tidy_terminal_is_tty
  | |- ensures _ (progress_bar _ _ _ _) => apply tidy_progress_bar; tidy_side
  | |- ensures _ (os_path_exists _ _) => apply tidy_os_path_exists
  | |- ensures _ (os_path_getsize _ _) => apply tidy_os_path_getsize
  | |- ensures _ (shutil_rmtree _ _) => apply tidy_shutil_rmtree; tidy_side
  | |- ensures _ (os_remove _ _) => apply tidy_os_remove; tidy_side
  | |- ensures _ (time_sleep _ _) => apply tidy_time_sleep; tidy_side
  | |- ensures _ (communicate _ _) => apply tidy_communicate
  | |- ensures _ (poll _ _) => apply tidy_poll
  | |- ensures _ (terminate _ _) => apply tidy_terminate; tidy_side
  end.

Ltac tidy_step :=
  lazymatch goal with
  | |- ensures _ (bind (run_command_internal _ _) _) =>
      apply tidy_launch; [tidy_side | tidy_side | tidy_popen | intros ?]
  | |- ensures _ (bind _ _) =>
      apply ensures_bind; [apply tidy_trans | | intros ?]
  | |- ensures _ (if ?b then _ else _) => destruct b
  | |- ensures _ (let '(_, _) := ?r in _) => destruct r
  | |- ensures _ (match ?x with _ => _ end) => destruct x
  | |- _ => tidy_prim
  end.

(** The loop is tidy, whatever else is admitted, as long as its pauses
    and its bars are. *)
Section Watching.

Context (E : env) (okev : event -> Prop).
Hypothesis ok_info : forall msg, okev (EInfo msg).
Hypothesis ok_error : forall msg, okev (EError msg).
Hypothesis ok_tick : okev (ESleep (1 # 4)).
Hypothesis ok_bar : forall p msg, okev (EProgressBar p 50 msg).

Lemma tidy_draw_progress path total :
  ensures (tidy E okev) (draw_progress E path total).
Proof. unfold draw_progress. repeat tidy_step. Qed.

Lemma tidy_monitor fuel h path total :
  ensures (tidy E okev) (monitor E fuel h path total).
Proof.
  induction fuel as [|fuel IH]; [apply tidy_stuck|].
  rewrite monitor_S.
  apply ensures_bind; [apply tidy_trans | apply tidy_poll | intros [rc|]].
  - apply tidy_ret.
  - apply ensures_bind; [apply tidy_trans | | intros _].
    + apply tidy_time_sleep, ok_tick.
    + apply ensures_bind; [apply tidy_trans | | intros _; exact IH].
      apply tidy_draw_progress.
Qed.

End Watching.

(** The steps of [pull_uenv] are tidy. *)
Section Steps.

Context (E : env) (base tag image_path : string) (tgt : target).

Lemma tidy_pull_meta_step pull_sqfs :
  ensures (tidy E (expected base tag image_path true pull_sqfs))
    (pull_meta_step E base tag image_path).
Proof. unfold pull_meta_step. repeat tidy_step. Qed.

Lemma tidy_pull_sqfs_step pull_meta :
  ensures (tidy E (expected base tag image_path pull_meta true))
    (pull_sqfs_step E base tag image_path tgt).
Proof.
  unfold pull_sqfs_step. cbv zeta.
  repeat lazymatch goal with
         | |- ensures _ (monitor _ _ _ _ _) => apply tidy_monitor; tidy_side
         | |- _ => tidy_step
         end.
Qed.

End Steps.

(** The bodies of the two [try] statements, and their handlers. *)
Section Handlers.

Context (E : env).

Lemma tidy_weaken (ok1 ok2 : event -> Prop) s o s' :
  (forall e, ok1 e -> ok2 e) -> tidy E ok1 s o s' -> tidy E ok2 s o s'.
Proof.
  intros Hok ((evs & Ht & Hf & He & Hl) & Hrest).
  split; [|exact Hrest]. exists evs. repeat split; try assumption.
  eapply Forall_impl; eassumption.
Qed.

Lemma attempt_split addr base tag image_path tgt pull_meta pull_sqfs s :
  PyStr.rfind_split ":" addr = Some (base, tag) ->
  attempt E addr image_path tgt pull_meta pull_sqfs s =
  ((if pull_meta then pull_meta_step E base tag image_path else ret tt);;
   (if pull_sqfs then pull_sqfs_step E base tag image_path tgt
    else ret tt)) s.
Proof.
  intros Hsplit. unfold attempt, PyStr.rsplit1. rewrite Hsplit. reflexivity.
Qed.

Lemma attempt_rejects addr image_path tgt pull_meta pull_sqfs s :
  PyStr.rfind_split ":" addr = None ->
  attempt E addr image_path tgt pull_meta pull_sqfs s = (Raise IndexError, s).
Proof.
  intros Hsplit. unfold attempt, PyStr.rsplit1. rewrite Hsplit. reflexivity.
Qed.

Lemma tidy_attempt addr image_path tgt pull_meta pull_sqfs :
  ensures (tidy E (expected_of addr image_path pull_meta pull_sqfs))
    (attempt E addr image_path tgt pull_meta pull_sqfs).
Proof.
  intros s.
  destruct (PyStr.rfind_split ":" addr) as [[base tag]|] eqn:Hsplit.
  - rewrite (attempt_split _ _ _ _ _ _ _ _ Hsplit).
    apply (tidy_weaken (expected base tag image_path pull_meta pull_sqfs)).
    { intros e He b t. unfold PyStr.rsplit1. rewrite Hsplit.
      intros [= <- <-]. exact He. }
    revert s.
    apply ensures_bind; [apply tidy_trans | | intros _].
    + destruct pull_meta; [apply tidy_pull_meta_step | apply tidy_ret].
    + destruct pull_sqfs; [apply tidy_pull_sqfs_step | apply tidy_ret].
  - rewrite (attempt_rejects _ _ _ _ _ _ Hsplit).
    apply tidy_pure; discriminate.
Qed.


Context (okev : event -> Prop).
Hypothesis ok_terminate : forall h, okev (ETerminate h).
Hypothesis ok_error : forall msg, okev (EError msg).
Context (line_feed : bool).
Hypothesis ok_line_feed : line_feed = true -> okev (EStdout "").

Lemma tidy_bail_out msg : ensures (tidy E okev) (bail_out E line_feed msg).
Proof.
  unfold bail_out.
  apply ensures_bind; [apply tidy_trans | apply tidy_read_proc | intros h].
  apply ensures_bind;
    [apply tidy_trans | apply tidy_terminate, ok_terminate | intros _].
  apply ensures_bind; [apply tidy_trans | | intros _].
  - destruct line_feed; [|apply tidy_ret].
    apply tidy_terminal_stdout, ok_line_feed. reflexivity.
  - apply tidy_terminal_error, ok_error.
Qed.

Lemma valid_lookup s h :
  valid s -> proc s = Some h -> exists p, procs s !! h = Some p.
Proof.
  intros Hv Hp. apply Hv in Hp.
  destruct (procs s !! h) as [p|] eqn:Hl; [eauto|].
  apply lookup_ge_None in Hl. lia.
Qed.

(** A handler that runs with the interrupt behind it. *)
Lemma bail_out_runs msg s n :
  interrupt_at E = Some n -> (n < clock s)%nat -> valid s ->
  match proc s with
  | None => bail_out E line_feed msg s = (Raise (UnboundLocalError "proc"), s)
  | Some h =>
      exists s',
        bail_out E line_feed msg s = (Raise (SystemExit 1), s')
        /\ trace s' = trace s ++ ETerminate h :: farewell line_feed msg
        /\ (clock s <= clock s')%nat
  end.
Proof.
  intros Hat Hn Hv. destruct (proc s) as [h|] eqn:Hp.
  - destruct (valid_lookup s h Hv Hp) as (p & Hl).
    unfold bail_out, bind, read_proc, terminate, terminal_stdout,
      terminal_error, call, interrupted, farewell.
    rewrite Hp, Hat. cbn [tick clock procs log set_procs].
    assert (H0 : (n =? clock s)%nat = false) by (apply Nat.eqb_neq; lia).
    assert (H1 : (n =? S (clock s))%nat = false) by (apply Nat.eqb_neq; lia).
    assert (H2 : (n =? S (S (clock s)))%nat = false)
      by (apply Nat.eqb_neq; lia).
    rewrite H0, Hl. cbn [tick clock procs log set_procs].
    destruct line_feed; cbn [ret tick clock procs log set_procs];
      rewrite H1; cbn [tick clock procs log set_procs]; rewrite ?H2;
      (eexists; split; [reflexivity|]); cbn; rewrite <- !app_assoc;
      (split; [reflexivity | lia]).
  - unfold bail_out, bind, read_proc. rewrite Hp. reflexivity.
Qed.

(** How a handler can end. *)
Lemma bail_out_ends msg s :
  valid s ->
  (proc s = None /\
   bail_out E line_feed msg s = (Raise (UnboundLocalError "proc"), s)) \/
  (proc s <> None /\
   (fst (bail_out E line_feed msg s) = Raise (SystemExit 1) \/
    fst (bail_out E line_feed msg s) = Raise KeyboardInterrupt)).
Proof.
  intros Hv. destruct (proc s) as [h|] eqn:Hp.
  - right. split; [discriminate|].
    destruct (valid_lookup s h Hv Hp) as (p & Hl).
    unfold bail_out, bind, read_proc, terminate, terminal_stdout,
      terminal_error, call.
    rewrite Hp. cbn [tick clock procs log set_procs].
    destruct (interrupted _ (clock s)); [right; reflexivity|].
    rewrite Hl. cbn [tick clock procs log set_procs].
    destruct line_feed; cbn [ret tick clock procs log set_procs].
    + destruct (interrupted _ (S (clock s))); [right; reflexivity|].
      cbn [tick clock procs log set_procs].
      destruct (interrupted _ (S (S (clock s)))); [right|left]; reflexivity.
    + destruct (interrupted _ (S (clock s))); [right|left]; reflexivity.
  - left. split; [reflexivity|].
    unfold bail_out, bind, read_proc. rewrite Hp. reflexivity.
Qed.

(** What [tidy] says of a run that ends in one of the four ways. *)
Lemma tidy_settled goodbye s o s' :
  tidy E okev s o s' ->
  (o = Returned \/ o = Raised (SystemExit 1) \/
   o = Raised (UnboundLocalError "proc") \/ o = Raised KeyboardInterrupt) ->
  (o = Raised (UnboundLocalError "proc") -> proc s' = None) ->
  settled E okev goodbye s o s'.
Proof.
  intros ((evs & Ht & Hok & Herr & Hl) & _ & Hc & Hi) Hfour Hun.
  split; [exact Hfour|]. exists evs. repeat split; try assumption.
  - intros Ho. apply Hl, Hun, Ho.
  - intros ->. exact Hi.
  - intros n Hat [H1 H2].
    destruct Hfour as [-> | [-> | [-> | ->]]]; auto;
      cbn in Hi; specialize (Hi n Hat H1); lia.
Qed.

Lemma settled_bail_out goodbye msg s e s1 :
  is_Exception e = true -> tidy E okev s (Raised e) s1 -> valid s1 ->
  settled E okev goodbye s
    (ending_of (fst (bail_out E line_feed msg s1)))
    (snd (bail_out E line_feed msg s1)).
Proof.
  intros He Ht Hv.
  pose proof (tidy_bail_out msg s1) as Hf.
  destruct (bail_out_ends msg s1 Hv) as [[Hp Hr]|[Hp Hr]].
  - rewrite Hr in *. cbn [fst snd ending_of] in *.
    apply tidy_settled; [|auto|intros _; exact Hp].
    eapply tidy_catch; eassumption.
  - destruct (bail_out E line_feed msg s1) as [o2 s2].
    cbn [fst snd ending_of] in *.
    apply tidy_settled.
    + eapply tidy_catch; eassumption.
    + destruct Hr as [-> | ->]; auto.
    + destruct Hr as [-> | ->]; discriminate.
Qed.

(** A [try] with the two handlers of the module around a body that is
    tidy and does not get stuck. *)
Lemma try_settled (body : M unit) bye (sorry : exn -> string) s :
  ensures (tidy E okev) body ->
  sound (fun _ => True) body (fun _ _ => True) ->
  valid s ->
  settled E okev (farewell line_feed bye) s
    (ending_of
       (fst (try_except body (bail_out E line_feed bye)
               (fun e => bail_out E line_feed (sorry e)) s)))
    (snd (try_except body (bail_out E line_feed bye)
            (fun e => bail_out E line_feed (sorry e)) s)).
Proof.
  intros Hbody Hsound Hv0. unfold try_except.
  pose proof (Hbody s) as Ht. pose proof (Hsound s Hv0 I) as Hs.
  destruct (body s) as [[[]|e|] s1]; cbn [fst snd ending_of] in *;
    [| |destruct Hs].
  - apply tidy_settled; [exact Ht | auto | discriminate].
  - destruct Hs as [Hv1 _].
    destruct e; cbn [is_Exception];
      try (eapply settled_bail_out; [|exact Ht|exact Hv1]; reflexivity).
    + apply tidy_settled; [exact Ht| |discriminate].
      destruct Ht as ((evs & _ & _ & (-> & _) & _) & _). auto.
    + destruct Ht as ((evs & Htr & Hok & Hrep & Hl) & _ & Hc & n & Hat & Hn).
      pose proof (bail_out_runs bye s1 n Hat ltac:(lia) Hv1) as Hrun.
      destruct (proc s1) as [h|] eqn:Hp.
      * destruct Hrun as (s2 & -> & Htr2 & Hc2). cbn [fst snd ending_of].
        split; [auto|].
        exists (evs ++ ETerminate h :: farewell line_feed bye).
        split; [rewrite Htr2, Htr, app_assoc; reflexivity|].
        split.
        { apply Forall_app. split; [exact Hok|]. constructor; [auto|].
          unfold farewell. destruct line_feed; repeat constructor; auto. }
        split.
        { split; [reflexivity|].
          exists (evs ++ ETerminate h ::
                  (if line_feed then [EStdout ""] else [])), bye.
          split; [unfold farewell; destruct line_feed;
                  rewrite <- app_assoc; reflexivity|].
          rewrite reported_app, Hrep. destruct line_feed; reflexivity. }
        split; [discriminate|]. split; [discriminate|].
        intros n' Hat' Hn'.
        right. right. split; [reflexivity|]. exists evs, h. auto.
      * rewrite Hrun. cbn [fst snd ending_of]. split; [auto|].
        exists evs.
        split; [exact Htr|]. split; [exact Hok|]. split; [exact Hrep|].
        split; [intros _; apply Hl; reflexivity|]. split; [discriminate|].
        intros n' Hat' Hn'. auto.
Qed.

End Handlers.

(** The two calls, whole. *)
Section Calls.

Context (E : env).

Lemma pull_uenv_unfold addr image_path tgt pull_meta pull_sqfs s :
  pull_uenv E addr image_path tgt pull_meta pull_sqfs s =
  try_except (attempt E addr image_path tgt pull_meta pull_sqfs)
    (bail_out E true "image pull cancelled by user.")
    (fun e => bail_out E true ("image pull failed with unknown exception: "
                              +:+ exc_text E e))
    (bind_proc None s).
Proof. reflexivity. Qed.

Lemma run_command_unfold args s :
  run_command E args s =
  try_except (command_attempt E args)
    (bail_out E false "oras command cancelled by user.")
    (fun e => bail_out E false ("oras command failed with unknown exception: "
                               +:+ exc_text E e))
    (bind_proc None s).
Proof. reflexivity. Qed.

Lemma unbound_valid s : valid (bind_proc None s).
Proof. intros h. discriminate. Qed.

Lemma pull_uenv_settled addr image_path tgt pull_meta pull_sqfs s :
  settled E (expected_of addr image_path pull_meta pull_sqfs)
    (farewell true "image pull cancelled by user.")
    s
    (ending_of (fst (pull_uenv E addr image_path tgt pull_meta pull_sqfs s)))
    (snd (pull_uenv E addr image_path tgt pull_meta pull_sqfs s)).
Proof.
  rewrite pull_uenv_unfold.
  apply (try_settled E (expected_of addr image_path pull_meta pull_sqfs)
           (fun _ _ _ _ => I) (fun _ _ _ _ => I) true
           (fun _ _ _ _ => eq_refl)
           (attempt E addr image_path tgt pull_meta pull_sqfs)
           "image pull cancelled by user."
           (fun e => "image pull failed with unknown exception: "
                     +:+ exc_text E e)
           (bind_proc None s)).
  - apply tidy_attempt.
  - apply sound_attempt.
  - apply unbound_valid.
Qed.


End Calls.


(** ** How [pull_uenv] and [run_command] end *)

(** What [settled] gives for a call, spelled out on its result. *)
Section Endings.

Context (E : env) (okev : event -> Prop) (goodbye : list event).
Context (s : state) (r : outcome unit * state).
Hypothesis Hsettled : settled E okev goodbye s (ending_of (fst r)) (snd r).

Lemma settled_four_ways :
  fst r = Ret tt \/ fst r = Raise (SystemExit 1) \/
  fst r = Raise (UnboundLocalError "proc") \/
  (fst r = Raise KeyboardInterrupt /\ interrupt_at E <> None).
Proof.
  destruct Hsettled as (Hfour & evs & _ & _ & _ & _ & Hki & _).
  destruct r as [[[]|e|] s']; cbn [fst snd ending_of] in *.
  - auto.
  - destruct Hfour as [H | [H | [H | H]]]; try discriminate H;
      injection H as ->; auto.
    do 3 right. split; [reflexivity|].
    destruct (Hki eq_refl) as (n & -> & _). discriminate.
  - destruct Hfour as [H | [H | [H | H]]]; discriminate.
Qed.


Lemma settled_unbound :
  fst r = Raise (UnboundLocalError "proc") ->
  launched (trace (snd r)) = launched (trace s)
  /\ reported (trace (snd r)) = reported (trace s).
Proof.
  intros Hr. destruct Hsettled as (_ & evs & Ht & _ & Herr & Hl & _).
  rewrite Hr in *. cbn [ending_of errors_match] in *.
  rewrite Ht, launched_app, reported_app, Herr, (Hl eq_refl), !app_nil_r.
  split; reflexivity.
Qed.


Lemma settled_effects :
  exists evs, trace (snd r) = trace s ++ evs /\ Forall okev evs.
Proof.
  destruct Hsettled as (_ & evs & Ht & Hok & _). eauto.
Qed.

End Endings.

Section PullEndings.

Context (E : env) (addr image_path : string) (tgt : target).
Context (pull_meta pull_sqfs : bool) (s : state).

(** X6. Whatever the environment, the address, the flags and the state of
    the start, a call of [pull_uenv] ends in one of four ways: it returns,
    it exits with code 1, it fails with [UnboundLocalError] on [proc], or,
    only when Ctrl-C is pressed, it lets [KeyboardInterrupt] through.  No
    other exception leaves the call. *)
Theorem pull_uenv_ends_in_four_ways :
  let o := fst (pull_uenv E addr image_path tgt pull_meta pull_sqfs s) in
  o = Ret tt \/ o = Raise (SystemExit 1) \/
  o = Raise (UnboundLocalError "proc") \/
  (o = Raise KeyboardInterrupt /\ interrupt_at E <> None).
Proof.
  exact (settled_four_ways E _ _ s _
           (pull_uenv_settled E addr image_path tgt pull_meta pull_sqfs s)).
Qed.


(** X8. Ctrl-C aside, [pull_uenv] fails with [UnboundLocalError] on [proc]
    only while it has launched no child: then it has reported nothing
    either.  The failures in question are those of the code before the
    first launch: the address without a tag, [shutil.rmtree] and
    [os.remove].  (Ctrl-C is set aside because Python can deliver it after
    a child was started and before [proc] is assigned.) *)
Theorem unbound_proc_means_nothing_launched :
  let r := pull_uenv E addr image_path tgt pull_meta pull_sqfs s in
  interrupt_at E = None ->
  fst r = Raise (UnboundLocalError "proc") ->
  launched (trace (snd r)) = launched (trace s)
  /\ reported (trace (snd r)) = reported (trace s).
Proof.
  intros r _.
  exact (settled_unbound E _ _ s _
           (pull_uenv_settled E addr image_path tgt pull_meta pull_sqfs s)).
Qed.


(** X10. A call of [pull_uenv] for [base:tag] has no effect but the
    expected ones: it launches the client with the discovery of [base:tag]
    or with a pull into [image_path], by digest or by tag; it removes the
    tree [image_path/meta] and the file [image_path/store.squashfs] and
    nothing else; it pauses for a twentieth or a quarter of a second; and
    each of these only if its component was asked for. *)
Theorem pull_uenv_effects_expected base tag :
  let r := pull_uenv E addr image_path tgt pull_meta pull_sqfs s in
  PyStr.rsplit1 ":" addr = [base; tag] ->
  exists evs,
    trace (snd r) = trace s ++ evs
    /\ Forall (expected base tag image_path pull_meta pull_sqfs) evs.
Proof.
  cbv zeta. intros Hsplit.
  destruct (settled_effects E _ _ s _
              (pull_uenv_settled E addr image_path tgt pull_meta pull_sqfs s))
    as (evs & Ht & Hok).
  exists evs. split; [exact Ht|].
  eapply Forall_impl; [exact Hok|]. intros e He. apply He, Hsplit.
Qed.

End PullEndings.

(** ** Calls that nobody interrupts *)

Section Calm.
Context (E : env).











End Calm.

Section CommandEndings.

Context (E : env) (args : list string) (s : state).



End CommandEndings.

(** ** How many children a call launches *)

Section Counting.

Context (E : env).

Lemma quiet_launched evs : Forall quiet_event evs -> launched evs = [].
Proof.
  induction 1 as [|e evs He _ IH]; [reflexivity|].
  change (e :: evs) with ([e] ++ evs). rewrite launched_app, IH.
  destruct e; try reflexivity. destruct He.
Qed.

Lemma count_quiet {A} n (m : M A) :
  ensures (tidy E quiet_event) m -> launches_at_most n m.
Proof.
  intros Hm s. destruct (Hm s) as ((evs & Ht & Hok & _) & _).
  exists evs. split; [exact Ht|]. rewrite (quiet_launched _ Hok). cbn. lia.
Qed.

Lemma count_bind {A B} a b (m : M A) (k : A -> M B) :
  launches_at_most a m -> (forall x, launches_at_most b (k x)) ->
  launches_at_most (a + b) (bind m k).
Proof.
  intros Hm Hk s. unfold bind. destruct (Hm s) as (evs1 & Ht1 & Hl1).
  destruct (m s) as [[x|e|] s1]; cbn [fst snd] in *.
  - destruct (Hk x s1) as (evs2 & Ht2 & Hl2).
    exists (evs1 ++ evs2). rewrite Ht2, Ht1, app_assoc.
    split; [reflexivity|]. rewrite launched_app, length_app. lia.
  - exists evs1. split; [exact Ht1 | lia].
  - exists evs1. split; [exact Ht1 | lia].
Qed.

Lemma count_quiet_bind {A B} n (m : M A) (k : A -> M B) :
  ensures (tidy E quiet_event) m -> (forall x, launches_at_most n (k x)) ->
  launches_at_most n (bind m k).
Proof.
  intros Hm Hk. apply (count_bind 0 n); [apply count_quiet, Hm | exact Hk].
Qed.

(** A handler that launches nothing adds nothing. *)
Lemma count_handled {A} n (body : M A) s :
  launches_at_most n body ->
  forall h : M A,
    launches_at_most 0 h ->
    exists evs,
      trace (snd (h (snd (body s)))) = trace s ++ evs /\
      (length (launched evs) <= n)%nat.
Proof.
  intros Hb h Hh. destruct (Hb s) as (evs1 & Ht1 & Hl1).
  destruct (Hh (snd (body s))) as (evs2 & Ht2 & Hl2).
  exists (evs1 ++ evs2). rewrite Ht2, Ht1, app_assoc.
  split; [reflexivity|]. rewrite launched_app, length_app. lia.
Qed.

Lemma count_try_Exception {A} n (body : M A) (h : exn -> M A) :
  launches_at_most n body -> (forall e, launches_at_most 0 (h e)) ->
  launches_at_most n (try_Exception body h).
Proof.
  intros Hb Hh s. unfold try_Exception.
  pose proof (count_handled n body s Hb) as Hc. pose proof (Hb s) as Hs.
  destruct (body s) as [[x|e|] s1]; cbn [fst snd] in *; try exact Hs.
  destruct (is_Exception e); [apply Hc, Hh | exact Hs].
Qed.

Lemma count_try_except {A} n (body h1 : M A) (h2 : exn -> M A) :
  launches_at_most n body -> launches_at_most 0 h1 ->
  (forall e, launches_at_most 0 (h2 e)) ->
  launches_at_most n (try_except body h1 h2).
Proof.
  intros Hb H1 H2 s. unfold try_except.
  pose proof (count_handled n body s Hb) as Hc. pose proof (Hb s) as Hs.
  destruct (body s) as [[x|e|] s1]; cbn [fst snd] in *; try exact Hs.
  destruct e; cbn [is_Exception];
    first [exact Hs | apply Hc, H1 | apply Hc, H2].
Qed.

Lemma count_popen cmd : launches_at_most 1 (popen E cmd).
Proof.
  intros s. unfold popen, call.
  destruct (interrupted _ _);
    [exists []; rewrite app_nil_r; split;
     [reflexivity | unfold launched; cbn; lia]|].
  cbn. destruct (oras E cmd); cbn.
  - exists []. rewrite app_nil_r. split; [reflexivity|].
    unfold launched. cbn. lia.
  - eexists [_]. split; [reflexivity|]. unfold launched. cbn. lia.
Qed.

(** One step of a count, by the shape of the computation. *)
Ltac count_step :=
  lazymatch goal with
  | |- launches_at_most (S _) (bind (run_command_internal _ _) _) =>
      apply (count_bind 1); [| intros ?]
  | |- launches_at_most _ (bind _ _) =>
      apply count_quiet_bind; [repeat tidy_step | intros ?]
  | |- launches_at_most _ (if ?b then _ else _) => destruct b
  | |- launches_at_most _ (let '(_, _) := ?r in _) => destruct r
  | |- launches_at_most _ (match ?x with _ => _ end) => destruct x
  | |- launches_at_most _ (popen _ _) =>
      apply count_popen
  | |- _ => apply count_quiet; repeat tidy_step
  end.

Lemma count_run_command_internal args :
  launches_at_most 1 (run_command_internal E args).
Proof.
  unfold run_command_internal. apply count_try_Exception.
  - apply count_quiet_bind;
      [apply tidy_find_oras; exact (fun _ => I) | intros q].
    repeat count_step.
  - intros e. repeat count_step.
Qed.

Lemma count_pull_meta_step base tag image_path :
  launches_at_most 2 (pull_meta_step E base tag image_path).
Proof.
  unfold pull_meta_step.
  repeat lazymatch goal with
         | |- launches_at_most _ (run_command_internal _ _) =>
             apply count_run_command_internal
         | |- _ => count_step
         end.
Qed.

Lemma count_pull_sqfs_step base tag image_path tgt :
  launches_at_most 1 (pull_sqfs_step E base tag image_path tgt).
Proof.
  unfold pull_sqfs_step. cbv zeta.
  repeat lazymatch goal with
         | |- launches_at_most _ (run_command_internal _ _) =>
             apply count_run_command_internal
         | |- launches_at_most _ (bind (monitor _ _ _ _ _) _) =>
             apply count_quiet_bind;
             [apply tidy_monitor; tidy_side | intros ?]
         | |- _ => count_step
         end.
Qed.

Lemma count_bail_out line_feed msg :
  launches_at_most 0 (bail_out E line_feed msg).
Proof.
  apply count_quiet. apply tidy_bail_out; tidy_side.
Qed.

Lemma count_attempt addr image_path tgt (pull_meta pull_sqfs : bool) :
  launches_at_most
    ((if pull_meta then 2 else 0) + (if pull_sqfs then 1 else 0))
    (attempt E addr image_path tgt pull_meta pull_sqfs).
Proof.
  intros s.
  destruct (PyStr.rfind_split ":" addr) as [[base tag]|] eqn:Hsplit.
  - rewrite (attempt_split _ _ _ _ _ _ _ _ _ Hsplit).
    apply count_bind.
    + destruct pull_meta; [apply count_pull_meta_step|].
      apply count_quiet, tidy_ret.
    + intros _. destruct pull_sqfs; [apply count_pull_sqfs_step|].
      apply count_quiet, tidy_ret.
  - rewrite (attempt_rejects _ _ _ _ _ _ _ Hsplit).
    exists []. rewrite app_nil_r. split; [reflexivity|].
    unfold launched. cbn. lia.
Qed.

Lemma count_command_attempt args :
  launches_at_most 1 (command_attempt E args).
Proof.
  unfold command_attempt.
  repeat lazymatch goal with
         | |- launches_at_most _ (run_command_internal _ _) =>
             apply count_run_command_internal
         | |- _ => count_step
         end.
Qed.

(** X18. A call of [pull_uenv] launches at most three children, two for
    the meta data and one for the image, and none for a component that
    was not asked for; a call of [run_command] launches at most one.
    This holds for every environment and however the call ends. *)
Theorem launches_are_bounded :
  (forall addr image_path tgt (pull_meta pull_sqfs : bool) s,
     exists evs,
       trace (snd (pull_uenv E addr image_path tgt pull_meta pull_sqfs s))
         = trace s ++ evs
       /\ (length (launched evs)
           <= (if pull_meta then 2 else 0) + (if pull_sqfs then 1 else 0))%nat)
  /\ (forall args s,
        exists evs,
          trace (snd (run_command E args s)) = trace s ++ evs
          /\ (length (launched evs) <= 1)%nat).
Proof.
  split.
  - intros addr image_path tgt pull_meta pull_sqfs s.
    rewrite pull_uenv_unfold.
    apply (count_try_except _ _ _ _
             (count_attempt addr image_path tgt pull_meta pull_sqfs)
             (count_bail_out _ _) (fun e => count_bail_out _ _)
             (bind_proc None s)).
  - intros args s. rewrite run_command_unfold.
    apply (count_try_except _ _ _ _ (count_command_attempt args)
             (count_bail_out _ _) (fun e => count_bail_out _ _)
             (bind_proc None s)).
Qed.

End Counting.

(** ** The label of the progress bar *)

Section Label.


(** [int(bytes / (1024*1024))] is the whole number of mebibytes. *)
Lemma int_of_mb z : 0 <= z -> PyVal.int_of_float (mb z) = z / (1024 * 1024).
Proof.
  intros Hz. unfold PyVal.int_of_float, mb. cbn.
  rewrite Z.mul_1_r. apply Z.quot_div_nonneg; lia.
Qed.

(** On a float that is not negative, [int] is the floor. *)
Lemma int_of_float_floor q : (0 <= q)%Q -> PyVal.int_of_float q = Qfloor q.
Proof.
  destruct q as [n d]. unfold Qle, PyVal.int_of_float. cbn.
  intros H. apply Z.quot_div_nonneg; lia.
Qed.

(** Below [2^53] bytes the division by [2^20] does not round: the float of
    lines 115 and 120 is the rational of the model. *)
Lemma round64_mb z :
  0 <= z < 2 ^ 53 -> (PyVal.int_true_div z (1024 * 1024) == mb z)%Q.
Proof.
  intros [Hz Hlt]. unfold PyVal.int_true_div, mb, PyVal.round64.
  change (Qnum (inject_Z z / inject_Z (1024 * 1024))) with (z * 1).
  change (Qden (inject_Z z / inject_Z (1024 * 1024))) with 1048576%positive.
  rewrite Z.mul_1_r, (Z.abs_eq z) by exact Hz.
  destruct (Z.eqb_spec z 0) as [->|Hnz]; [reflexivity|].
  assert (Hpos : 0 < z) by lia.
  pose proof (Z.log2_spec z Hpos) as [Hlo Hhi].
  pose proof (Z.log2_nonneg z) as HL0.
  assert (HL : Z.log2 z < 53) by (apply Z.log2_lt_pow2; assumption).
  set (L := Z.log2 z) in *.
  assert (Hfl : PyVal.floor_log2 z (Z.pos 1048576) = L - 20).
  { unfold PyVal.floor_log2. change (Z.log2 (Z.pos 1048576)) with 20.
    fold L. cbv zeta.
    destruct (Z.leb_spec 0 (L - 20)) as [Hk|Hk].
    - replace (2 ^ (L - 20) * Z.pos 1048576) with (2 ^ L).
      + destruct (Z.leb_spec (2 ^ L) z); [reflexivity | lia].
      + change (Z.pos 1048576) with (2 ^ 20).
        rewrite <- Z.pow_add_r by lia. f_equal. lia.
    - destruct (Z.leb_spec (Z.pos 1048576) (z * 2 ^ (- (L - 20))));
        [reflexivity|].
      exfalso.
      assert (2 ^ L * 2 ^ (- (L - 20)) = 2 ^ 20)
        by (rewrite <- Z.pow_add_r by lia; f_equal; lia).
      assert (0 < 2 ^ (- (L - 20))) by (apply Z.pow_pos_nonneg; lia).
      change (Z.pos 1048576) with (2 ^ 20) in *. nia. }
  rewrite Hfl.
  destruct (Z.leb_spec 0 (L - 20 - 52)) as [Hbig|_]; [lia|].
  assert (Hsplit : z * 2 ^ (- (L - 20 - 52)) = z * 2 ^ (52 - L) * Z.pos 1048576).
  { change (Z.pos 1048576) with (2 ^ 20).
    rewrite <- Z.mul_assoc, <- Z.pow_add_r by lia. do 2 f_equal. lia. }
  unfold PyVal.round_half_even. rewrite Hsplit.
  rewrite Z.div_mul by discriminate. rewrite Z.mod_mul by discriminate.
  change (2 * 0 <? Z.pos 1048576) with true. cbv iota.
  rewrite (Z.sgn_pos z Hpos), Z.mul_1_l.
  rewrite (inject_Z_mult z), (Zpower_Qpower 2 (52 - L)) by lia.
  rewrite <- Qmult_assoc, <- Qpower_plus by discriminate.
  replace (52 - L + (L - 20 - 52)) with (-20) by lia.
  reflexivity.
Qed.

Lemma mb_nonneg z : 0 <= z -> (0 <= mb z)%Q.
Proof.
  intros Hz. unfold Qle.
  change (Qnum (mb z)) with (z * 1). change (Qnum 0) with 0. lia.
Qed.

Lemma int_of_round64_mb z :
  0 <= z < 2 ^ 53 ->
  PyVal.int_of_float (PyVal.int_true_div z (1024 * 1024)) = z / (1024 * 1024).
Proof.
  intros Hz. pose proof (round64_mb z Hz) as Heq.
  rewrite int_of_float_floor by (rewrite Heq; apply mb_nonneg; lia).
  rewrite Heq. rewrite <- int_of_float_floor by (apply mb_nonneg; lia).
  apply int_of_mb. lia.
Qed.

(** X19. For a file of [current] bytes and an expected size of [total]
    bytes, both below [2^53], the divisions by [1024*1024] of lines 115 and
    120 do not round, so that the floats of the code are the rationals of
    the model, and the label of the progress bar shows them rounded down to
    whole mebibytes: it reads [current // 2^20], a slash, [total // 2^20]
    and [ MB]. *)
Theorem label_shows_whole_mebibytes current total :
  0 <= current < 2 ^ 53 -> 0 <= total < 2 ^ 53 ->
  (PyVal.int_true_div current (1024 * 1024) == mb current)%Q /\
  (PyVal.int_true_div total (1024 * 1024) == mb total)%Q /\
  mb_label (PyVal.int_true_div current (1024 * 1024))
           (PyVal.int_true_div total (1024 * 1024)) =
    pretty (current / (1024 * 1024)) +:+ "/" +:+
    pretty (total / (1024 * 1024)) +:+ " MB" /\
  mb_label (mb current) (mb total) =
    pretty (current / (1024 * 1024)) +:+ "/" +:+
    pretty (total / (1024 * 1024)) +:+ " MB".
Proof.
  intros Hc Ht.
  split; [apply round64_mb, Hc|].
  split; [apply round64_mb, Ht|].
  unfold mb_label.
  rewrite !int_of_round64_mb, !int_of_mb by lia.
  split; reflexivity.
Qed.

End Label.

(** ** Locating and launching the client *)

Section Locating.

Context (E : env) (Hquiet : interrupt_at E = None).

(** X1. [find_oras] prefers the client that is installed next to the
    library: when [uenv-oras] is a regular file there, it is returned,
    whatever the search path holds; otherwise, a directory of that name
    included, the client of the search path is returned.  Either way the
    function only writes its informational messages. *)
Theorem find_oras_precedence s :
  let bundled := path_join (oras_dir E) "uenv-oras" in
  (forall z,
     fs s !! bundled = Some (File z) ->
     find_oras E s =
       (Ret bundled,
        {| fs := fs s; procs := procs s;
           trace := trace s ++
                    [EInfo ("searching for oras executable: " +:+ bundled);
                     EInfo ("using " +:+ bundled)];
           clock := (3 + clock s)%nat; proc := proc s |}))
  /\ ((forall z, fs s !! bundled <> Some (File z)) ->
      forall p,
        which_oras E = Some p -> p <> "" ->
        find_oras E s =
          (Ret p,
           {| fs := fs s; procs := procs s;
              trace := trace s ++
                       [EInfo ("searching for oras executable: " +:+ bundled);
                        EInfo (bundled +:+ " does not exist - searching for oras");
                        EInfo ("using " +:+ p)];
              clock := (5 + clock s)%nat; proc := proc s |})).
Proof.
  cbv zeta. split.
  - intros z Hfile. open_env E. open_state s. cbn in Hfile.
    unfold find_oras. run. rewrite Hfile. run. reflexivity.
  - intros Hnone p Hw Hp. open_env E. open_state s. cbn in Hnone.
    unfold find_oras. run.
    destruct (f !! _) as [[z|z]|] eqn:Hl; [destruct (Hnone z eq_refl)| |];
      run; (destruct p; [congruence|]); run; reflexivity.
Qed.

(** X2. When a client is located and the operating system starts it,
    [run_command_internal] runs exactly the client followed by the
    arguments it was given, in their order; it logs that command line,
    joined by spaces, just before the launch, and returns the handle of a
    new child that has no exit code yet. *)
Theorem run_command_internal_launches args c q s :
  located E (fs s) = Some q ->
  oras E (q :: args) = Spawned c ->
  exists evs k,
    run_command_internal E args s =
      (Ret (length (procs s)),
       {| fs := fs s;
          procs := procs s ++
                   [{| command := q :: args; pending := steps c;
                       out_text := child_stdout c; err_text := child_stderr c;
                       exit_code := child_exit c; returncode := None |}];
          trace := trace s ++ evs ++
                   [EInfo ("calling oras: " +:+ PyStr.join " " (q :: args));
                    EPopen (length (procs s)) (q :: args)];
          clock := k; proc := proc s |})
    /\ forallb is_info evs = true.
Proof.
  intros Hloc Hc.
  destruct (find_oras_found E Hquiet q s Hloc) as (evs & k & Hf & Hq).
  unfold run_command_internal, try_Exception, bind. rewrite Hf.
  open_env E. open_state s. run. rewrite Hc. run.
  exists evs. eexists. split; [reflexivity | exact Hq].
Qed.

End Locating.

(** ** A command that succeeds, a command that cannot start *)

Section CommandRuns.

Context (E : env) (Hquiet : interrupt_at E = None).
Context (p : string) (Hwhich : which_oras E = Some p) (Hp : p <> "").
Context (args : list string) (c : child).
Hypothesis Hc : forall q, oras E (q :: args) = Spawned c.

(** X3. [run_command] on a child that exits with code zero returns: it
    has launched the client once, waited for it, so that all the child
    wrote is on the file system, reaped it, and its last message is the
    success message with the standard output of the child; it has reported
    no error. *)
Theorem run_command_succeeds fs0 :
  child_exit c = 0 ->
  exists q evs k,
    run_command E args (init_state fs0) =
      (Ret tt,
       {| fs := foldl apply_step fs0 (steps c);
          procs := [reaped (started (q :: args) c)];
          trace := evs ++
                   [EPopen 0 (q :: args);
                    EInfo ("oras command successful: " +:+ child_stdout c)];
          clock := k; proc := Some 0%nat |})
    /\ forallb is_info evs = true.
Proof.
  intros Hexit. rewrite run_command_unfold. unfold try_except, command_attempt.
  destruct (run_command_internal_spawned E Hquiet args c p
              (bind_proc None (init_state fs0)) Hwhich Hp Hc)
    as (q & evs & k & Hr & Hq).
  unfold bind at 1. rewrite Hr.
  unfold bind at 1, assign_proc, bind_proc.
  cbn [fs procs trace clock proc init_state].
  unfold bind at 1.
  rewrite (communicate_snoc E Hquiet []).
  cbn [app started out_text err_text pending].
  unfold bind at 1, get_returncode. cbn [fs procs trace clock proc lookup].
  cbn. rewrite Hexit. cbn.
  unfold terminal_info, call. rewrite Hquiet. cbn.
  exists q, evs. eexists. split; [|exact Hq].
  rewrite <- app_assoc. reflexivity.
Qed.

End CommandRuns.

(** ** Failures before the first launch *)

Section MoreFailures.


Context (E : env) (Hquiet : interrupt_at E = None).

(** X16. When the client cannot be located or started, [run_command]
    exits after the one error of the launch: neither of its handlers runs,
    so that nothing is terminated, and no child exists. *)
Theorem run_command_launch_failure args msg fs0 :
  launch_fails E fs0 args msg ->
  exists s',
    run_command E args (init_state fs0) = (Raise (SystemExit 1), s')
    /\ procs s' = []
    /\ launched (trace s') = []
    /\ reported (trace s') = [msg].
Proof.
  intros Hfail. rewrite run_command_unfold. unfold try_except, command_attempt.
  destruct (run_command_internal_fails E Hquiet args msg
              (bind_proc None (init_state fs0)) Hfail)
    as (evs & k & Hr & Hq).
  unfold bind at 1. rewrite Hr. eexists. split; [reflexivity|].
  cbn [procs trace init_state bind_proc app].
  apply info_silent in Hq as (Hq1 & Hq2 & _).
  rewrite launched_app, reported_app, Hq1, Hq2. repeat split; reflexivity.
Qed.

(** X17. A stale entry of the wrong kind: a regular file where the meta
    data directory goes makes [shutil.rmtree] raise, and a directory where
    the image goes makes [os.remove] raise; when no child has been launched
    yet, the handler of line 138 then fails on the unbound [proc], and the
    call ends in [UnboundLocalError] with nothing written and nothing
    removed. *)
Theorem stale_entry_of_wrong_kind base tag image_path tgt fs0 z :
  PyStr.has_char ":" tag = false ->
  (fs0 !! (image_path +:+ "/meta") = Some (File z) ->
   forall pull_sqfs,
     exists s',
       pull_uenv E (base +:+ ":" +:+ tag) image_path tgt true pull_sqfs
         (init_state fs0) = (Raise (UnboundLocalError "proc"), s')
       /\ trace s' = [] /\ fs s' = fs0)
  /\ (fs0 !! (image_path +:+ "/store.squashfs") = Some (Dir z) ->
      exists s',
        pull_uenv E (base +:+ ":" +:+ tag) image_path tgt false true
          (init_state fs0) = (Raise (UnboundLocalError "proc"), s')
        /\ trace s' = [] /\ fs s' = fs0).
Proof.
  intros Htag. split.
  - intros Hfile pull_sqfs.
    rewrite (pull_uenv_split E _ base tag) by (apply rfind_split_tagged, Htag).
    unfold pull_meta_step. open_env E. run. rewrite Hfile. run.
    rewrite Hfile. run. eexists. repeat split; reflexivity.
  - intros Hdir.
    rewrite (pull_uenv_split E _ base tag) by (apply rfind_split_tagged, Htag).
    unfold pull_sqfs_step. open_env E. run. rewrite Hdir. run.
    rewrite Hdir. run. eexists. repeat split; reflexivity.
Qed.

End MoreFailures.

(** ** The answer of the discovery *)

Section Answers.


Context (E : env) (Hquiet : interrupt_at E = None).
Context (p : string) (Hwhich : which_oras E = Some p) (Hp : p <> "").
Context (base tag image_path : string) (fs0 : gmap string node).
Context (discovery : child).
Hypothesis Hmeta : forall z, fs0 !! (image_path +:+ "/meta") <> Some (File z).
Hypothesis Hdiscover :
  forall q, oras E (q :: discover_args base tag) = Spawned discovery.

Lemma first_digest_raises stdout e :
  first_digest stdout = inl e -> is_Exception e = true.
Proof.
  unfold first_digest.
  destruct (PyVal.json_loads stdout) as [e1|doc] eqn:H1;
    [intros [= <-]; eapply json_loads_raises; eassumption|].
  destruct (PyVal.getitem_str doc "manifests") as [e2|ms] eqn:H2;
    [intros [= <-]; eapply getitem_str_raises; eassumption|].
  destruct (PyVal.len ms) as [e3|[|n]] eqn:H3;
    [intros [= <-]; eapply len_raises; eassumption | discriminate |].
  destruct (PyVal.getitem_0 ms) as [e4|first] eqn:H4;
    [intros [= <-]; eapply getitem_0_raises; eassumption|].
  destruct (PyVal.getitem_str first "digest") as [e5|d] eqn:H5;
    [intros [= <-]; eapply getitem_str_raises; eassumption | discriminate].
Qed.

(** The discovery has run: the state in which its answer is read. *)
Lemma meta_step_undecodable e :
  child_exit discovery = 0 ->
  first_digest (child_stdout discovery) = inl e ->
  exists q evs k,
    pull_meta_step E base tag image_path (bind_proc None (init_state fs0)) =
      (Raise e,
       {| fs := foldl apply_step (cleaned_meta image_path fs0)
                  (steps discovery);
          procs := [reaped (started (q :: discover_args base tag) discovery)];
          trace := evs; clock := k; proc := Some 0%nat |})
    /\ launched evs = [q :: discover_args base tag]
    /\ reported evs = [].
Proof.
  intros Hexit Hfirst. unfold pull_meta_step, init_state, cleaned_meta.
  pose proof (fun a s => run_command_internal_spawned E Hquiet a discovery p s
                Hwhich Hp) as Hrun.
  unfold first_digest in Hfirst.
  open_env E. run.
  destruct (fs0 !! _) as [[z|z]|] eqn:Hlook; [destruct (Hmeta z eq_refl)| |];
    run; rewrite ?Hlook; run;
    match goal with
    | |- context [run_command_internal ?e ?a ?s] =>
        destruct (Hrun a s Hdiscover) as (q & evs & k & -> & Hq)
    end;
    run; rewrite Hexit; run;
    (destruct (PyVal.json_loads _) as [e1|doc];
     [injection Hfirst as <-|
      run;
      destruct (PyVal.getitem_str doc _) as [e2|ms];
      [injection Hfirst as <-|
       run;
       destruct (PyVal.len ms) as [e3|[|n]];
       [injection Hfirst as <-|discriminate|
        run;
        destruct (PyVal.getitem_0 ms) as [e4|first];
        [injection Hfirst as <-|
         run;
         destruct (PyVal.getitem_str first _) as [e5|d];
         [injection Hfirst as <-|discriminate]]]]]);
    run; eexists q, _, _; (split; [reflexivity|]); observe;
    split; reflexivity.
Qed.


(** X12. When the discovery exits with code zero but its standard output
    cannot be decoded down to the digest of a first manifest (it is not
    JSON, it has no [manifests], the first manifest has no [digest], ...),
    the exception of the decoding reaches the handler of line 138: the
    child is terminated, an empty line is written, the failure is reported
    with the text of the exception, and the call exits; the discovery is
    the only child launched. *)
Theorem undecodable_answer_fails e tgt pull_sqfs :
  PyStr.has_char ":" tag = false ->
  child_exit discovery = 0 ->
  first_digest (child_stdout discovery) = inl e ->
  exists q evs s',
    pull_uenv E (base +:+ ":" +:+ tag) image_path tgt true pull_sqfs
      (init_state fs0) = (Raise (SystemExit 1), s')
    /\ trace s' =
         evs ++
         [ETerminate 0; EStdout "";
          EError ("image pull failed with unknown exception: "
                  +:+ exc_text E e)]
    /\ launched evs = [q :: discover_args base tag]
    /\ reported evs = [].
Proof.
  intros Htag Hexit Hfirst.
  destruct (meta_step_undecodable e Hexit Hfirst)
    as (q & evs & k & Hstep & Hl & Hr).
  pose proof (first_digest_raises _ _ Hfirst) as He.
  exists q, evs.
  rewrite (pull_uenv_split E _ base tag) by (apply rfind_split_tagged, Htag).
  unfold frame, try_except. unfold bind at 1. rewrite Hstep.
  destruct e; try discriminate He;
    unfold bind, read_proc, terminate, terminal_stdout, terminal_error, call;
    rewrite Hquiet; cbn; rewrite <- !app_assoc;
    (eexists; split; [reflexivity|]); cbn; auto.
Qed.

(** X11. When the discovery exits with a code other than zero, the call
    exits after one error, made of the raw error output of the child, a
    line feed and the hint; the standard output of the child is not
    decoded, whatever it holds, and the discovery is the only child
    launched. *)
Theorem failed_discovery_aborts tgt pull_sqfs :
  PyStr.has_char ":" tag = false ->
  child_exit discovery <> 0 ->
  exists q s',
    pull_uenv E (base +:+ ":" +:+ tag) image_path tgt true pull_sqfs
      (init_state fs0) = (Raise (SystemExit 1), s')
    /\ launched (trace s') = [q :: discover_args base tag]
    /\ reported (trace s') =
         ["failed to find meta data: " +:+ child_stderr discovery +:+ nl +:+
          error_message_from_stderr E (child_stderr discovery)].
Proof.
  intros Htag Hexit.
  assert (Hstep : exists q s1,
    pull_meta_step E base tag image_path (bind_proc None (init_state fs0)) =
      (Raise (SystemExit 1), s1)
    /\ launched (trace s1) = [q :: discover_args base tag]
    /\ reported (trace s1) =
         ["failed to find meta data: " +:+ child_stderr discovery +:+ nl +:+
          error_message_from_stderr E (child_stderr discovery)]).
  { unfold pull_meta_step, init_state.
    pose proof (fun a s => run_command_internal_spawned E Hquiet a discovery
                  p s Hwhich Hp) as Hrun.
    open_env E. run.
    destruct (fs0 !! _) as [[z|z]|] eqn:Hlook;
      [destruct (Hmeta z eq_refl)| |];
      run; rewrite ?Hlook; run;
      match goal with
      | |- context [run_command_internal ?e ?a ?s] =>
          destruct (Hrun a s Hdiscover) as (q & evs & k & -> & Hq)
      end;
      run;
      (destruct (child_exit discovery) eqn:Hcode; [congruence| |]); run;
      eexists q, _; (split; [reflexivity|]); observe;
      split; reflexivity. }
  destruct Hstep as (q & s1 & Hstep & Hobs).
  exists q, s1. split; [|exact Hobs].
  apply (pull_uenv_meta_exits E _ base tag); [|exact Hstep].
  apply rfind_split_tagged, Htag.
Qed.

End Answers.

(** ** The pull of the image, effect by effect *)

Section ImageRuns.


Context (E : env) (Hquiet : interrupt_at E = None).
Context (p : string) (Hwhich : which_oras E = Some p) (Hp : p <> "").
Context (base tag image_path : string) (tgt : target) (c : child).
Hypothesis Hpull :
  forall q,
    oras E (q :: pull_args image_path (base +:+ ":" +:+ tag)) = Spawned c.
Hypothesis Hdiv : is_tty E = false \/ size tgt <> 0.

Let sqfs_path : string := image_path +:+ "/store.squashfs".

Lemma sqfs_step_runs done f t k x :
  Forall idle done ->
  (forall z, f !! sqfs_path <> Some (Dir z)) ->
  exists q evs k',
    pull_sqfs_step E base tag image_path tgt
      {| fs := f; procs := done; trace := t; clock := k; proc := x |}
    = (if child_exit c =? 0 then Ret tt else Raise (SystemExit 1),
       {| fs := foldl apply_step (cleaned_sqfs image_path f) (steps c);
          procs :=
            done ++
            [reaped (started (q :: pull_args image_path
                                     (base +:+ ":" +:+ tag)) c)];
          trace :=
            t ++ sqfs_cleanup image_path f ++ evs ++
            EPopen (length done)
              (q :: pull_args image_path (base +:+ ":" +:+ tag)) ::
            loop_events E sqfs_path (mb (size tgt))
              (cleaned_sqfs image_path f) (steps c) ++
            verdict E tgt c;
          clock := k'; proc := Some (length done) |})
    /\ forallb is_info evs = true.
Proof.
  intros Hdone Hsqfs. subst sqfs_path.
  assert (Hdiv' : is_tty E = false \/ Qeq_bool (mb (size tgt)) 0 = false).
  { destruct Hdiv as [H|H]; [left; exact H | right; apply mb_nonzero, H]. }
  assert (Hrest : forall f1 t1 k1,
    exists q evs k',
      (h <- run_command_internal E
              ["pull"; "-o"; image_path; base +:+ ":" +:+ tag];;
       assign_proc h;;
       fuel <- loop_bound h;;
       monitor E fuel h (image_path +:+ "/store.squashfs") (mb (size tgt));;
       r <- communicate E h;;
       (let '(stdout, stderr) := r in
        rc <- get_returncode h;;
        (if is_zero rc
         then progress_bar E 1 50 (mb_label (mb (size tgt)) (mb (size tgt)));;
              terminal_stdout E "";;
              terminal_info E ("oras command successful: " +:+ stdout)
         else terminal_error E ("image pull failed: " +:+ stderr +:+ nl +:+
                                error_message_from_stderr E stderr))))%py
        {| fs := f1; procs := done; trace := t1; clock := k1; proc := x |}
      = (if child_exit c =? 0 then Ret tt else Raise (SystemExit 1),
         {| fs := foldl apply_step f1 (steps c);
            procs :=
              done ++
              [reaped (started (q :: pull_args image_path
                                       (base +:+ ":" +:+ tag)) c)];
            trace :=
              t1 ++ evs ++
              EPopen (length done)
                (q :: pull_args image_path (base +:+ ":" +:+ tag)) ::
              loop_events E (image_path +:+ "/store.squashfs")
                (mb (size tgt)) f1 (steps c) ++
              verdict E tgt c;
            clock := k'; proc := Some (length done) |})
      /\ forallb is_info evs = true).
  { intros f1 t1 k1.
    destruct (run_command_internal_spawned E Hquiet
                (pull_args image_path (base +:+ ":" +:+ tag)) c p
                {| fs := f1; procs := done; trace := t1; clock := k1;
                   proc := x |}
                Hwhich Hp Hpull)
      as (q & evs & k2 & Hr & Hq).
    cbn [fs procs trace clock proc] in Hr.
    unfold bind at 1.
    change ["pull"; "-o"; image_path; base +:+ ":" +:+ tag]
      with (pull_args image_path (base +:+ ":" +:+ tag)).
    rewrite Hr.
    unfold bind at 1, assign_proc, bind_proc. cbn [fs procs trace clock proc].
    unfold bind at 1, loop_bound. cbn [fs procs trace clock proc].
    rewrite lookup_snoc. cbn [started pending].
    unfold bind at 1.
    destruct (monitor_completes E Hquiet (image_path +:+ "/store.squashfs")
                (mb (size tgt)) Hdiv' (steps c) (S (length (steps c))) f1
                (t1 ++ evs ++
                 [EPopen (length done)
                    (q :: pull_args image_path (base +:+ ":" +:+ tag))])
                k2 (Some (length done))
                (started (q :: pull_args image_path (base +:+ ":" +:+ tag)) c)
                done Hdone eq_refl eq_refl)
      as (k3 & ->); [lia|].
    unfold bind at 1. rewrite (communicate_snoc E Hquiet).
    cbn [reaped pending foldl out_text err_text started].
    unfold bind at 1, get_returncode. cbn [fs procs trace clock proc].
    rewrite lookup_snoc. cbn [reaped returncode exit_code started].
    exists q, evs. unfold verdict.
    destruct (child_exit c) eqn:Hexit; cbn [is_zero Z.eqb];
      unfold bind, progress_bar, terminal_stdout, terminal_info,
        terminal_error, call;
      rewrite Hquiet; cbn;
      (eexists; split; [|exact Hq]); rewrite <- ?app_assoc; reflexivity. }
  unfold pull_sqfs_step, cleaned_sqfs, sqfs_cleanup. cbv zeta.
  unfold bind at 1. unfold os_path_exists at 1, call at 1.
  rewrite Hquiet. cbn [interrupted tick fs procs trace clock proc].
  destruct (f !! (image_path +:+ "/store.squashfs")) as [[z|z]|] eqn:Hlook;
    [|destruct (Hsqfs z eq_refl)|].
  - unfold bind at 1. unfold bind at 1. unfold os_remove at 1, call at 1.
    rewrite Hquiet. cbn [interrupted tick log set_fs fs procs trace clock
                         proc].
    rewrite Hlook. cbn [fst snd].
    rewrite (sleep_idle E Hquiet) by exact Hdone.
    destruct (Hrest (delete (image_path +:+ "/store.squashfs") f)
                ((t ++ [ERemove (image_path +:+ "/store.squashfs")]) ++
                 [ESleep (1 # 20)]) (S (S (S k))))
      as (q & evs & k' & -> & Hq).
    exists q, evs, k'. split; [|exact Hq].
    rewrite <- !app_assoc. reflexivity.
  - unfold bind at 1. cbn [ret].
    destruct (Hrest f t (S k)) as (q & evs & k' & -> & Hq).
    exists q, evs, k'. split; [|exact Hq]. reflexivity.
Qed.


(** X13. A call for the image alone, from the first to the last effect:
    the stale image, if there is one, is removed and a pause follows; the
    client is launched once; every tick sleeps and, on a terminal, draws
    the bar of the file it finds; the verdict closes the trace, the final
    bar, the empty line and the success message for exit code zero, the
    one error otherwise.  The file system is the one the child has written
    on top of the cleanup, and the child is reaped. *)
Theorem image_pull_unfolds fs0 :
  PyStr.has_char ":" tag = false ->
  (forall z, fs0 !! sqfs_path <> Some (Dir z)) ->
  exists q evs k,
    pull_uenv E (base +:+ ":" +:+ tag) image_path tgt false true
      (init_state fs0)
    = (if child_exit c =? 0 then Ret tt else Raise (SystemExit 1),
       {| fs := foldl apply_step (cleaned_sqfs image_path fs0) (steps c);
          procs :=
            [reaped (started (q :: pull_args image_path
                                     (base +:+ ":" +:+ tag)) c)];
          trace :=
            sqfs_cleanup image_path fs0 ++ evs ++
            EPopen 0 (q :: pull_args image_path (base +:+ ":" +:+ tag)) ::
            loop_events E sqfs_path (mb (size tgt))
              (cleaned_sqfs image_path fs0) (steps c) ++
            verdict E tgt c;
          clock := k; proc := Some 0%nat |})
    /\ forallb is_info evs = true.
Proof.
  intros Htag Hsqfs.
  rewrite (pull_uenv_split E _ base tag) by (apply rfind_split_tagged, Htag).
  unfold frame, try_except. unfold bind at 1. cbn [ret].
  destruct (sqfs_step_runs [] fs0 [] 0%nat None ltac:(constructor) Hsqfs)
    as (q & evs & k & Hrun & Hq).
  exists q, evs, k. split; [|exact Hq].
  change (bind_proc None (init_state fs0))
    with {| fs := fs0; procs := []; trace := []; clock := 0; proc := None |}.
  rewrite Hrun. destruct (child_exit c =? 0); reflexivity.
Qed.

End ImageRuns.

(** ** Both components *)

Section WholePull.


Context (E : env) (Hquiet : interrupt_at E = None).
Context (p : string) (Hwhich : which_oras E = Some p) (Hp : p <> "").
Context (base tag image_path : string) (tgt : target).
Context (fs0 : gmap string node) (discovery meta image : child).
Context (digest : json).

Hypothesis Hmeta : forall z, fs0 !! (image_path +:+ "/meta") <> Some (File z).
Hypothesis Hdiscover :
  forall q, oras E (q :: discover_args base tag) = Spawned discovery.
Hypothesis Hexit : child_exit discovery = 0.
Hypothesis Hdigest : first_digest (child_stdout discovery) = inr (Some digest).
Hypothesis Hpull_meta :
  forall q,
    oras E (q :: pull_args image_path
                   (base +:+ "@" +:+ format_value E digest))
      = Spawned meta.

(** The file system the meta data step leaves. *)
Let fs1 : gmap string node :=
  foldl apply_step
    (foldl apply_step (cleaned_meta image_path fs0) (steps discovery))
    (steps meta).

Lemma meta_step_completes :
  exists q1 q2 evs k,
    pull_meta_step E base tag image_path (bind_proc None (init_state fs0)) =
      (Ret tt,
       {| fs := fs1;
          procs :=
            [reaped (started (q1 :: discover_args base tag) discovery);
             reaped (started
                       (q2 :: pull_args image_path
                                (base +:+ "@" +:+ format_value E digest))
                       meta)];
          trace := evs; clock := k; proc := Some 1%nat |})
    /\ launched evs =
         [q1 :: discover_args base tag;
          q2 :: pull_args image_path
                  (base +:+ "@" +:+ format_value E digest)]
    /\ reported evs = [].
Proof.
  subst fs1. unfold pull_meta_step, init_state, cleaned_meta.
  pose proof (fun a c s => run_command_internal_spawned E Hquiet a c p s
                Hwhich Hp) as Hrun.
  pose proof Hdigest as Hfirst. unfold first_digest in Hfirst.
  open_env E. run.
  destruct (fs0 !! _) as [[z|z]|] eqn:Hlook; [destruct (Hmeta z eq_refl)| |];
    run; rewrite ?Hlook; run;
    match goal with
    | |- context [run_command_internal ?e ?a ?s] =>
        destruct (Hrun a discovery s Hdiscover) as (q1 & evs1 & k1 & -> & Hq1)
    end;
    run; rewrite Hexit; run;
    (destruct (PyVal.json_loads _) as [e1|doc]; [discriminate|]);
    run;
    (destruct (PyVal.getitem_str doc _) as [e2|ms]; [discriminate|]);
    run;
    (destruct (PyVal.len ms) as [e3|[|n]]; [discriminate..|]);
    run;
    (destruct (PyVal.getitem_0 ms) as [e4|first]; [discriminate|]);
    run;
    (destruct (PyVal.getitem_str first _) as [e5|d]; [discriminate|]);
    injection Hfirst as ->;
    run;
    match goal with
    | |- context [run_command_internal ?e ?a ?s] =>
        destruct (Hrun a meta s Hpull_meta) as (q2 & evs2 & k2 & -> & Hq2)
    end;
    run; eexists q1, q2, _, _; (split; [reflexivity|]);
    observe; split; reflexivity.
Qed.

Hypothesis Hpull :
  forall q,
    oras E (q :: pull_args image_path (base +:+ ":" +:+ tag)) = Spawned image.
Hypothesis Hdiv : is_tty E = false \/ size tgt <> 0.
Hypothesis Hsqfs :
  forall z, fs1 !! (image_path +:+ "/store.squashfs") <> Some (Dir z).

(** X15. A call for both components with a discovery that succeeds: the
    three children are launched in the order discovery, pull of the meta
    data by digest, pull of the image by tag; whatever the exit code of the
    second, the outcome is decided by the third alone, return without a
    report for exit code zero and exit with the one image pull error
    otherwise; and the file system is what the three children wrote, in
    this order, with the two cleanups before the first and the third. *)
Theorem whole_pull_runs_three_children :
  PyStr.has_char ":" tag = false ->
  exists q1 q2 q3 s',
    pull_uenv E (base +:+ ":" +:+ tag) image_path tgt true true
      (init_state fs0)
    = (if child_exit image =? 0 then Ret tt else Raise (SystemExit 1), s')
    /\ launched (trace s') =
         [q1 :: discover_args base tag;
          q2 :: pull_args image_path
                  (base +:+ "@" +:+ format_value E digest);
          q3 :: pull_args image_path (base +:+ ":" +:+ tag)]
    /\ reported (trace s') =
         (if child_exit image =? 0 then []
          else ["image pull failed: " +:+ child_stderr image +:+ nl +:+
                error_message_from_stderr E (child_stderr image)])
    /\ fs s' = foldl apply_step (cleaned_sqfs image_path fs1) (steps image).
Proof.
  intros Htag.
  destruct meta_step_completes as (q1 & q2 & evs & k & Hstep & Hl & Hr).
  rewrite (pull_uenv_split E _ base tag) by (apply rfind_split_tagged, Htag).
  unfold frame, try_except. unfold bind at 1. rewrite Hstep.
  cbv beta iota.
  destruct (sqfs_step_runs E Hquiet p Hwhich Hp base tag image_path tgt image
              Hpull Hdiv
              [reaped (started (q1 :: discover_args base tag) discovery);
               reaped (started
                         (q2 :: pull_args image_path
                                  (base +:+ "@" +:+ format_value E digest))
                         meta)]
              fs1 evs k (Some 1%nat)
              ltac:(repeat constructor) Hsqfs)
    as (q3 & evs3 & k3 & -> & Hq3).
  exists q1, q2, q3. eexists.
  split; [destruct (child_exit image =? 0); reflexivity|].
  cbn [trace fs].
  destruct (loop_events_silent E (image_path +:+ "/store.squashfs")
              (mb (size tgt)) (cleaned_sqfs image_path fs1) (steps image))
    as [Hl3 Hr3].
  apply info_silent in Hq3 as (Hq31 & Hq32 & _).
  assert (Hc : launched (sqfs_cleanup image_path fs1) = []
               /\ reported (sqfs_cleanup image_path fs1) = []).
  { unfold sqfs_cleanup. destruct (fs1 !! _) as [[?|?]|]; split; reflexivity. }
  destruct Hc as [Hc1 Hc2].
  rewrite !launched_app, !reported_app.
  change (EPopen ?h ?cmd :: ?l) with ([EPopen h cmd] ++ l).
  rewrite !launched_app, !reported_app.
  rewrite Hl, Hr, Hc1, Hc2, Hq31, Hq32, Hl3, Hr3.
  unfold verdict. destruct (child_exit image =? 0);
    repeat split; reflexivity.
Qed.

End WholePull.

(** ** An expected size of zero *)

Section ZeroSize.


Context (E : env) (Hquiet : interrupt_at E = None).
Context (p : string) (Hwhich : which_oras E = Some p) (Hp : p <> "").
Context (base tag image_path : string) (tgt : target) (c : child).
Context (fs0 : gmap string node) (st : fs_step) (rest : list fs_step).
Context (n : node).
Hypothesis Hpull :
  forall q,
    oras E (q :: pull_args image_path (base +:+ ":" +:+ tag)) = Spawned c.
Hypothesis Htty : is_tty E = true.
Hypothesis Hsize : size tgt = 0.
Hypothesis Hsteps : steps c = st :: rest.
Hypothesis Hsqfs :
  forall z, fs0 !! (image_path +:+ "/store.squashfs") <> Some (Dir z).
Hypothesis Hthere :
  apply_step (cleaned_sqfs image_path fs0) st
    !! (image_path +:+ "/store.squashfs") = Some n.

(** X14. An expected size of zero on a terminal: at the first tick that
    finds the watched file, the fraction divides by zero; the exception
    reaches the handler of line 138, which terminates the child, writes
    an empty line and reports the failure with the text of
    [ZeroDivisionError]; no bar has been drawn. *)
Theorem zero_size_target_fails :
  PyStr.has_char ":" tag = false ->
  exists q evs s',
    pull_uenv E (base +:+ ":" +:+ tag) image_path tgt false true
      (init_state fs0) = (Raise (SystemExit 1), s')
    /\ trace s' =
         evs ++
         [ESleep (1 # 4); ETerminate 0; EStdout "";
          EError ("image pull failed with unknown exception: "
                  +:+ exc_text E ZeroDivisionError)]
    /\ launched evs = [q :: pull_args image_path (base +:+ ":" +:+ tag)]
    /\ reported evs = []
    /\ progress_lines evs = [].
Proof.
  intros Htag.
  rewrite (pull_uenv_split E _ base tag) by (apply rfind_split_tagged, Htag).
  unfold frame, try_except. unfold bind at 1. cbn [ret].
  assert (Hrest : forall f1 t1 k1,
    apply_step f1 st !! (image_path +:+ "/store.squashfs") = Some n ->
    exists q evs s1,
      (h <- run_command_internal E
              ["pull"; "-o"; image_path; base +:+ ":" +:+ tag];;
       assign_proc h;;
       fuel <- loop_bound h;;
       monitor E fuel h (image_path +:+ "/store.squashfs") (mb (size tgt));;
       r <- communicate E h;;
       (let '(stdout, stderr) := r in
        rc <- get_returncode h;;
        (if is_zero rc
         then progress_bar E 1 50 (mb_label (mb (size tgt)) (mb (size tgt)));;
              terminal_stdout E "";;
              terminal_info E ("oras command successful: " +:+ stdout)
         else terminal_error E ("image pull failed: " +:+ stderr +:+ nl +:+
                                error_message_from_stderr E stderr))))%py
        {| fs := f1; procs := []; trace := t1; clock := k1; proc := None |}
      = (Raise ZeroDivisionError, s1)
      /\ trace s1 = t1 ++ evs ++ [ESleep (1 # 4)]
      /\ proc s1 = Some 0%nat
      /\ (exists pr, procs s1 = [pr] /\ returncode pr = None)
      /\ launched evs = [q :: pull_args image_path (base +:+ ":" +:+ tag)]
      /\ reported evs = [] /\ progress_lines evs = []).
  { intros f1 t1 k1 Hf1.
    destruct (run_command_internal_spawned E Hquiet
                (pull_args image_path (base +:+ ":" +:+ tag)) c p
                {| fs := f1; procs := []; trace := t1; clock := k1;
                   proc := None |}
                Hwhich Hp Hpull)
      as (q & evs & k2 & Hr & Hq).
    cbn [fs procs trace clock proc] in Hr.
    unfold bind at 1.
    change ["pull"; "-o"; image_path; base +:+ ":" +:+ tag]
      with (pull_args image_path (base +:+ ":" +:+ tag)).
    rewrite Hr.
    unfold bind at 1, assign_proc, bind_proc. cbn [fs procs trace clock proc].
    unfold bind at 1, loop_bound. cbn [fs procs trace clock proc].
    rewrite (lookup_snoc []). cbn [started pending]. rewrite Hsteps.
    unfold bind at 1. cbn [length]. rewrite monitor_S.
    unfold bind at 1.
    rewrite (poll_snoc E Hquiet []) by reflexivity.
    cbn [started pending]. rewrite Hsteps.
    unfold bind at 1.
    rewrite (sleep_snoc E Hquiet [] _ st rest)
      by (first [constructor | cbn; exact Hsteps]).
    unfold bind at 1.
    unfold draw_progress, bind, os_path_exists, terminal_is_tty,
      os_path_getsize, call.
    rewrite Hquiet, Htty. cbn [interrupted tick fs procs trace clock proc ret].
    rewrite Hf1. cbn [interrupted tick fs procs trace clock proc ret].
    rewrite Hf1. cbn [lift]. rewrite Hsize.
    change (float_div (mb (node_size n)) (mb 0)) with
      (@inl exn Q ZeroDivisionError).
    cbn [lift raise].
    exists q, (evs ++ [EPopen 0 (q :: pull_args image_path
                                        (base +:+ ":" +:+ tag))]).
    eexists. split; [reflexivity|]. cbn [trace proc procs].
    split; [rewrite <- !app_assoc; reflexivity|].
    split; [reflexivity|].
    split; [eexists; split; reflexivity|].
    apply info_silent in Hq as (Hq1 & Hq2 & Hq3).
    rewrite launched_app, reported_app, progress_lines_app, Hq1, Hq2, Hq3.
    repeat split; reflexivity. }
  unfold pull_sqfs_step. cbv zeta.
  unfold bind at 1. unfold os_path_exists at 1, call at 1.
  rewrite Hquiet.
  cbn [interrupted init_state bind_proc tick fs procs trace clock proc].
  unfold cleaned_sqfs in Hthere.
  destruct (fs0 !! (image_path +:+ "/store.squashfs")) as [[z|z]|] eqn:Hlook;
    [|destruct (Hsqfs z eq_refl)|].
  - unfold bind at 1. unfold bind at 1. unfold os_remove at 1, call at 1.
    rewrite Hquiet. cbn [interrupted tick log set_fs fs procs trace clock
                         proc].
    rewrite Hlook. cbn [fst snd].
    rewrite (sleep_idle E Hquiet) by constructor.
    destruct (Hrest (delete (image_path +:+ "/store.squashfs") fs0)
                (([] ++ [ERemove (image_path +:+ "/store.squashfs")]) ++
                 [ESleep (1 # 20)]) 3%nat Hthere)
      as (q & evs & s1 & -> & Ht & Hp1 & (pr & Hps & Hrc) & Hl & Hr & Hd).
    cbn [is_Exception].
    destruct s1 as [f1 ps1 t1 k1 x1]. cbn in Ht, Hp1, Hps. subst t1 x1 ps1.
    unfold bind, read_proc, terminate, terminal_stdout, terminal_error, call.
    rewrite Hquiet. cbn. rewrite Hrc. cbn.
    exists q,
      ([ERemove (image_path +:+ "/store.squashfs"); ESleep (1 # 20)] ++ evs).
    eexists. split; [reflexivity|]. cbn [trace].
    split; [rewrite <- !app_assoc; reflexivity|].
    rewrite launched_app, reported_app, progress_lines_app, Hl, Hr, Hd.
    repeat split; reflexivity.
  - unfold bind at 1. cbn [ret].
    destruct (Hrest fs0 [] 1%nat Hthere)
      as (q & evs & s1 & -> & Ht & Hp1 & (pr & Hps & Hrc) & Hl & Hr & Hd).
    cbn [is_Exception].
    destruct s1 as [f1 ps1 t1 k1 x1]. cbn in Ht, Hp1, Hps. subst t1 x1 ps1.
    unfold bind, read_proc, terminate, terminal_stdout, terminal_error, call.
    rewrite Hquiet. cbn. rewrite Hrc. cbn.
    exists q, evs.
    eexists. split; [reflexivity|]. cbn [trace].
    split; [rewrite <- !app_assoc; reflexivity|].
    repeat split; assumption.
Qed.

End ZeroSize.

(** ** The properties on the sample installation *)

Section Scenarios.

Import Sample.

(** The end-to-end scenario of the specification: the discovery answers
    with the manifests of [sha256:abc] and [sha256:def], in this order. *)
Lemma first_manifest_digest_selected_sample :
  exists q1 q2 more,
    launched
      (trace (snd (pull_uenv (installation healthy true None) address
                     image_path image true true (init_state ∅)))) =
    [q1 :: discover_args base tag;
     q2 :: pull_args image_path (base +:+ "@" +:+ "sha256:abc")] ++ more.
Proof.
  refine (first_manifest_digest_selected (installation healthy true None)
           eq_refl "/usr/bin/oras" eq_refl _
           base tag image_path ∅ (quiet two_manifests "" 0) _ _
           (JObj [("manifests",
                   JArr [JObj [("digest", JStr "sha256:abc")];
                         JObj [("digest", JStr "sha256:def")]])])
           (JObj [("digest", JStr "sha256:abc")])
           [JObj [("digest", JStr "sha256:def")]]
           (JStr "sha256:abc") (quiet "Pulled" "" 0) image true
           _ _ _ _ _ _);
    first [ reflexivity | discriminate | intros q; reflexivity
          | intros z; vm_compute; discriminate ].
Defined.

Lemma empty_manifest_list_aborts_sample :
  exists q s',
    pull_uenv (installation bare true None) address image_path image
      true true (init_state ∅) = (Raise (SystemExit 1), s')
    /\ launched (trace s') = [q :: discover_args base tag]
    /\ reported (trace s') = ["no meta data is available"].
Proof.
  refine (empty_manifest_list_aborts (installation bare true None)
           eq_refl "/usr/bin/oras" eq_refl _
           base tag image_path ∅ (quiet no_manifests "" 0) _ _
           (JObj [("manifests", JArr [])]) image true _ _ _);
    first [ reflexivity | discriminate | intros q; reflexivity
          | intros z; vm_compute; discriminate ].
Defined.

End Scenarios.

Section MoreScenarios.

Import Sample.

(** A child that exits with code 1 and the permission signature in its
    error output: the report holds the raw text and the hint. *)
Lemma hint_iff_permission_signature_sample :
  let E := installation (fun _ => Spawned (quiet "" denied 1)) true None in
  (error_message_from_stderr E denied = permission_hint E <->
   exists before after,
     denied = before +:+ permission_signature +:+ after)
  /\ ((~ exists before after,
         denied = before +:+ permission_signature +:+ after) ->
      error_message_from_stderr E denied = "")
  /\ exists s',
       run_command E (pull_args image_path address) (init_state ∅)
         = (Raise (SystemExit 1), s')
       /\ reported (trace s') =
            ["oras command failed: " +:+ denied +:+ nl +:+
             error_message_from_stderr E denied].
Proof.
  intros E.
  refine (hint_iff_permission_signature E denied
            (pull_args image_path address) (quiet "" denied 1)
            "/usr/bin/oras" ∅ eq_refl eq_refl _ _ _ eq_refl);
    first [ discriminate | intros q; reflexivity ].
Defined.

(** Without a terminal, a successful pull of the image still draws the
    final bar: one progress line, not none. *)
Lemma final_bar_without_tty :
  is_tty (installation healthy false None) = false /\
  progress_lines
    (trace (snd (pull_uenv (installation healthy false None) address
                   image_path image false true (init_state ∅))))
  = [(1%Q, 50, "100/100 MB")].
Proof. split; vm_compute; reflexivity. Qed.


(** A registry with a port: the colon of the port stays in the base. *)
Lemma address_split_or_rejected_sample :
  let E := installation healthy true None in
  PyStr.rsplit1 ":" ("registry:5000/deploy/cp2k" +:+ ":" +:+ "v1")
    = ["registry:5000/deploy/cp2k"; "v1"] /\
  pull_uenv E ("registry:5000/deploy/cp2k" +:+ ":" +:+ "v1") image_path
      image true false (init_state ∅) =
    frame (try_except
      (pull_meta_step E "registry:5000/deploy/cp2k" "v1" image_path;;
       ret tt)
      (h <- read_proc;;
       terminate E h;;
       terminal_stdout E "";;
       terminal_error E "image pull cancelled by user.")
      (fun e =>
         h <- read_proc;;
         terminate E h;;
         terminal_stdout E "";;
         terminal_error E ("image pull failed with unknown exception: "
                           +:+ exc_text E e))) (init_state ∅) /\
  pull_uenv E "registry/deploy/cp2k" image_path image true false
    (init_state ∅)
    = (Raise (UnboundLocalError "proc"), bind_proc None (init_state ∅)).
Proof.
  intros E.
  exact (address_split_or_rejected E
           "registry:5000/deploy/cp2k" "v1" "registry/deploy/cp2k"
           image_path image true false (init_state ∅) eq_refl eq_refl).
Defined.

(** The same address, run: the meta data are pulled from the base with its
    port, by their digest. *)
Example address_with_port_is_pulled :
  launched (trace (snd (pull_uenv (installation healthy true None)
                          "registry:5000/deploy/cp2k:v1" image_path image
                          true false (init_state ∅)))) =
    [["/usr/bin/oras"; "discover"; "-o"; "json"; "--artifact-type";
      "uenv/meta"; "registry:5000/deploy/cp2k:v1"];
     ["/usr/bin/oras"; "pull"; "-o"; image_path;
      "registry:5000/deploy/cp2k@sha256:abc"]].
Proof. vm_compute. reflexivity. Qed.

Lemma pull_nothing_is_noop_sample :
  let r := pull_uenv (installation healthy true None) address image_path
             image false false (init_state ∅) in
  r = (Ret tt, bind_proc None (init_state ∅))
  /\ fs (snd r) = fs (init_state ∅)
  /\ procs (snd r) = procs (init_state ∅)
  /\ trace (snd r) = trace (init_state ∅).
Proof.
  exact (pull_nothing_is_noop (installation healthy true None) address
           image_path image (init_state ∅) eq_refl).
Defined.

End MoreScenarios.

Section FailureScenarios.

Import Sample.

(** No client next to the library, none on the search path; a client that
    cannot be started for the pull of the meta data; one that cannot be
    started for the pull of the image. *)
Lemma launch_failure_is_fatal_sample :
  (exists s',
     pull_uenv nothing_installed address image_path image true true
       (init_state ∅) = (Raise (SystemExit 1), s')
     /\ launched (trace s') = []
     /\ reported (trace s') = ["no oras executable found"])
  /\ (exists s',
     pull_uenv (installation (refusing true false) true None) address
       image_path image true true (init_state ∅)
       = (Raise (SystemExit 1), s')
     /\ launched (trace s') = ["/usr/bin/oras" :: discover_args base tag]
     /\ reported (trace s') =
          ["an unknown error occured with the oras client: <exception>"])
  /\ (exists s',
     pull_uenv (installation (refusing false true) true None) address
       image_path image true true (init_state ∅)
       = (Raise (SystemExit 1), s')
     /\ launched (trace s') =
          ["/usr/bin/oras" :: discover_args base tag;
           "/usr/bin/oras" :: pull_args image_path (base +:+ "@sha256:abc")]
     /\ reported (trace s') =
          ["an unknown error occured with the oras client: <exception>"]).
Proof.
  split; [|split].
  - assert (Hfail : launch_fails nothing_installed (fs (init_state ∅))
                      (discover_args base tag) "no oras executable found").
    { apply client_missing. vm_compute. reflexivity. }
    refine (proj1 (proj2 (launch_failure_is_fatal nothing_installed eq_refl
              base tag image_path ∅ eq_refl (discover_args base tag)
              (init_state ∅) "no oras executable found" image true Hfail))
              _ _ _).
    + intros z. vm_compute. discriminate.
    + apply client_missing. vm_compute. reflexivity.
  - pose (E := installation (refusing true false) true None).
    pose (by_digest := pull_args image_path (base +:+ "@sha256:abc")).
    assert (Hfail : launch_fails E (fs (init_state ∅)) by_digest
              ("an unknown error occured with the oras client: "
               +:+ exc_text E (OSError out_of_processes))).
    { apply (spawn_refused E _ _ "/usr/bin/oras" out_of_processes); vm_compute; reflexivity. }
    refine (proj1 (proj2 (proj2 (proj2 (launch_failure_is_fatal E eq_refl
              base tag image_path ∅ eq_refl by_digest
              (init_state ∅) _ image true Hfail))) "/usr/bin/oras"
              (quiet two_manifests "" 0) (JStr "sha256:abc") _ _ _ _ _) _ _).
    + intros z. vm_compute. discriminate.
    + vm_compute. reflexivity.
    + vm_compute. reflexivity.
    + reflexivity.
    + vm_compute. reflexivity.
    + apply (spawn_refused E _ _ "/usr/bin/oras" out_of_processes); vm_compute; reflexivity.
  - pose (E := installation (refusing false true) true None).
    pose (by_tag := pull_args image_path (base +:+ ":" +:+ tag)).
    assert (Hfail : launch_fails E (fs (init_state ∅)) by_tag
              ("an unknown error occured with the oras client: "
               +:+ exc_text E (OSError out_of_processes))).
    { apply (spawn_refused E _ _ "/usr/bin/oras" out_of_processes); vm_compute; reflexivity. }
    refine (proj2 (proj2 (proj2 (proj2 (launch_failure_is_fatal E eq_refl
              base tag image_path ∅ eq_refl by_tag
              (init_state ∅) _ image true Hfail))) "/usr/bin/oras"
              (quiet two_manifests "" 0) (JStr "sha256:abc") _ _ _ _ _)
              "/usr/bin/oras" (quiet "Pulled" "" 0) _ _ _ _ _).
    + intros z. vm_compute. discriminate.
    + vm_compute. reflexivity.
    + vm_compute. reflexivity.
    + reflexivity.
    + vm_compute. reflexivity.
    + vm_compute. reflexivity.
    + vm_compute. reflexivity.
    + intros z. vm_compute. discriminate.
    + apply (spawn_refused E _ _ "/usr/bin/oras" out_of_processes); vm_compute; reflexivity.
Defined.

(** The registry refuses the pull of the meta data: the call returns as if
    nothing had happened. *)
Lemma meta_pull_exit_code_ignored_sample :
  exists s',
    pull_uenv (installation meta_denied true None) address image_path image
      true false (init_state ∅) = (Ret tt, s')
    /\ reported (trace s') = [].
Proof.
  refine (meta_pull_exit_code_ignored (installation meta_denied true None)
            eq_refl "/usr/bin/oras" eq_refl _ base tag image_path ∅
            (quiet two_manifests "" 0) (quiet "" denied 1)
            (JObj [("manifests",
                    JArr [JObj [("digest", JStr "sha256:abc")];
                          JObj [("digest", JStr "sha256:def")]])])
            (JObj [("digest", JStr "sha256:abc")])
            [JObj [("digest", JStr "sha256:def")]]
            (JStr "sha256:abc") image _ _ _ _ _ _ _ _);
    first [ reflexivity | discriminate | intros q; reflexivity
          | intros z; vm_compute; discriminate ].
Defined.

(** Ctrl-C during the first library call of the call. *)
Lemma interrupt_before_first_launch_sample :
  let s := init_state ∅ in
  pull_uenv (installation healthy true (Some 0%nat)) address image_path
    image true true s
    = (Raise (UnboundLocalError "proc"), tick (bind_proc None s))
  /\ trace (tick (bind_proc None s)) = trace s.
Proof.
  exact (interrupt_before_first_launch (installation healthy true (Some 0%nat))
           base tag image_path image true (init_state ∅) eq_refl eq_refl).
Defined.

(** The registry refuses the image half way: the call aborts and reports
    the raw error output of the child, with the hint. *)
Example image_pull_failure_reported :
  let r := pull_uenv (installation image_denied true None) address
             image_path image false true (init_state ∅) in
  fst r = Raise (SystemExit 1) /\
  reported (trace (snd r)) =
    ["image pull failed: " +:+ denied +:+ nl +:+
     permission_hint (installation image_denied true None)].
Proof. split; vm_compute; reflexivity. Qed.

(** Ctrl-C while the image is being pulled: the child is sent the signal,
    the progress line is closed, the cancellation is reported.  Nobody has
    waited for the child: its return code is still unset. *)
Example interrupt_during_image_pull :
  let r := pull_uenv (installation healthy true (Some 12%nat)) address
             image_path image false true (init_state ∅) in
  fst r = Raise (SystemExit 1) /\
  drop (length (trace (snd r)) - 3) (trace (snd r)) =
    [ETerminate 0; EStdout ""; EError "image pull cancelled by user."] /\
  returncode <$> procs (snd r) !! 0%nat = Some None.
Proof. repeat split; vm_compute; reflexivity. Qed.

(** The end-to-end scenario of the specification: 100 MB expected, the
    file grows by 25 MB at every tick, on a terminal.  Four bars at a
    quarter, a half, three quarters and one, then the final bar and the
    line feed. *)
Example progress_of_a_download :
  let r := pull_uenv (installation healthy true None) address
             image_path image false true (init_state ∅) in
  fst r = Ret tt /\
  map (fun '(p, w, m) => (Qred p, w, m)) (progress_lines (trace (snd r))) =
    [(1 # 4, 50, "25/100 MB"); (1 # 2, 50, "50/100 MB");
     (3 # 4, 50, "75/100 MB"); (1%Q, 50, "100/100 MB");
     (1%Q, 50, "100/100 MB")] /\
  drop (length (trace (snd r)) - 3) (trace (snd r)) =
    [EProgressBar 1 50 "100/100 MB"; EStdout "";
     EInfo "oras command successful: Pulled"].
Proof. repeat split; vm_compute; reflexivity. Qed.

End FailureScenarios.

Section SilentScenario.

Import Sample.

Lemma no_tick_progress_without_tty_sample :
  let E := installation healthy false None in
  (forall addr image_path pull_meta pull_sqfs s,
     let s' := snd (pull_uenv E addr image_path image pull_meta pull_sqfs s) in
     progress_lines (trace s') = progress_lines (trace s) \/
     progress_lines (trace s') =
       progress_lines (trace s) ++
       [(1%Q, 50, mb_label (mb (size image)) (mb (size image)))])
  /\ (forall p base tag image_path c fs0,
        interrupt_at E = None ->
        which_oras E = Some p -> p <> "" ->
        PyStr.has_char ":" tag = false ->
        (forall q,
           oras E (q :: pull_args image_path (base +:+ ":" +:+ tag))
             = Spawned c) ->
        (forall z,
           fs0 !! (image_path +:+ "/store.squashfs") <> Some (Dir z)) ->
        progress_lines
          (trace (snd (pull_uenv E (base +:+ ":" +:+ tag) image_path image
                         false true (init_state fs0)))) =
        if child_exit c =? 0
        then [(1%Q, 50, mb_label (mb (size image)) (mb (size image)))]
        else []).
Proof.
  exact (no_tick_progress_without_tty (installation healthy false None)
           eq_refl image).
Defined.

End SilentScenario.

(** ** Further properties on the sample installation *)

Section ExtraScenarios.

Import Sample.

(** The client next to the library wins over the one on the search path. *)
Lemma find_oras_precedence_sample :
  let E := installation healthy true None in
  let s := init_state {[ "/opt/uenv/libexec/uenv-oras" := File 1 ]} in
  find_oras E s =
    (Ret "/opt/uenv/libexec/uenv-oras",
     {| fs := fs s; procs := procs s;
        trace := trace s ++
                 [EInfo ("searching for oras executable: "
                         +:+ "/opt/uenv/libexec/uenv-oras");
                  EInfo ("using " +:+ "/opt/uenv/libexec/uenv-oras")];
        clock := (3 + clock s)%nat; proc := proc s |}).
Proof.
  intros E s.
  refine (proj1 (find_oras_precedence E eq_refl s) 1 _).
  vm_compute. reflexivity.
Defined.

Lemma run_command_internal_launches_sample :
  let E := installation healthy true None in
  let args := discover_args base tag in
  let c := quiet two_manifests "" 0 in
  let s := init_state ∅ in
  exists evs k,
    run_command_internal E args s =
      (Ret (length (procs s)),
       {| fs := fs s;
          procs := procs s ++
                   [{| command := "/usr/bin/oras" :: args;
                       pending := steps c;
                       out_text := child_stdout c; err_text := child_stderr c;
                       exit_code := child_exit c; returncode := None |}];
          trace := trace s ++ evs ++
                   [EInfo ("calling oras: " +:+
                           PyStr.join " " ("/usr/bin/oras" :: args));
                    EPopen (length (procs s)) ("/usr/bin/oras" :: args)];
          clock := k; proc := proc s |})
    /\ forallb is_info evs = true.
Proof.
  intros E args c s.
  refine (run_command_internal_launches E eq_refl args c "/usr/bin/oras" s
            _ _);
    vm_compute; reflexivity.
Defined.

Lemma run_command_succeeds_sample :
  let E := installation (fun _ => Spawned (quiet "Pulled" "" 0)) true None in
  let args := pull_args image_path address in
  exists q evs k,
    run_command E args (init_state ∅) =
      (Ret tt,
       {| fs := foldl apply_step ∅ (steps (quiet "Pulled" "" 0));
          procs := [reaped (started (q :: args) (quiet "Pulled" "" 0))];
          trace := evs ++
                   [EPopen 0 (q :: args);
                    EInfo ("oras command successful: " +:+ "Pulled")];
          clock := k; proc := Some 0%nat |})
    /\ forallb is_info evs = true.
Proof.
  intros E args.
  refine (run_command_succeeds E eq_refl "/usr/bin/oras" eq_refl _ args
            (quiet "Pulled" "" 0) _ ∅ eq_refl);
    first [ discriminate | intros q; reflexivity ].
Defined.


(** A directory where the image is to be stored: [os.remove] fails on it,
    one line before the launch of the pull, and nothing is launched. *)
Lemma unbound_proc_means_nothing_launched_sample :
  let s := init_state {[ sqfs_path := Dir 4096 ]} in
  let r := pull_uenv (installation healthy true None) address
             image_path image false true s in
  fst r = Raise (UnboundLocalError "proc")
  /\ launched (trace (snd r)) = launched (trace s)
  /\ reported (trace (snd r)) = reported (trace s).
Proof.
  intros s r.
  assert (Hr : fst r = Raise (UnboundLocalError "proc"))
    by (vm_compute; reflexivity).
  split; [exact Hr|].
  exact (unbound_proc_means_nothing_launched (installation healthy true None)
           address image_path image false true s eq_refl Hr).
Defined.


Lemma pull_uenv_effects_expected_sample :
  let r := pull_uenv (installation healthy true None) address image_path
             image true true (init_state ∅) in
  exists evs,
    trace (snd r) = trace (init_state ∅) ++ evs
    /\ Forall (expected base tag image_path true true) evs.
Proof.
  intros r.
  refine (pull_uenv_effects_expected (installation healthy true None) address
            image_path image true true (init_state ∅) base tag _).
  vm_compute. reflexivity.
Defined.


(** The registry refuses the discovery. *)
Lemma failed_discovery_aborts_sample :
  let E := installation
             (client (quiet "" denied 1) (quiet "Pulled" "" 0)
                (download 0 ""))
             true None in
  exists q s',
    pull_uenv E (base +:+ ":" +:+ tag) image_path image true true
      (init_state ∅) = (Raise (SystemExit 1), s')
    /\ launched (trace s') = [q :: discover_args base tag]
    /\ reported (trace s') =
         ["failed to find meta data: " +:+ denied +:+ nl +:+
          error_message_from_stderr E denied].
Proof.
  intros E.
  refine (failed_discovery_aborts E eq_refl "/usr/bin/oras" eq_refl _
            base tag image_path ∅ (quiet "" denied 1) _ _ image true _ _);
    first [ reflexivity | discriminate | intros q; reflexivity
          | intros z; vm_compute; discriminate ].
Defined.

(** A proxy answers the discovery with a page of HTML. *)
Lemma undecodable_answer_fails_sample :
  let E := installation
             (client (quiet "<html>" "" 0) (quiet "Pulled" "" 0)
                (download 0 ""))
             true None in
  exists q evs s',
    pull_uenv E (base +:+ ":" +:+ tag) image_path image true true
      (init_state ∅) = (Raise (SystemExit 1), s')
    /\ trace s' =
         evs ++
         [ETerminate 0; EStdout "";
          EError ("image pull failed with unknown exception: "
                  +:+ exc_text E (JSONDecodeError "<html>"))]
    /\ launched evs = [q :: discover_args base tag]
    /\ reported evs = [].
Proof.
  intros E.
  refine (undecodable_answer_fails E eq_refl "/usr/bin/oras" eq_refl _
            base tag image_path ∅ (quiet "<html>" "" 0) _ _
            (JSONDecodeError "<html>") image true _ _ _);
    first [ reflexivity | discriminate | intros q; reflexivity
          | intros z; vm_compute; discriminate
          | vm_compute; reflexivity ].
Defined.

(** The download of the sample image on a terminal, with a stale image in
    the way. *)
Lemma image_pull_unfolds_sample :
  let E := installation healthy true None in
  let fs0 : gmap string node := {[ sqfs_path := File 7 ]} in
  let c := download 0 "" in
  exists q evs k,
    pull_uenv E (base +:+ ":" +:+ tag) image_path image false true
      (init_state fs0)
    = (if child_exit c =? 0 then Ret tt else Raise (SystemExit 1),
       {| fs := foldl apply_step (cleaned_sqfs image_path fs0) (steps c);
          procs :=
            [reaped (started (q :: pull_args image_path
                                     (base +:+ ":" +:+ tag)) c)];
          trace :=
            sqfs_cleanup image_path fs0 ++ evs ++
            EPopen 0 (q :: pull_args image_path (base +:+ ":" +:+ tag)) ::
            loop_events E (image_path +:+ "/store.squashfs")
              (mb (size image)) (cleaned_sqfs image_path fs0) (steps c) ++
            verdict E image c;
          clock := k; proc := Some 0%nat |})
    /\ forallb is_info evs = true.
Proof.
  intros E fs0 c.
  refine (image_pull_unfolds E eq_refl "/usr/bin/oras" eq_refl _
            base tag image_path image c _ _ fs0 _ _);
    first [ reflexivity | discriminate | intros q; reflexivity
          | intros z; vm_compute; discriminate
          | right; vm_compute; discriminate ].
Defined.

(** The sample download into a target of size zero. *)
Lemma zero_size_target_fails_sample :
  let E := installation healthy true None in
  let c := download 0 "" in
  exists q evs s',
    pull_uenv E (base +:+ ":" +:+ tag) image_path {| size := 0 |} false true
      (init_state ∅) = (Raise (SystemExit 1), s')
    /\ trace s' =
         evs ++
         [ESleep (1 # 4); ETerminate 0; EStdout "";
          EError ("image pull failed with unknown exception: "
                  +:+ exc_text E ZeroDivisionError)]
    /\ launched evs = [q :: pull_args image_path (base +:+ ":" +:+ tag)]
    /\ reported evs = []
    /\ progress_lines evs = [].
Proof.
  intros E c.
  refine (zero_size_target_fails E eq_refl "/usr/bin/oras" eq_refl _
            base tag image_path {| size := 0 |} c ∅
            [(sqfs_path, Some (File (25 * MiB)))]
            [ [(sqfs_path, Some (File (50 * MiB)))];
              [(sqfs_path, Some (File (75 * MiB)))];
              [(sqfs_path, Some (File (100 * MiB)))] ]
            (File (25 * MiB)) _ eq_refl eq_refl eq_refl _ _ eq_refl);
    first [ discriminate | intros q; reflexivity
          | intros z; vm_compute; discriminate
          | vm_compute; reflexivity ].
Defined.

(** The end-to-end scenario: discovery, meta data, image. *)
Lemma whole_pull_runs_three_children_sample :
  let E := installation healthy true None in
  exists q1 q2 q3 s',
    pull_uenv E (base +:+ ":" +:+ tag) image_path image true true
      (init_state ∅)
    = (if child_exit (download 0 "") =? 0 then Ret tt
       else Raise (SystemExit 1), s')
    /\ launched (trace s') =
         [q1 :: discover_args base tag;
          q2 :: pull_args image_path
                  (base +:+ "@" +:+ format_value E (JStr "sha256:abc"));
          q3 :: pull_args image_path (base +:+ ":" +:+ tag)]
    /\ reported (trace s') =
         (if child_exit (download 0 "") =? 0 then []
          else ["image pull failed: " +:+ child_stderr (download 0 "")
                +:+ nl +:+
                error_message_from_stderr E (child_stderr (download 0 ""))])
    /\ fs s' =
         foldl apply_step
           (cleaned_sqfs image_path
              (foldl apply_step
                 (foldl apply_step (cleaned_meta image_path ∅)
                    (steps (quiet two_manifests "" 0)))
                 (steps (quiet "Pulled" "" 0))))
           (steps (download 0 "")).
Proof.
  intros E.
  refine (whole_pull_runs_three_children E eq_refl "/usr/bin/oras" eq_refl _
            base tag image_path image ∅ (quiet two_manifests "" 0)
            (quiet "Pulled" "" 0) (download 0 "") (JStr "sha256:abc")
            _ _ eq_refl _ _ _ _ _ eq_refl);
    first [ discriminate | intros q; reflexivity
          | intros z; vm_compute; discriminate
          | right; vm_compute; discriminate
          | vm_compute; reflexivity ].
Defined.

(** No client is installed. *)
Lemma run_command_launch_failure_sample :
  exists s',
    run_command nothing_installed (discover_args base tag) (init_state ∅)
      = (Raise (SystemExit 1), s')
    /\ procs s' = []
    /\ launched (trace s') = []
    /\ reported (trace s') = ["no oras executable found"].
Proof.
  refine (run_command_launch_failure nothing_installed eq_refl
            (discover_args base tag) "no oras executable found" ∅ _).
  apply client_missing. vm_compute. reflexivity.
Defined.

(** A regular file where the meta data directory goes. *)
Lemma stale_entry_of_wrong_kind_sample :
  let fs0 : gmap string node := {[ image_path +:+ "/meta" := File 0 ]} in
  exists s',
    pull_uenv (installation healthy true None) (base +:+ ":" +:+ tag)
      image_path image true true (init_state fs0)
    = (Raise (UnboundLocalError "proc"), s')
    /\ trace s' = [] /\ fs s' = fs0.
Proof.
  intros fs0.
  refine (proj1 (stale_entry_of_wrong_kind (installation healthy true None)
                   eq_refl base tag image_path image fs0 0 eq_refl) _ true).
  vm_compute. reflexivity.
Defined.

End ExtraScenarios.

Section LabelScenario.

Import Sample.

(** Five bytes more than 150 MiB are still 150 MB. *)
Lemma label_shows_whole_mebibytes_sample :
  (PyVal.int_true_div (150 * MiB + 5) (1024 * 1024)
   == mb (150 * MiB + 5))%Q /\
  (PyVal.int_true_div (100 * MiB) (1024 * 1024) == mb (100 * MiB))%Q /\
  mb_label (PyVal.int_true_div (150 * MiB + 5) (1024 * 1024))
           (PyVal.int_true_div (100 * MiB) (1024 * 1024)) = "150/100 MB" /\
  mb_label (mb (150 * MiB + 5)) (mb (100 * MiB)) = "150/100 MB".
Proof.
  refine (label_shows_whole_mebibytes (150 * MiB + 5) (100 * MiB) _ _);
    vm_compute; split; discriminate || reflexivity.
Defined.

(** The bound is needed.  At [2^53 + 2^20 - 1] bytes the division rounds
    up, and the label shows one mebibyte more than there is. *)
Example label_beyond_the_bound :
  let z := 2 ^ 53 + 2 ^ 20 - 1 in
  mb_label (PyVal.int_true_div z (1024 * 1024))
           (PyVal.int_true_div z (1024 * 1024))
    = "8589934593/8589934593 MB"
  /\ z / (1024 * 1024) = 8589934592.
Proof. split; vm_compute; reflexivity. Qed.

End LabelScenario.
